(** * model-integrity-checker: a shallow embedding of the package and its CLI

    The development follows the two source files:
    - [model_integrity_checker/__init__.py]: [get_supported_formats],
      [calculate_checksum], [verify_checksum], [save_checksums],
      [load_checksums], [scan_directory];
    - [model_integrity_checker/cli.py]: [cmd_calculate], [cmd_verify],
      [cmd_scan], [cmd_formats], [main].

    The Python run-time the package calls into is modelled first: strings as
    lists of code points, exceptions with their class hierarchy, a POSIX file
    tree with path resolution, [pathlib], [hashlib], [json] and text files. *)

From Stdlib Require Import String Ascii.
From Stdlib Require Import List NArith ZArith Arith Lia Bool Permutation.
From Stdlib.Strings Require Import Byte.
From Equations Require Import Equations.
Import ListNotations.

Set Implicit Arguments.
Set Warnings "-register-all,-abstract-large-number".

(* ===================================================================== *)
(** ** Python strings *)
(* ===================================================================== *)

(** A Python [str] is a sequence of code points (surrogates included). *)
Definition pystr := list N.

(** Files hold bytes. *)
Definition bytes := list byte.

(** ASCII literals. *)
Definition py (s : string) : pystr :=
  map N_of_ascii (list_ascii_of_string s).

(** A [str] of the interpreter only holds code points below [0x110000]. *)
Definition valid_str (s : pystr) : bool := forallb (fun c => (c <? 0x110000)%N) s.

Fixpoint str_eqb (a b : pystr) : bool :=
  match a, b with
  | [], [] => true
  | x :: a', y :: b' => N.eqb x y && str_eqb a' b'
  | _, _ => false
  end.

(** [sep.join(parts)] for a one-character separator. *)
Fixpoint join (sep : N) (parts : list pystr) : pystr :=
  match parts with
  | [] => []
  | [p] => p
  | p :: ps => p ++ sep :: join sep ps
  end.

(** [s.split(sep)] for a one-character separator: never the empty list. *)
Fixpoint split_on (sep : N) (s : pystr) : list pystr :=
  match s with
  | [] => [[]]
  | c :: s' =>
      if N.eqb c sep then [] :: split_on sep s'
      else match split_on sep s' with
           | w :: ws => (c :: w) :: ws
           | [] => [[c]]
           end
  end.

(** [name.endswith(suffix)]. *)
Definition endswith (suffix name : pystr) : bool :=
  str_eqb (skipn (length name - length suffix) name) suffix.

(** [needle in haystack] on strings. *)
Fixpoint startswith (prefix s : pystr) : bool :=
  match prefix, s with
  | [], _ => true
  | x :: p', y :: s' => N.eqb x y && startswith p' s'
  | _ :: _, [] => false
  end.

Fixpoint contains_str (needle haystack : pystr) : bool :=
  startswith needle haystack ||
  match haystack with
  | [] => false
  | _ :: h' => contains_str needle h'
  end.

(** [str.lower]. Besides A-Z, U+0130 and U+212A are the only code points whose
    lower case contains an ASCII character ([i] and [k]); the other cased code
    points lower to code points outside ASCII and are left unchanged here,
    which no comparison with an ASCII word can tell apart. *)
Definition lower_char (c : N) : pystr :=
  if (65 <=? c)%N && (c <=? 90)%N then [(c + 32)%N]
  else if (c =? 0x130)%N then [0x69; 0x307]%N
  else if (c =? 0x212A)%N then [0x6B]%N
  else [c].

Definition lower (s : pystr) : pystr := flat_map lower_char s.

(** [str(n)] for a natural number. *)
Fixpoint uint_str (u : Decimal.uint) : pystr :=
  match u with
  | Decimal.Nil => []
  | Decimal.D0 u' => 48%N :: uint_str u'
  | Decimal.D1 u' => 49%N :: uint_str u'
  | Decimal.D2 u' => 50%N :: uint_str u'
  | Decimal.D3 u' => 51%N :: uint_str u'
  | Decimal.D4 u' => 52%N :: uint_str u'
  | Decimal.D5 u' => 53%N :: uint_str u'
  | Decimal.D6 u' => 54%N :: uint_str u'
  | Decimal.D7 u' => 55%N :: uint_str u'
  | Decimal.D8 u' => 56%N :: uint_str u'
  | Decimal.D9 u' => 57%N :: uint_str u'
  end.

Definition str_of_nat (n : nat) : pystr := uint_str (Nat.to_uint n).

(** *** [repr] of a string *)

Definition hex_digit (d : N) : N := if (d <? 10)%N then (48 + d)%N else (87 + d)%N.

(** ['{0:02x}'], ['{0:04x}'] and ['{0:08x}'] of a code point. *)
Definition hex2 (n : N) : pystr :=
  [hex_digit (n / 16 mod 16)%N; hex_digit (n mod 16)%N].

Definition hex4 (n : N) : pystr :=
  [hex_digit (n / 4096 mod 16)%N; hex_digit (n / 256 mod 16)%N;
   hex_digit (n / 16 mod 16)%N; hex_digit (n mod 16)%N].

Definition hex8 (n : N) : pystr := hex4 (n / 65536)%N ++ hex4 (n mod 65536)%N.

(** The code points above ASCII that [str.isprintable] refuses, as ranges
    with both ends included: the control, format, surrogate, private-use
    and unassigned code points and the separators, in the Unicode data of
    the interpreter (version 14.0.0). *)
Definition unprintable : list (N * N) :=
  [(0x80, 0xa0); (0xad, 0xad); (0x378, 0x379); (0x380, 0x383); (0x38b, 0x38b);
   (0x38d, 0x38d); (0x3a2, 0x3a2); (0x530, 0x530); (0x557, 0x558); (0x58b, 0x58c);
   (0x590, 0x590); (0x5c8, 0x5cf); (0x5eb, 0x5ee); (0x5f5, 0x605); (0x61c, 0x61c);
   (0x6dd, 0x6dd); (0x70e, 0x70f); (0x74b, 0x74c); (0x7b2, 0x7bf); (0x7fb, 0x7fc);
   (0x82e, 0x82f); (0x83f, 0x83f); (0x85c, 0x85d); (0x85f, 0x85f); (0x86b, 0x86f);
   (0x88f, 0x897); (0x8e2, 0x8e2); (0x984, 0x984); (0x98d, 0x98e); (0x991, 0x992);
   (0x9a9, 0x9a9); (0x9b1, 0x9b1); (0x9b3, 0x9b5); (0x9ba, 0x9bb); (0x9c5, 0x9c6);
   (0x9c9, 0x9ca); (0x9cf, 0x9d6); (0x9d8, 0x9db); (0x9de, 0x9de); (0x9e4, 0x9e5);
   (0x9ff, 0xa00); (0xa04, 0xa04); (0xa0b, 0xa0e); (0xa11, 0xa12); (0xa29, 0xa29);
   (0xa31, 0xa31); (0xa34, 0xa34); (0xa37, 0xa37); (0xa3a, 0xa3b); (0xa3d, 0xa3d);
   (0xa43, 0xa46); (0xa49, 0xa4a); (0xa4e, 0xa50); (0xa52, 0xa58); (0xa5d, 0xa5d);
   (0xa5f, 0xa65); (0xa77, 0xa80); (0xa84, 0xa84); (0xa8e, 0xa8e); (0xa92, 0xa92);
   (0xaa9, 0xaa9); (0xab1, 0xab1); (0xab4, 0xab4); (0xaba, 0xabb); (0xac6, 0xac6);
   (0xaca, 0xaca); (0xace, 0xacf); (0xad1, 0xadf); (0xae4, 0xae5); (0xaf2, 0xaf8);
   (0xb00, 0xb00); (0xb04, 0xb04); (0xb0d, 0xb0e); (0xb11, 0xb12); (0xb29, 0xb29);
   (0xb31, 0xb31); (0xb34, 0xb34); (0xb3a, 0xb3b); (0xb45, 0xb46); (0xb49, 0xb4a);
   (0xb4e, 0xb54); (0xb58, 0xb5b); (0xb5e, 0xb5e); (0xb64, 0xb65); (0xb78, 0xb81);
   (0xb84, 0xb84); (0xb8b, 0xb8d); (0xb91, 0xb91); (0xb96, 0xb98); (0xb9b, 0xb9b);
   (0xb9d, 0xb9d); (0xba0, 0xba2); (0xba5, 0xba7); (0xbab, 0xbad); (0xbba, 0xbbd);
   (0xbc3, 0xbc5); (0xbc9, 0xbc9); (0xbce, 0xbcf); (0xbd1, 0xbd6); (0xbd8, 0xbe5);
   (0xbfb, 0xbff); (0xc0d, 0xc0d); (0xc11, 0xc11); (0xc29, 0xc29); (0xc3a, 0xc3b);
   (0xc45, 0xc45); (0xc49, 0xc49); (0xc4e, 0xc54); (0xc57, 0xc57); (0xc5b, 0xc5c);
   (0xc5e, 0xc5f); (0xc64, 0xc65); (0xc70, 0xc76); (0xc8d, 0xc8d); (0xc91, 0xc91);
   (0xca9, 0xca9); (0xcb4, 0xcb4); (0xcba, 0xcbb); (0xcc5, 0xcc5); (0xcc9, 0xcc9);
   (0xcce, 0xcd4); (0xcd7, 0xcdc); (0xcdf, 0xcdf); (0xce4, 0xce5); (0xcf0, 0xcf0);
   (0xcf3, 0xcff); (0xd0d, 0xd0d); (0xd11, 0xd11); (0xd45, 0xd45); (0xd49, 0xd49);
   (0xd50, 0xd53); (0xd64, 0xd65); (0xd80, 0xd80); (0xd84, 0xd84); (0xd97, 0xd99);
   (0xdb2, 0xdb2); (0xdbc, 0xdbc); (0xdbe, 0xdbf); (0xdc7, 0xdc9); (0xdcb, 0xdce);
   (0xdd5, 0xdd5); (0xdd7, 0xdd7); (0xde0, 0xde5); (0xdf0, 0xdf1); (0xdf5, 0xe00);
   (0xe3b, 0xe3e); (0xe5c, 0xe80); (0xe83, 0xe83); (0xe85, 0xe85); (0xe8b, 0xe8b);
   (0xea4, 0xea4); (0xea6, 0xea6); (0xebe, 0xebf); (0xec5, 0xec5); (0xec7, 0xec7);
   (0xece, 0xecf); (0xeda, 0xedb); (0xee0, 0xeff); (0xf48, 0xf48); (0xf6d, 0xf70);
   (0xf98, 0xf98); (0xfbd, 0xfbd); (0xfcd, 0xfcd); (0xfdb, 0xfff); (0x10c6, 0x10c6);
   (0x10c8, 0x10cc); (0x10ce, 0x10cf); (0x1249, 0x1249); (0x124e, 0x124f);
   (0x1257, 0x1257); (0x1259, 0x1259); (0x125e, 0x125f); (0x1289, 0x1289);
   (0x128e, 0x128f); (0x12b1, 0x12b1); (0x12b6, 0x12b7); (0x12bf, 0x12bf);
   (0x12c1, 0x12c1); (0x12c6, 0x12c7); (0x12d7, 0x12d7); (0x1311, 0x1311);
   (0x1316, 0x1317); (0x135b, 0x135c); (0x137d, 0x137f); (0x139a, 0x139f);
   (0x13f6, 0x13f7); (0x13fe, 0x13ff); (0x1680, 0x1680); (0x169d, 0x169f);
   (0x16f9, 0x16ff); (0x1716, 0x171e); (0x1737, 0x173f); (0x1754, 0x175f);
   (0x176d, 0x176d); (0x1771, 0x1771); (0x1774, 0x177f); (0x17de, 0x17df);
   (0x17ea, 0x17ef); (0x17fa, 0x17ff); (0x180e, 0x180e); (0x181a, 0x181f);
   (0x1879, 0x187f); (0x18ab, 0x18af); (0x18f6, 0x18ff); (0x191f, 0x191f);
   (0x192c, 0x192f); (0x193c, 0x193f); (0x1941, 0x1943); (0x196e, 0x196f);
   (0x1975, 0x197f); (0x19ac, 0x19af); (0x19ca, 0x19cf); (0x19db, 0x19dd);
   (0x1a1c, 0x1a1d); (0x1a5f, 0x1a5f); (0x1a7d, 0x1a7e); (0x1a8a, 0x1a8f);
   (0x1a9a, 0x1a9f); (0x1aae, 0x1aaf); (0x1acf, 0x1aff); (0x1b4d, 0x1b4f);
   (0x1b7f, 0x1b7f); (0x1bf4, 0x1bfb); (0x1c38, 0x1c3a); (0x1c4a, 0x1c4c);
   (0x1c89, 0x1c8f); (0x1cbb, 0x1cbc); (0x1cc8, 0x1ccf); (0x1cfb, 0x1cff);
   (0x1f16, 0x1f17); (0x1f1e, 0x1f1f); (0x1f46, 0x1f47); (0x1f4e, 0x1f4f);
   (0x1f58, 0x1f58); (0x1f5a, 0x1f5a); (0x1f5c, 0x1f5c); (0x1f5e, 0x1f5e);
   (0x1f7e, 0x1f7f); (0x1fb5, 0x1fb5); (0x1fc5, 0x1fc5); (0x1fd4, 0x1fd5);
   (0x1fdc, 0x1fdc); (0x1ff0, 0x1ff1); (0x1ff5, 0x1ff5); (0x1fff, 0x200f);
   (0x2028, 0x202f); (0x205f, 0x206f); (0x2072, 0x2073); (0x208f, 0x208f);
   (0x209d, 0x209f); (0x20c1, 0x20cf); (0x20f1, 0x20ff); (0x218c, 0x218f);
   (0x2427, 0x243f); (0x244b, 0x245f); (0x2b74, 0x2b75); (0x2b96, 0x2b96);
   (0x2cf4, 0x2cf8); (0x2d26, 0x2d26); (0x2d28, 0x2d2c); (0x2d2e, 0x2d2f);
   (0x2d68, 0x2d6e); (0x2d71, 0x2d7e); (0x2d97, 0x2d9f); (0x2da7, 0x2da7);
   (0x2daf, 0x2daf); (0x2db7, 0x2db7); (0x2dbf, 0x2dbf); (0x2dc7, 0x2dc7);
   (0x2dcf, 0x2dcf); (0x2dd7, 0x2dd7); (0x2ddf, 0x2ddf); (0x2e5e, 0x2e7f);
   (0x2e9a, 0x2e9a); (0x2ef4, 0x2eff); (0x2fd6, 0x2fef); (0x2ffc, 0x3000);
   (0x3040, 0x3040); (0x3097, 0x3098); (0x3100, 0x3104); (0x3130, 0x3130);
   (0x318f, 0x318f); (0x31e4, 0x31ef); (0x321f, 0x321f); (0xa48d, 0xa48f);
   (0xa4c7, 0xa4cf); (0xa62c, 0xa63f); (0xa6f8, 0xa6ff); (0xa7cb, 0xa7cf);
   (0xa7d2, 0xa7d2); (0xa7d4, 0xa7d4); (0xa7da, 0xa7f1); (0xa82d, 0xa82f);
   (0xa83a, 0xa83f); (0xa878, 0xa87f); (0xa8c6, 0xa8cd); (0xa8da, 0xa8df);
   (0xa954, 0xa95e); (0xa97d, 0xa97f); (0xa9ce, 0xa9ce); (0xa9da, 0xa9dd);
   (0xa9ff, 0xa9ff); (0xaa37, 0xaa3f); (0xaa4e, 0xaa4f); (0xaa5a, 0xaa5b);
   (0xaac3, 0xaada); (0xaaf7, 0xab00); (0xab07, 0xab08); (0xab0f, 0xab10);
   (0xab17, 0xab1f); (0xab27, 0xab27); (0xab2f, 0xab2f); (0xab6c, 0xab6f);
   (0xabee, 0xabef); (0xabfa, 0xabff); (0xd7a4, 0xd7af); (0xd7c7, 0xd7ca);
   (0xd7fc, 0xf8ff); (0xfa6e, 0xfa6f); (0xfada, 0xfaff); (0xfb07, 0xfb12);
   (0xfb18, 0xfb1c); (0xfb37, 0xfb37); (0xfb3d, 0xfb3d); (0xfb3f, 0xfb3f);
   (0xfb42, 0xfb42); (0xfb45, 0xfb45); (0xfbc3, 0xfbd2); (0xfd90, 0xfd91);
   (0xfdc8, 0xfdce); (0xfdd0, 0xfdef); (0xfe1a, 0xfe1f); (0xfe53, 0xfe53);
   (0xfe67, 0xfe67); (0xfe6c, 0xfe6f); (0xfe75, 0xfe75); (0xfefd, 0xff00);
   (0xffbf, 0xffc1); (0xffc8, 0xffc9); (0xffd0, 0xffd1); (0xffd8, 0xffd9);
   (0xffdd, 0xffdf); (0xffe7, 0xffe7); (0xffef, 0xfffb); (0xfffe, 0xffff);
   (0x1000c, 0x1000c); (0x10027, 0x10027); (0x1003b, 0x1003b); (0x1003e, 0x1003e);
   (0x1004e, 0x1004f); (0x1005e, 0x1007f); (0x100fb, 0x100ff); (0x10103, 0x10106);
   (0x10134, 0x10136); (0x1018f, 0x1018f); (0x1019d, 0x1019f); (0x101a1, 0x101cf);
   (0x101fe, 0x1027f); (0x1029d, 0x1029f); (0x102d1, 0x102df); (0x102fc, 0x102ff);
   (0x10324, 0x1032c); (0x1034b, 0x1034f); (0x1037b, 0x1037f); (0x1039e, 0x1039e);
   (0x103c4, 0x103c7); (0x103d6, 0x103ff); (0x1049e, 0x1049f); (0x104aa, 0x104af);
   (0x104d4, 0x104d7); (0x104fc, 0x104ff); (0x10528, 0x1052f); (0x10564, 0x1056e);
   (0x1057b, 0x1057b); (0x1058b, 0x1058b); (0x10593, 0x10593); (0x10596, 0x10596);
   (0x105a2, 0x105a2); (0x105b2, 0x105b2); (0x105ba, 0x105ba); (0x105bd, 0x105ff);
   (0x10737, 0x1073f); (0x10756, 0x1075f); (0x10768, 0x1077f); (0x10786, 0x10786);
   (0x107b1, 0x107b1); (0x107bb, 0x107ff); (0x10806, 0x10807); (0x10809, 0x10809);
   (0x10836, 0x10836); (0x10839, 0x1083b); (0x1083d, 0x1083e); (0x10856, 0x10856);
   (0x1089f, 0x108a6); (0x108b0, 0x108df); (0x108f3, 0x108f3); (0x108f6, 0x108fa);
   (0x1091c, 0x1091e); (0x1093a, 0x1093e); (0x10940, 0x1097f); (0x109b8, 0x109bb);
   (0x109d0, 0x109d1); (0x10a04, 0x10a04); (0x10a07, 0x10a0b); (0x10a14, 0x10a14);
   (0x10a18, 0x10a18); (0x10a36, 0x10a37); (0x10a3b, 0x10a3e); (0x10a49, 0x10a4f);
   (0x10a59, 0x10a5f); (0x10aa0, 0x10abf); (0x10ae7, 0x10aea); (0x10af7, 0x10aff);
   (0x10b36, 0x10b38); (0x10b56, 0x10b57); (0x10b73, 0x10b77); (0x10b92, 0x10b98);
   (0x10b9d, 0x10ba8); (0x10bb0, 0x10bff); (0x10c49, 0x10c7f); (0x10cb3, 0x10cbf);
   (0x10cf3, 0x10cf9); (0x10d28, 0x10d2f); (0x10d3a, 0x10e5f); (0x10e7f, 0x10e7f);
   (0x10eaa, 0x10eaa); (0x10eae, 0x10eaf); (0x10eb2, 0x10eff); (0x10f28, 0x10f2f);
   (0x10f5a, 0x10f6f); (0x10f8a, 0x10faf); (0x10fcc, 0x10fdf); (0x10ff7, 0x10fff);
   (0x1104e, 0x11051); (0x11076, 0x1107e); (0x110bd, 0x110bd); (0x110c3, 0x110cf);
   (0x110e9, 0x110ef); (0x110fa, 0x110ff); (0x11135, 0x11135); (0x11148, 0x1114f);
   (0x11177, 0x1117f); (0x111e0, 0x111e0); (0x111f5, 0x111ff); (0x11212, 0x11212);
   (0x1123f, 0x1127f); (0x11287, 0x11287); (0x11289, 0x11289); (0x1128e, 0x1128e);
   (0x1129e, 0x1129e); (0x112aa, 0x112af); (0x112eb, 0x112ef); (0x112fa, 0x112ff);
   (0x11304, 0x11304); (0x1130d, 0x1130e); (0x11311, 0x11312); (0x11329, 0x11329);
   (0x11331, 0x11331); (0x11334, 0x11334); (0x1133a, 0x1133a); (0x11345, 0x11346);
   (0x11349, 0x1134a); (0x1134e, 0x1134f); (0x11351, 0x11356); (0x11358, 0x1135c);
   (0x11364, 0x11365); (0x1136d, 0x1136f); (0x11375, 0x113ff); (0x1145c, 0x1145c);
   (0x11462, 0x1147f); (0x114c8, 0x114cf); (0x114da, 0x1157f); (0x115b6, 0x115b7);
   (0x115de, 0x115ff); (0x11645, 0x1164f); (0x1165a, 0x1165f); (0x1166d, 0x1167f);
   (0x116ba, 0x116bf); (0x116ca, 0x116ff); (0x1171b, 0x1171c); (0x1172c, 0x1172f);
   (0x11747, 0x117ff); (0x1183c, 0x1189f); (0x118f3, 0x118fe); (0x11907, 0x11908);
   (0x1190a, 0x1190b); (0x11914, 0x11914); (0x11917, 0x11917); (0x11936, 0x11936);
   (0x11939, 0x1193a); (0x11947, 0x1194f); (0x1195a, 0x1199f); (0x119a8, 0x119a9);
   (0x119d8, 0x119d9); (0x119e5, 0x119ff); (0x11a48, 0x11a4f); (0x11aa3, 0x11aaf);
   (0x11af9, 0x11bff); (0x11c09, 0x11c09); (0x11c37, 0x11c37); (0x11c46, 0x11c4f);
   (0x11c6d, 0x11c6f); (0x11c90, 0x11c91); (0x11ca8, 0x11ca8); (0x11cb7, 0x11cff);
   (0x11d07, 0x11d07); (0x11d0a, 0x11d0a); (0x11d37, 0x11d39); (0x11d3b, 0x11d3b);
   (0x11d3e, 0x11d3e); (0x11d48, 0x11d4f); (0x11d5a, 0x11d5f); (0x11d66, 0x11d66);
   (0x11d69, 0x11d69); (0x11d8f, 0x11d8f); (0x11d92, 0x11d92); (0x11d99, 0x11d9f);
   (0x11daa, 0x11edf); (0x11ef9, 0x11faf); (0x11fb1, 0x11fbf); (0x11ff2, 0x11ffe);
   (0x1239a, 0x123ff); (0x1246f, 0x1246f); (0x12475, 0x1247f); (0x12544, 0x12f8f);
   (0x12ff3, 0x12fff); (0x1342f, 0x143ff); (0x14647, 0x167ff); (0x16a39, 0x16a3f);
   (0x16a5f, 0x16a5f); (0x16a6a, 0x16a6d); (0x16abf, 0x16abf); (0x16aca, 0x16acf);
   (0x16aee, 0x16aef); (0x16af6, 0x16aff); (0x16b46, 0x16b4f); (0x16b5a, 0x16b5a);
   (0x16b62, 0x16b62); (0x16b78, 0x16b7c); (0x16b90, 0x16e3f); (0x16e9b, 0x16eff);
   (0x16f4b, 0x16f4e); (0x16f88, 0x16f8e); (0x16fa0, 0x16fdf); (0x16fe5, 0x16fef);
   (0x16ff2, 0x16fff); (0x187f8, 0x187ff); (0x18cd6, 0x18cff); (0x18d09, 0x1afef);
   (0x1aff4, 0x1aff4); (0x1affc, 0x1affc); (0x1afff, 0x1afff); (0x1b123, 0x1b14f);
   (0x1b153, 0x1b163); (0x1b168, 0x1b16f); (0x1b2fc, 0x1bbff); (0x1bc6b, 0x1bc6f);
   (0x1bc7d, 0x1bc7f); (0x1bc89, 0x1bc8f); (0x1bc9a, 0x1bc9b); (0x1bca0, 0x1ceff);
   (0x1cf2e, 0x1cf2f); (0x1cf47, 0x1cf4f); (0x1cfc4, 0x1cfff); (0x1d0f6, 0x1d0ff);
   (0x1d127, 0x1d128); (0x1d173, 0x1d17a); (0x1d1eb, 0x1d1ff); (0x1d246, 0x1d2df);
   (0x1d2f4, 0x1d2ff); (0x1d357, 0x1d35f); (0x1d379, 0x1d3ff); (0x1d455, 0x1d455);
   (0x1d49d, 0x1d49d); (0x1d4a0, 0x1d4a1); (0x1d4a3, 0x1d4a4); (0x1d4a7, 0x1d4a8);
   (0x1d4ad, 0x1d4ad); (0x1d4ba, 0x1d4ba); (0x1d4bc, 0x1d4bc); (0x1d4c4, 0x1d4c4);
   (0x1d506, 0x1d506); (0x1d50b, 0x1d50c); (0x1d515, 0x1d515); (0x1d51d, 0x1d51d);
   (0x1d53a, 0x1d53a); (0x1d53f, 0x1d53f); (0x1d545, 0x1d545); (0x1d547, 0x1d549);
   (0x1d551, 0x1d551); (0x1d6a6, 0x1d6a7); (0x1d7cc, 0x1d7cd); (0x1da8c, 0x1da9a);
   (0x1daa0, 0x1daa0); (0x1dab0, 0x1deff); (0x1df1f, 0x1dfff); (0x1e007, 0x1e007);
   (0x1e019, 0x1e01a); (0x1e022, 0x1e022); (0x1e025, 0x1e025); (0x1e02b, 0x1e0ff);
   (0x1e12d, 0x1e12f); (0x1e13e, 0x1e13f); (0x1e14a, 0x1e14d); (0x1e150, 0x1e28f);
   (0x1e2af, 0x1e2bf); (0x1e2fa, 0x1e2fe); (0x1e300, 0x1e7df); (0x1e7e7, 0x1e7e7);
   (0x1e7ec, 0x1e7ec); (0x1e7ef, 0x1e7ef); (0x1e7ff, 0x1e7ff); (0x1e8c5, 0x1e8c6);
   (0x1e8d7, 0x1e8ff); (0x1e94c, 0x1e94f); (0x1e95a, 0x1e95d); (0x1e960, 0x1ec70);
   (0x1ecb5, 0x1ed00); (0x1ed3e, 0x1edff); (0x1ee04, 0x1ee04); (0x1ee20, 0x1ee20);
   (0x1ee23, 0x1ee23); (0x1ee25, 0x1ee26); (0x1ee28, 0x1ee28); (0x1ee33, 0x1ee33);
   (0x1ee38, 0x1ee38); (0x1ee3a, 0x1ee3a); (0x1ee3c, 0x1ee41); (0x1ee43, 0x1ee46);
   (0x1ee48, 0x1ee48); (0x1ee4a, 0x1ee4a); (0x1ee4c, 0x1ee4c); (0x1ee50, 0x1ee50);
   (0x1ee53, 0x1ee53); (0x1ee55, 0x1ee56); (0x1ee58, 0x1ee58); (0x1ee5a, 0x1ee5a);
   (0x1ee5c, 0x1ee5c); (0x1ee5e, 0x1ee5e); (0x1ee60, 0x1ee60); (0x1ee63, 0x1ee63);
   (0x1ee65, 0x1ee66); (0x1ee6b, 0x1ee6b); (0x1ee73, 0x1ee73); (0x1ee78, 0x1ee78);
   (0x1ee7d, 0x1ee7d); (0x1ee7f, 0x1ee7f); (0x1ee8a, 0x1ee8a); (0x1ee9c, 0x1eea0);
   (0x1eea4, 0x1eea4); (0x1eeaa, 0x1eeaa); (0x1eebc, 0x1eeef); (0x1eef2, 0x1efff);
   (0x1f02c, 0x1f02f); (0x1f094, 0x1f09f); (0x1f0af, 0x1f0b0); (0x1f0c0, 0x1f0c0);
   (0x1f0d0, 0x1f0d0); (0x1f0f6, 0x1f0ff); (0x1f1ae, 0x1f1e5); (0x1f203, 0x1f20f);
   (0x1f23c, 0x1f23f); (0x1f249, 0x1f24f); (0x1f252, 0x1f25f); (0x1f266, 0x1f2ff);
   (0x1f6d8, 0x1f6dc); (0x1f6ed, 0x1f6ef); (0x1f6fd, 0x1f6ff); (0x1f774, 0x1f77f);
   (0x1f7d9, 0x1f7df); (0x1f7ec, 0x1f7ef); (0x1f7f1, 0x1f7ff); (0x1f80c, 0x1f80f);
   (0x1f848, 0x1f84f); (0x1f85a, 0x1f85f); (0x1f888, 0x1f88f); (0x1f8ae, 0x1f8af);
   (0x1f8b2, 0x1f8ff); (0x1fa54, 0x1fa5f); (0x1fa6e, 0x1fa6f); (0x1fa75, 0x1fa77);
   (0x1fa7d, 0x1fa7f); (0x1fa87, 0x1fa8f); (0x1faad, 0x1faaf); (0x1fabb, 0x1fabf);
   (0x1fac6, 0x1facf); (0x1fada, 0x1fadf); (0x1fae8, 0x1faef); (0x1faf7, 0x1faff);
   (0x1fb93, 0x1fb93); (0x1fbcb, 0x1fbef); (0x1fbfa, 0x1ffff); (0x2a6e0, 0x2a6ff);
   (0x2b739, 0x2b73f); (0x2b81e, 0x2b81f); (0x2cea2, 0x2ceaf); (0x2ebe1, 0x2f7ff);
   (0x2fa1e, 0x2ffff); (0x3134b, 0xe00ff); (0xe01f0, 0x10ffff)]%N.

Definition in_range (c : N) (r : N * N) : bool := ((fst r <=? c) && (c <=? snd r))%N.

Definition isprintable (c : N) : bool :=
  if (c <? 128)%N then ((32 <=? c) && (c <? 127))%N
  else negb (existsb (in_range c) unprintable).

(** What [repr] writes for one code point between the quotes [quote]. *)
Definition repr_char (quote c : N) : pystr :=
  if ((c =? quote) || (c =? 92))%N then [92; c]%N
  else if (c =? 9)%N then [92; 116]%N
  else if (c =? 10)%N then [92; 110]%N
  else if (c =? 13)%N then [92; 114]%N
  else if isprintable c then [c]
  else if (c <? 0x100)%N then (92 :: 120 :: hex2 c)%N
  else if (c <? 0x10000)%N then (92 :: 117 :: hex4 c)%N
  else (92 :: 85 :: hex8 c)%N.

(** [repr(s)]: between apostrophes, or between double quotes when [s] holds
    an apostrophe and no double quote. *)
Definition repr (s : pystr) : pystr :=
  let quote := if existsb (N.eqb 39) s && negb (existsb (N.eqb 34) s)
               then 34%N else 39%N in
  quote :: flat_map (repr_char quote) s ++ [quote].

(* ===================================================================== *)
(** ** Exceptions and results *)
(* ===================================================================== *)

Inductive exn_class :=
| OSError
| FileNotFoundError
| NotADirectoryError
| IsADirectoryError
| PermissionError
| ValueError
| JSONDecodeError
| UnicodeError
| TypeError
| KeyError
| RecursionError.

(** The part of the class hierarchy an [except] clause of the package can
    see: [json.JSONDecodeError] and the Unicode errors derive from
    [ValueError]; the four named OS errors are siblings under [OSError],
    which is itself the class of the OS errors without a class of their
    own. *)
Definition subclass (c parent : exn_class) : bool :=
  match c, parent with
  | OSError, OSError => true
  | FileNotFoundError, (FileNotFoundError | OSError) => true
  | NotADirectoryError, (NotADirectoryError | OSError) => true
  | IsADirectoryError, (IsADirectoryError | OSError) => true
  | PermissionError, (PermissionError | OSError) => true
  | ValueError, ValueError => true
  | JSONDecodeError, (JSONDecodeError | ValueError) => true
  | UnicodeError, (UnicodeError | ValueError) => true
  | TypeError, TypeError => true
  | KeyError, KeyError => true
  | RecursionError, RecursionError => true
  | _, _ => false
  end.

Record exn := Exn { exn_class_of : exn_class; exn_msg : pystr }.

Definition isinstance (e : exn) (c : exn_class) : bool :=
  subclass (exn_class_of e) c.

Inductive result (A : Type) :=
| Ok (a : A)
| Raise (e : exn).
Arguments Ok {A} a.
Arguments Raise {A} e.

Definition rbind {A B} (m : result A) (k : A -> result B) : result B :=
  match m with
  | Ok a => k a
  | Raise e => Raise e
  end.

Declare Scope py_scope.
Delimit Scope py_scope with py.
Notation "x <- m ;; k" := (rbind m (fun x => k))
  (at level 61, m at next level, right associativity) : py_scope.
Notation "' pat <- m ;; k" := (rbind m (fun x => match x with pat => k end))
  (at level 61, pat pattern, m at next level, right associativity) : py_scope.

(** Values a JSON document decodes to, which are also the values the command
    line hands around ([None], strings). Numbers keep their literal text. *)
Inductive pyval :=
| PNone
| PBool (b : bool)
| PNum (literal : pystr)
| PStr (s : pystr)
| PList (items : list pyval)
| PDict (items : list (pystr * pyval)).

(** [actual == expected] where [actual] is a [str]. *)
Definition str_eq_val (actual : pystr) (expected : pyval) : bool :=
  match expected with
  | PStr s => str_eqb actual s
  | _ => false
  end.

(* ===================================================================== *)
(** ** Dictionaries: insertion-ordered, keys unique *)
(* ===================================================================== *)

Fixpoint dict_get {V} (k : pystr) (d : list (pystr * V)) : option V :=
  match d with
  | [] => None
  | (k', v) :: d' => if str_eqb k k' then Some v else dict_get k d'
  end.

(** [d[k] = v]: an existing key keeps its place, a new one goes last. *)
Fixpoint dict_set {V} (k : pystr) (v : V) (d : list (pystr * V)) : list (pystr * V) :=
  match d with
  | [] => [(k, v)]
  | (k', v') :: d' =>
      if str_eqb k k' then (k', v) :: d' else (k', v') :: dict_set k v d'
  end.

Definition keys {V} (d : list (pystr * V)) : list pystr := map fst d.

(** A checksum record: file identifier to digest. *)
Definition record := list (pystr * pystr).

(* ===================================================================== *)
(** ** The file system *)
(* ===================================================================== *)

(** A tree of directories and regular files (no links, no special files).
    A file carries one permission bit: when it is off the owner may neither
    read nor write it. Directories can always be listed, searched and
    written. *)
Inductive node :=
| File (perm : bool) (data : bytes)
| Dir (entries : list (pystr * node)).

(** Why a call that takes a path name fails. Python first makes bytes of the
    name ([os.fsencode]): a name with a surrogate code point other than
    U+DC80 to U+DCFF cannot be encoded, and a name with a NUL cannot be
    passed on; these two are errors of Python itself, raised before the
    system is called. The others are the error numbers the system
    answers. *)
Inductive errno :=
| ENOENT | ENOTDIR | EISDIR | EACCES | ENAMETOOLONG
| NOT_ENCODABLE | EMBEDDED_NUL.

Local Open Scope N_scope.

Definition is_surrogate (c : N) : bool := (0xd800 <=? c) && (c <=? 0xdfff).

(** The code points that stand for one undecodable byte each. *)
Definition escaped_byte (c : N) : bool := (0xdc80 <=? c) && (c <=? 0xdcff).

Definition encodable (c : N) : bool := negb (is_surrogate c) || escaped_byte c.

(** The number of bytes [os.fsencode] makes of a code point (UTF-8 with
    [surrogateescape]), and of a name. *)
Definition utf8_length (c : N) : N :=
  if c <? 0x80 then 1
  else if c <? 0x800 then 2
  else if escaped_byte c then 1
  else if c <? 0x10000 then 3
  else 4.

Definition fs_length (name : pystr) : N :=
  fold_right (fun c n => utf8_length c + n) 0 name.

(** The limits of the system: the bytes of one component, and the bytes of a
    whole path name with the NUL that ends it. *)
Definition NAME_MAX : N := 255.
Definition PATH_MAX : N := 4096.

Definition name_too_long (c : pystr) : bool := NAME_MAX <? fs_length c.

(** What is wrong with a path name before any of it is looked up: it cannot
    be encoded, it holds a NUL, or it has [PATH_MAX] bytes or more. *)
Definition name_error (name : pystr) : option errno :=
  if negb (forallb encodable name) then Some NOT_ENCODABLE
  else if existsb (N.eqb 0) name then Some EMBEDDED_NUL
  else if PATH_MAX <=? fs_length name then Some ENAMETOOLONG
  else None.

Local Close Scope N_scope.

(** The node at a canonical location (a list of entry names from the root). *)
Fixpoint node_at (n : node) (loc : list pystr) : option node :=
  match loc with
  | [] => Some n
  | c :: loc' =>
      match n with
      | Dir es =>
          match dict_get c es with
          | Some m => node_at m loc'
          | None => None
          end
      | File _ _ => None
      end
  end.

Definition dot : pystr := py ".".
Definition dotdot : pystr := py "..".
Definition slash : N := 47%N.

(** The kernel's path walk. The working directory is the root of the tree,
    so relative and absolute path names start at the same place. Every
    component is looked up in a directory that must exist, and a directory
    refuses to look up a component of more than [NAME_MAX] bytes; the
    location the last component names may be missing. *)
Fixpoint walk (root : node) (loc : list pystr) (comps : list pystr)
  : errno + list pystr :=
  match comps with
  | [] => inr loc
  | c :: rest =>
      match node_at root loc with
      | None => inl ENOENT
      | Some (File _ _) => inl ENOTDIR
      | Some (Dir _) =>
          if str_eqb c dot then walk root loc rest
          else if str_eqb c dotdot then walk root (removelast loc) rest
          else if name_too_long c then inl ENAMETOOLONG
          else walk root (loc ++ [c]) rest
      end
  end.

Definition nonempty (s : pystr) : bool :=
  match s with [] => false | _ => true end.

Definition components (name : pystr) : list pystr :=
  filter nonempty (split_on slash name).

Definition trailing_slash (name : pystr) : bool :=
  match rev name with
  | c :: _ => N.eqb c slash
  | [] => false
  end.

(** [stat(name)]: the empty name does not exist; a trailing slash asks for a
    directory. *)
Definition os_stat (root : node) (name : pystr) : errno + node :=
  match name_error name with
  | Some e => inl e
  | None =>
      match name with
      | [] => inl ENOENT
      | _ =>
          let comps :=
            components name ++ (if trailing_slash name then [dot] else []) in
          match walk root [] comps with
          | inl e => inl e
          | inr loc =>
              match node_at root loc with
              | Some n => inr n
              | None => inl ENOENT
              end
          end
      end
  end.

(** [open(name, "rb")] followed by reading: the bytes of a readable file. *)
Definition os_open_read (root : node) (name : pystr) : errno + bytes :=
  match os_stat root name with
  | inl e => inl e
  | inr (Dir _) => inl EISDIR
  | inr (File false _) => inl EACCES
  | inr (File true data) => inr data
  end.

(** Replace or create the entry at a location whose parent is a directory. *)
Fixpoint put (n : node) (loc : list pystr) (f : node) : node :=
  match loc with
  | [] => f
  | c :: loc' =>
      match n with
      | File _ _ => n
      | Dir es =>
          match loc' with
          | [] => Dir (dict_set c f es)
          | _ :: _ =>
              match dict_get c es with
              | Some m => Dir (dict_set c (put m loc' f) es)
              | None => n
              end
          end
      end
  end.

(** [open(name, "w")]: the file is created, or truncated when it exists.
    The result is the location of the open file and the tree after opening. *)
Definition os_open_write (root : node) (name : pystr)
  : errno + (list pystr * node) :=
  match name_error name with
  | Some e => inl e
  | None =>
      match name with
      | [] => inl ENOENT
      | _ =>
          match walk root [] (components name) with
          | inl e => inl e
          | inr loc =>
              if trailing_slash name then inl EISDIR
              else
                match node_at root loc with
                | Some (Dir _) => inl EISDIR
                | Some (File false _) => inl EACCES
                | _ => inr (loc, put root loc (File true []))
                end
          end
      end
  end.

(** Writing to the open file and closing it. *)
Definition os_write (root : node) (loc : list pystr) (data : bytes) : node :=
  put root loc (File true data).

(** The class of the error raised: the [OSError] subclass of an error
    number ([OSError] itself when the number has no class of its own),
    [UnicodeEncodeError] and [ValueError] for the two errors of Python. *)
Definition errno_class (e : errno) : exn_class :=
  match e with
  | ENOENT => FileNotFoundError
  | ENOTDIR => NotADirectoryError
  | EISDIR => IsADirectoryError
  | EACCES => PermissionError
  | ENAMETOOLONG => OSError
  | NOT_ENCODABLE => UnicodeError
  | EMBEDDED_NUL => ValueError
  end.

(** The code points [os.fsencode] gives up on: from the first one it cannot
    encode to the end of the run of surrogates around it. *)
Fixpoint refused (i : nat) (name : pystr) : option (nat * N * nat) :=
  match name with
  | [] => None
  | c :: rest =>
      if encodable c then refused (S i) rest
      else
        Some (i, c,
              (fix run (s : pystr) : nat :=
                 match s with
                 | d :: s' => if is_surrogate d then S (run s') else 0
                 | [] => 0
                 end) rest)
  end.

Definition encode_error (name : pystr) : pystr :=
  match refused 0 name with
  | Some (i, c, 0) =>
      py "'utf-8' codec can't encode character '\u" ++ hex4 c ++ py "' in position "
      ++ str_of_nat i ++ py ": surrogates not allowed"
  | Some (i, _, more) =>
      py "'utf-8' codec can't encode characters in position " ++ str_of_nat i
      ++ py "-" ++ str_of_nat (i + more) ++ py ": surrogates not allowed"
  | None => []
  end.

(** The text of the error: for an error number,
    [[Errno n] strerror: ] followed by the [repr] of the name. *)
Definition error_text (e : errno) (name : pystr) : pystr :=
  match e with
  | ENOENT => py "[Errno 2] No such file or directory: " ++ repr name
  | ENOTDIR => py "[Errno 20] Not a directory: " ++ repr name
  | EISDIR => py "[Errno 21] Is a directory: " ++ repr name
  | EACCES => py "[Errno 13] Permission denied: " ++ repr name
  | ENAMETOOLONG => py "[Errno 36] File name too long: " ++ repr name
  | NOT_ENCODABLE => encode_error name
  | EMBEDDED_NUL => py "embedded null byte"
  end.

Definition os_error (e : errno) (name : pystr) : exn :=
  Exn (errno_class e) (error_text e name).

Definition lift_os {A} (name : pystr) (r : errno + A) : result A :=
  match r with
  | inr a => Ok a
  | inl e => Raise (os_error e name)
  end.

(* ===================================================================== *)
(** ** pathlib *)
(* ===================================================================== *)

(** A [PurePosixPath]: the anchor (empty, one slash, or exactly two) and the
    components, with empty and [.] components dropped when it is built. *)
Record PurePath := MkPath { anchor : pystr; parts : list pystr }.

Fixpoint leading_slashes (s : pystr) : nat :=
  match s with
  | c :: s' => if N.eqb c slash then S (leading_slashes s') else 0
  | [] => 0
  end.

Definition Path (s : pystr) : PurePath :=
  {| anchor := match leading_slashes s with
               | 0 => []
               | 2 => [slash; slash]
               | _ => [slash]
               end;
     parts := filter (fun c => nonempty c && negb (str_eqb c dot))
                     (split_on slash s) |}.

(** [str(path)]. *)
Definition str (p : PurePath) : pystr :=
  match anchor p, parts p with
  | [], [] => dot
  | a, ps => a ++ join slash ps
  end.

(** A [Union[str, Path]] argument and the [Path(...)] applied to it. *)
Inductive pathlike :=
| AsStr (s : pystr)
| AsPath (p : PurePath).

Definition Path_of (x : pathlike) : PurePath :=
  match x with
  | AsStr s => Path s
  | AsPath p => p
  end.

Definition joinpath (p : PurePath) (rel : list pystr) : PurePath :=
  {| anchor := anchor p; parts := parts p ++ rel |}.

(** The error numbers of [stat] that [pathlib] takes for the answer no. *)
Definition ignore_error (e : errno) : bool :=
  match e with
  | ENOENT | ENOTDIR => true
  | _ => false
  end.

(** [Path.exists()], [Path.is_file()] and [Path.is_dir()]: an [OSError] of
    [stat] answers no when its error number is one to ignore and is raised
    again otherwise; a [ValueError] answers no. *)
Definition stat_answer (fs : node) (p : PurePath) (answer : node -> bool)
  : result bool :=
  match os_stat fs (str p) with
  | inr n => Ok (answer n)
  | inl e =>
      let err := os_error e (str p) in
      if isinstance err OSError
      then if ignore_error e then Ok false else Raise err
      else if isinstance err ValueError then Ok false
      else Raise err
  end.

Definition path_exists (fs : node) (p : PurePath) : result bool :=
  stat_answer fs p (fun _ => true).

Definition is_file (fs : node) (p : PurePath) : result bool :=
  stat_answer fs p (fun n => match n with File _ _ => true | Dir _ => false end).

Definition is_dir (fs : node) (p : PurePath) : result bool :=
  stat_answer fs p (fun n => match n with File _ _ => false | Dir _ => true end).

Fixpoint strip_prefix (pre l : list pystr) : option (list pystr) :=
  match pre, l with
  | [], _ => Some l
  | x :: pre', y :: l' => if str_eqb x y then strip_prefix pre' l' else None
  | _ :: _, [] => None
  end.

Definition not_in_subpath (p other : PurePath) : exn :=
  Exn ValueError
      (py "'" ++ str p ++ py "' is not in the subpath of '" ++ str other
       ++ py "' OR one path is relative and the other is absolute.").

(** [path.relative_to(other)]. *)
Definition relative_to (p other : PurePath) : result PurePath :=
  if str_eqb (anchor p) (anchor other) then
    match strip_prefix (parts other) (parts p) with
    | Some rel => Ok (MkPath [] rel)
    | None => Raise (not_in_subpath p other)
    end
  else Raise (not_in_subpath p other).

(** [Path.glob] for the two patterns the scanner builds. The model is for
    a suffix [ext] that [glob] takes literally: one without a star, a
    question mark, an opening bracket or a separator, which [glob] would
    read as a pattern of its own. A name then matches [*ext] when it ends
    with [ext]; hidden names match too.

    [glob] is a generator: it yields paths one at a time, and what it
    raises it raises between two of them. What it yields is a list of
    results, of which a loop sees no more than the first error. *)
Definition glob_here (ext : pystr) (es : list (pystr * node)) : list (list pystr) :=
  map (fun e => [fst e]) (filter (fun e => endswith ext (fst e)) es).

(** [**/*ext] from the directory [n] at the path [here]: listing the
    directory fails when its path name has a fault of its own (it is too
    long); otherwise the matches in the directory itself come first, then
    those of every sub-directory in turn. *)
Fixpoint rglob (ext : pystr) (here : PurePath) (n : node) : list (result PurePath) :=
  match n with
  | File _ _ => []
  | Dir es =>
      match name_error (str here) with
      | Some e => [Raise (os_error e (str here))]
      | None =>
          map (fun rel => Ok (joinpath here rel)) (glob_here ext es) ++
          (fix below (l : list (pystr * node)) : list (result PurePath) :=
             match l with
             | [] => []
             | (name, child) :: l' =>
                 rglob ext (joinpath here [name]) child ++ below l'
             end) es
      end
  end.

(** [directory.glob(pattern + ext)] with [pattern] one of [**/*] and [*]:
    nothing when [directory.is_dir()] answers no, and the error of [is_dir]
    when it raises. *)
Definition glob (fs : node) (directory : PurePath) (recursive : bool) (ext : pystr)
  : list (result PurePath) :=
  match is_dir fs directory with
  | Raise e => [Raise e]
  | Ok false => []
  | Ok true =>
      match os_stat fs (str directory) with
      | inr (Dir es) =>
          if recursive then rglob ext directory (Dir es)
          else map (fun rel => Ok (joinpath directory rel)) (glob_here ext es)
      | _ => []
      end
  end.

(* ===================================================================== *)
(** ** hashlib *)
(* ===================================================================== *)

(** The three digest functions, from bytes to lower-case hexadecimal text. *)
Record hashlib := HashLib {
  sha256_hex : bytes -> pystr;
  md5_hex : bytes -> pystr;
  sha1_hex : bytes -> pystr
}.

Inductive hash_name := SHA256 | MD5 | SHA1.

(** A hash object: [update] feeds it, and the digest is that of everything
    fed so far, in order. *)
Record hasher := Hasher { hash_of : hash_name; fed : bytes }.

Definition new_hasher (a : hash_name) : hasher := Hasher a [].

Definition update (h : hasher) (chunk : bytes) : hasher :=
  Hasher (hash_of h) (fed h ++ chunk).

Definition hexdigest (hl : hashlib) (h : hasher) : pystr :=
  match hash_of h with
  | SHA256 => sha256_hex hl (fed h)
  | MD5 => md5_hex hl (fed h)
  | SHA1 => sha1_hex hl (fed h)
  end.

Definition inspect {A} (a : A) : {b : A | a = b} := exist _ a eq_refl.

Definition chunk_size : nat := 8192.

(** [while chunk := f.read(n): hasher.update(chunk)], on the bytes the open
    file has left; the loop ends at the first empty chunk. *)
Equations? read_loop (n : nat) (h : hasher) (f : bytes) : hasher
  by wf (length f) lt :=
  read_loop n h f with inspect (firstn n f) := {
    | exist _ [] _ => h
    | exist _ (b :: chunk) e =>
        read_loop n (update h (b :: chunk)) (skipn n f) }.
Proof.
  destruct n as [|n]; [discriminate|].
  destruct f as [|x f]; [discriminate|].
  rewrite length_skipn. simpl. lia.
Qed.

Definition read_chunks : hasher -> bytes -> hasher := read_loop chunk_size.

(* ===================================================================== *)
(** ** Text files *)
(* ===================================================================== *)

(** Text-mode files use the locale's preferred encoding. The locales of the
    platform are ASCII-compatible: text of code points below 128 is stored as
    those bytes, and bytes below 128 read back as those code points. What the
    encoding does outside ASCII is left to the two functions of the codec.

    The third field belongs to the interpreter rather than to the locale:
    [json.load] enters one level of the interpreter's stack for each array
    or object open at a time, and fails when the stack is full. Its room
    depends on the calls under way (the default limit is 1000 levels), so it
    is a parameter too: the decoder has room for one array or object and
    for [nesting_room] more inside it. *)
Record text_codec := Codec {
  encode_other : pystr -> option bytes;
  decode_other : bytes -> option pystr;
  nesting_room : nat
}.

Definition ascii_bytes (s : pystr) : bytes :=
  map (fun c => match Byte.of_N c with Some b => b | None => x00 end) s.

Definition text_encode (codec : text_codec) (s : pystr) : option bytes :=
  if forallb (fun c => (c <? 128)%N) s then Some (ascii_bytes s)
  else encode_other codec s.

Definition text_decode (codec : text_codec) (b : bytes) : option pystr :=
  if forallb (fun x => (Byte.to_N x <? 128)%N) b then Some (map Byte.to_N b)
  else decode_other codec b.

(** The strict [ascii] codec of the C locale, with the room a call from the
    command line leaves. *)
Definition ascii_codec : text_codec := Codec (fun _ => None) (fun _ => None) 980.

(* ===================================================================== *)
(** ** json *)
(* ===================================================================== *)

Local Open Scope N_scope.

(** The replacement [py_encode_basestring_ascii] makes for one code point:
    the short escapes, printable ASCII as it is, [\uXXXX] below [0x10000]
    and a surrogate pair above. *)
Definition escape_char (c : N) : pystr :=
  if c =? 92 then [92; 92]
  else if c =? 34 then [92; 34]
  else if c =? 8 then [92; 98]
  else if c =? 12 then [92; 102]
  else if c =? 10 then [92; 110]
  else if c =? 13 then [92; 114]
  else if c =? 9 then [92; 116]
  else if (32 <=? c) && (c <=? 126) then [c]
  else if c <? 0x10000 then 92 :: 117 :: hex4 c
  else
    let n := c - 0x10000 in
    let s1 := N.lor 0xd800 (N.land (N.shiftr n 10) 0x3ff) in
    let s2 := N.lor 0xdc00 (N.land n 0x3ff) in
    92 :: 117 :: hex4 s1 ++ 92 :: 117 :: hex4 s2.

Definition encode_basestring_ascii (s : pystr) : pystr :=
  34 :: flat_map escape_char s ++ [34].

Fixpoint concat_sep (sep : pystr) (l : list pystr) : pystr :=
  match l with
  | [] => []
  | [x] => x
  | x :: l' => x ++ sep ++ concat_sep sep l'
  end.

Definition dump_item (kv : pystr * pystr) : pystr :=
  encode_basestring_ascii (fst kv) ++ [58; 32] ++ encode_basestring_ascii (snd kv).

(** [json.dumps(d, indent=2)] for a dict of strings: members in insertion
    order, one per line, indented by two spaces. *)
Definition json_dumps (d : record) : pystr :=
  match d with
  | [] => [123; 125]
  | _ => [123; 10; 32; 32] ++ concat_sep [44; 10; 32; 32] (map dump_item d) ++ [10; 125]
  end.

(** The decoder's error; the position the real message ends with is left
    out. *)
Definition json_error (msg : string) : exn := Exn JSONDecodeError (py msg).

Definition is_ws (c : N) : bool :=
  (c =? 32) || (c =? 9) || (c =? 10) || (c =? 13).

Fixpoint skip_ws (s : pystr) : pystr :=
  match s with
  | c :: s' => if is_ws c then skip_ws s' else s
  | [] => []
  end.

Definition hex_value (c : N) : option N :=
  if (48 <=? c) && (c <=? 57) then Some (c - 48)
  else if (97 <=? c) && (c <=? 102) then Some (c - 87)
  else if (65 <=? c) && (c <=? 70) then Some (c - 55)
  else None.

Definition decode_hex4 (a b c d : N) : option N :=
  match hex_value a, hex_value b, hex_value c, hex_value d with
  | Some x, Some y, Some z, Some w => Some (4096 * x + 256 * y + 16 * z + w)
  | _, _, _, _ => None
  end.

Definition is_high_surrogate (c : N) : bool := (0xd800 <=? c) && (c <=? 0xdbff).
Definition is_low_surrogate (c : N) : bool := (0xdc00 <=? c) && (c <=? 0xdfff).

Definition join_surrogates (hi lo : N) : N :=
  0x10000 + N.lor (N.shiftl (hi - 0xd800) 10) (lo - 0xdc00).

(** The decoder's table of one-letter escapes. *)
Definition unescape (c : N) : option N :=
  if c =? 34 then Some 34
  else if c =? 92 then Some 92
  else if c =? 47 then Some 47
  else if c =? 98 then Some 8
  else if c =? 102 then Some 12
  else if c =? 110 then Some 10
  else if c =? 114 then Some 13
  else if c =? 116 then Some 9
  else None.

Definition push (c : N) (r : result (pystr * pystr)) : result (pystr * pystr) :=
  match r with
  | Ok (s, rest) => Ok (c :: s, rest)
  | Raise e => Raise e
  end.

(** [scanstring] (strict), from just after the opening quote: the decoded
    string and the text after the closing quote. A [\uXXXX] escape of a high
    surrogate directly followed by one of a low surrogate decodes to the one
    code point the pair stands for. *)
Fixpoint scanstring (s : pystr) : result (pystr * pystr) :=
  match s with
  | [] => Raise (json_error "Unterminated string starting at")
  | c :: rest =>
      if c =? 34 then Ok ([], rest)
      else if c =? 92 then
        match rest with
        | [] => Raise (json_error "Unterminated string starting at")
        | e :: rest1 =>
            if e =? 117 then
              match rest1 with
              | h1 :: h2 :: h3 :: h4 :: rest2 =>
                  match decode_hex4 h1 h2 h3 h4 with
                  | None => Raise (json_error "Invalid \uXXXX escape")
                  | Some uni =>
                      if is_high_surrogate uni then
                        match rest2 with
                        | b :: u :: l1 :: l2 :: l3 :: l4 :: rest3 =>
                            if (b =? 92) && (u =? 117) then
                              match decode_hex4 l1 l2 l3 l4 with
                              | None => Raise (json_error "Invalid \uXXXX escape")
                              | Some uni2 =>
                                  if is_low_surrogate uni2
                                  then push (join_surrogates uni uni2) (scanstring rest3)
                                  else push uni (scanstring rest2)
                              end
                            else push uni (scanstring rest2)
                        | _ => push uni (scanstring rest2)
                        end
                      else push uni (scanstring rest2)
                  end
              | _ => Raise (json_error "Invalid \uXXXX escape")
              end
            else
              match unescape e with
              | Some ch => push ch (scanstring rest1)
              | None => Raise (json_error "Invalid \escape")
              end
        end
      else if c <? 32 then Raise (json_error "Invalid control character at")
      else push c (scanstring rest)
  end.

Definition is_digit (c : N) : bool := (48 <=? c) && (c <=? 57).

Fixpoint span_digits (s : pystr) : pystr * pystr :=
  match s with
  | c :: s' =>
      if is_digit c then let '(d, r) := span_digits s' in (c :: d, r)
      else ([], s)
  | [] => ([], [])
  end.

(** The optional fraction and exponent of a number: each is taken only when
    at least one digit follows. *)
Definition number_frac (lit s : pystr) : pystr * pystr :=
  match s with
  | c :: s1 =>
      if c =? 46 then
        match span_digits s1 with
        | ([], _) => (lit, s)
        | (d, r) => (lit ++ c :: d, r)
        end
      else (lit, s)
  | [] => (lit, s)
  end.

Definition number_exp (lit s : pystr) : pystr * pystr :=
  match s with
  | c :: s1 =>
      if (c =? 101) || (c =? 69) then
        let '(sign, s2) :=
          match s1 with
          | g :: s2 => if (g =? 43) || (g =? 45) then ([g], s2) else ([], s1)
          | [] => ([], s1)
          end in
        match span_digits s2 with
        | ([], _) => (lit, s)
        | (d, r) => (lit ++ c :: sign ++ d, r)
        end
      else (lit, s)
  | [] => (lit, s)
  end.

(** [NUMBER_RE.match]: an optional minus, then 0 or a digit 1-9 and more
    digits, then the optional fraction and exponent. *)
Definition match_number (s : pystr) : option (pystr * pystr) :=
  let '(sign, s1) :=
    match s with
    | c :: r => if c =? 45 then ([c], r) else ([], s)
    | [] => ([], s)
    end in
  match s1 with
  | c :: r =>
      if c =? 48 then
        let '(l1, r1) := number_frac (sign ++ [c]) r in Some (number_exp l1 r1)
      else if is_digit c then
        let '(d, r0) := span_digits r in
        let '(l1, r1) := number_frac (sign ++ c :: d) r0 in Some (number_exp l1 r1)
      else None
  | [] => None
  end.

Definition literal (word : string) (v : pyval) (s : pystr)
  : option (pyval * pystr) :=
  if startswith (py word) s then Some (v, skipn (String.length word) s) else None.

Definition first_some {A} (l : list (option A)) : option A :=
  fold_right (fun o acc => match o with Some a => Some a | None => acc end) None l.

(** [int(literal)] refuses a literal of more than 4300 digits (the default
    of [sys.set_int_max_str_digits]); the literal of a float has no limit. *)
Definition max_str_digits : N := 4300.

Definition is_float_literal (lit : pystr) : bool :=
  existsb (fun c => (c =? 46) || (c =? 101) || (c =? 69)) lit.

Definition digits_of (lit : pystr) : nat := length (filter is_digit lit).

Definition int_too_long (lit : pystr) : bool :=
  negb (is_float_literal lit) && (max_str_digits <? N.of_nat (digits_of lit)).

Definition digits_error (lit : pystr) : exn :=
  Exn ValueError
      (py "Exceeds the limit (4300 digits) for integer string conversion: value has "
       ++ str_of_nat (digits_of lit)
       ++ py " digits; use sys.set_int_max_str_digits() to increase the limit").

(** The decoder found the stack of the interpreter full. *)
Definition too_deep (what : string) : exn :=
  Exn RecursionError
      (py "maximum recursion depth exceeded while decoding a JSON " ++ py what
       ++ py " from a unicode string").

(** The error of the model's own bound, which no text reaches. *)
Definition out_of_fuel : exn :=
  Exn RecursionError (py "maximum recursion depth exceeded").

(** Converting the number the scanner matched. *)
Definition convert_number (vr : pyval * pystr) : result (pyval * pystr) :=
  match fst vr with
  | PNum lit => if int_too_long lit then Raise (digits_error lit) else Ok vr
  | _ => Ok vr
  end.

(** The decoder. [depth] is the number of arrays and objects that may still
    be opened inside one another: the scanner enters a level of the
    interpreter's stack for each and fails with [RecursionError] when there
    is none left. [fuel] bounds the calls of the model itself; a call is
    made for a value, for an array and for each of its elements, for an
    object and for each of its members, so that three calls at most go with
    one character of the text. *)
Fixpoint scan_once (fuel depth : nat) (s : pystr) {struct fuel}
  : result (pyval * pystr) :=
  match fuel with
  | O => Raise out_of_fuel
  | S fuel' =>
      match s with
      | [] => Raise (json_error "Expecting value")
      | c :: rest =>
          if c =? 34 then
            match scanstring rest with
            | Ok (x, r) => Ok (PStr x, r)
            | Raise e => Raise e
            end
          else if c =? 123 then
            match depth with
            | O => Raise (too_deep "object")
            | S depth' => json_object fuel' depth' rest
            end
          else if c =? 91 then
            match depth with
            | O => Raise (too_deep "array")
            | S depth' => json_array fuel' depth' rest
            end
          else
            match first_some
                    [literal "null" PNone s; literal "true" (PBool true) s;
                     literal "false" (PBool false) s;
                     option_map (fun lr => (PNum (fst lr), snd lr)) (match_number s);
                     literal "NaN" (PNum (py "NaN")) s;
                     literal "Infinity" (PNum (py "Infinity")) s;
                     literal "-Infinity" (PNum (py "-Infinity")) s] with
            | Some vr => convert_number vr
            | None => Raise (json_error "Expecting value")
            end
      end
  end
with json_object (fuel depth : nat) (s : pystr) {struct fuel}
  : result (pyval * pystr) :=
  match fuel with
  | O => Raise out_of_fuel
  | S fuel' =>
      match skip_ws s with
      | c :: r =>
          if c =? 125 then Ok (PDict [], r)
          else if c =? 34 then json_members fuel' depth [] r
          else Raise (json_error "Expecting property name enclosed in double quotes")
      | [] => Raise (json_error "Expecting property name enclosed in double quotes")
      end
  end
with json_members (fuel depth : nat) (acc : list (pystr * pyval)) (s : pystr)
  {struct fuel} : result (pyval * pystr) :=
  match fuel with
  | O => Raise out_of_fuel
  | S fuel' =>
      match scanstring s with
      | Raise e => Raise e
      | Ok (key, r) =>
          match skip_ws r with
          | c :: r1 =>
              if c =? 58 then
                match scan_once fuel' depth (skip_ws r1) with
                | Raise e => Raise e
                | Ok (v, r2) =>
                    let acc' := dict_set key v acc in
                    match skip_ws r2 with
                    | c2 :: r3 =>
                        if c2 =? 125 then Ok (PDict acc', r3)
                        else if c2 =? 44 then
                          match skip_ws r3 with
                          | q :: r4 =>
                              if q =? 34 then json_members fuel' depth acc' r4
                              else Raise (json_error "Expecting property name enclosed in double quotes")
                          | [] => Raise (json_error "Expecting property name enclosed in double quotes")
                          end
                        else Raise (json_error "Expecting ',' delimiter")
                    | [] => Raise (json_error "Expecting ',' delimiter")
                    end
                end
              else Raise (json_error "Expecting ':' delimiter")
          | [] => Raise (json_error "Expecting ':' delimiter")
          end
      end
  end
with json_array (fuel depth : nat) (s : pystr) {struct fuel}
  : result (pyval * pystr) :=
  match fuel with
  | O => Raise out_of_fuel
  | S fuel' =>
      match skip_ws s with
      | c :: r =>
          if c =? 93 then Ok (PList [], r)
          else json_elements fuel' depth [] (skip_ws s)
      | [] => json_elements fuel' depth [] []
      end
  end
with json_elements (fuel depth : nat) (acc : list pyval) (s : pystr) {struct fuel}
  : result (pyval * pystr) :=
  match fuel with
  | O => Raise out_of_fuel
  | S fuel' =>
      match scan_once fuel' depth s with
      | Raise e => Raise e
      | Ok (v, r) =>
          match skip_ws r with
          | c :: r1 =>
              if c =? 93 then Ok (PList (acc ++ [v]), r1)
              else if c =? 44 then json_elements fuel' depth (acc ++ [v]) (skip_ws r1)
              else Raise (json_error "Expecting ',' delimiter")
          | [] => Raise (json_error "Expecting ',' delimiter")
          end
      end
  end.

(** [json.loads]: one value, white space around it, nothing else. [room] is
    the number of arrays and objects the stack has room for inside the
    outermost one. *)
Definition json_loads (room : nat) (s : pystr) : result pyval :=
  let s0 := skip_ws s in
  match scan_once (S (3 * length s0)) (S room) s0 with
  | Raise e => Raise e
  | Ok (v, r) =>
      match skip_ws r with
      | [] => Ok v
      | _ :: _ => Raise (json_error "Extra data")
      end
  end.

Local Close Scope N_scope.

(* ===================================================================== *)
(** ** The interpreter state *)
(* ===================================================================== *)

(** List objects live in a heap and are named by their address, so that two
    names for one list can be told from two lists with the same items. *)
Definition address := nat.
Definition heap := list (list pystr).

Definition deref (h : heap) (a : address) : list pystr := nth a h [].

Definition alloc (h : heap) (items : list pystr) : address * heap :=
  (length h, h ++ [items]).

Fixpoint store (h : heap) (a : address) (items : list pystr) : heap :=
  match h, a with
  | [], _ => []
  | _ :: h', O => items :: h'
  | x :: h', S a' => x :: store h' a' items
  end.

(** Any in-place change of the list at [a]: append, remove, clear, sort... *)
Definition mutate (h : heap) (a : address) (f : list pystr -> list pystr) : heap :=
  store h a (f (deref h a)).

(** The heap, the file tree and the two output streams (one entry per
    [print] call). *)
Record world := World {
  objects : heap;
  files : node;
  stdout : list pystr;
  stderr : list pystr
}.

Definition with_files (w : world) (fs : node) : world :=
  World (objects w) fs (stdout w) (stderr w).

Inductive outcome (A : Type) :=
| Returns (a : A) (w : world)
| Raises (e : exn) (w : world).
Arguments Returns {A} a w.
Arguments Raises {A} e w.

Definition M (A : Type) := world -> outcome A.

Definition ret {A} (a : A) : M A := fun w => Returns a w.

Definition bind {A B} (m : M A) (k : A -> M B) : M B :=
  fun w => match m w with
           | Returns a w' => k a w'
           | Raises e w' => Raises e w'
           end.

Declare Scope cli_scope.
Delimit Scope cli_scope with cli.
Notation "x <- m ;; k" := (bind m (fun x => k))
  (at level 61, m at next level, right associativity) : cli_scope.
Notation "m ;; k" := (bind m (fun _ => k))
  (at level 61, right associativity) : cli_scope.

(** A computation that only reads the world. *)
Definition reading {A} (f : world -> result A) : M A :=
  fun w => match f w with
           | Ok a => Returns a w
           | Raise e => Raises e w
           end.

(** [try: body except cls as e: handler]. *)
Definition try_except {A} (body : M A) (cls : exn_class) (handler : exn -> M A) : M A :=
  fun w => match body w with
           | Returns a w' => Returns a w'
           | Raises e w' => if isinstance e cls then handler e w' else Raises e w'
           end.

Definition print (line : pystr) : M unit :=
  fun w => Returns tt (World (objects w) (files w) (stdout w ++ [line]) (stderr w)).

Definition print_err (line : pystr) : M unit :=
  fun w => Returns tt (World (objects w) (files w) (stdout w) (stderr w ++ [line])).

(* ===================================================================== *)
(** ** model_integrity_checker/__init__.py *)
(* ===================================================================== *)

(** The module global [SUPPORTED_FORMATS] names the list object the import
    allocates first. *)
Definition SUPPORTED_FORMATS : address := 0.

Definition imported : heap := [[py ".h5"; py ".pt"; py ".onnx"]].

(** [return SUPPORTED_FORMATS.copy()]: a new list object. *)
Definition get_supported_formats (h : heap) : address * heap :=
  alloc h (deref h SUPPORTED_FORMATS).

(** [for x in l: body], threading the loop's state and stopping at the first
    exception. *)
Fixpoint for_each {A S} (l : list A) (body : A -> S -> result S) (s : S) : result S :=
  match l with
  | [] => Ok s
  | x :: l' =>
      match body x s with
      | Ok s' => for_each l' body s'
      | Raise e => Raise e
      end
  end.

(** [for x in g: body] for a generator [g]: the loop also stops at the first
    exception the generator raises. *)
Fixpoint for_each_yielded {A S} (g : list (result A)) (body : A -> S -> result S)
  (s : S) : result S :=
  match g with
  | [] => Ok s
  | Ok x :: g' =>
      match body x s with
      | Ok s' => for_each_yielded g' body s'
      | Raise e => Raise e
      end
  | Raise e :: _ => Raise e
  end.

Section Package.

Context (hl : hashlib) (codec : text_codec).

Local Open Scope py_scope.

Definition calculate_checksum (fs : node) (path : pathlike) (algorithm : pystr)
  : result pystr :=
  let path := Path_of path in
  found <- path_exists fs path ;;
  if negb found then
    Raise (Exn FileNotFoundError (py "File not found: " ++ str path))
  else
    hasher <-
      (if str_eqb (lower algorithm) (py "sha256") then Ok (new_hasher SHA256)
       else if str_eqb (lower algorithm) (py "md5") then Ok (new_hasher MD5)
       else if str_eqb (lower algorithm) (py "sha1") then Ok (new_hasher SHA1)
       else Raise (Exn ValueError (py "Unsupported algorithm: " ++ algorithm))) ;;
    f <- lift_os (str path) (os_open_read fs (str path)) ;;
    Ok (hexdigest hl (read_chunks hasher f)).

Definition default_algorithm : pystr := py "sha256".

Definition verify_checksum (fs : node) (path : pathlike) (expected_checksum : pyval)
  : result bool :=
  match calculate_checksum fs path default_algorithm with
  | Ok actual => Ok (str_eq_val actual expected_checksum)
  | Raise e =>
      if isinstance e FileNotFoundError || isinstance e ValueError
      then Ok false
      else Raise e
  end.

(** [with open(filepath, "w") as f: json.dump(checksums, f, indent=2)]. The
    file is opened (created or truncated) before anything is written. *)
Definition save_checksums (checksums : record) (filepath : pystr) : M unit :=
  fun w =>
    match os_open_write (files w) filepath with
    | inl e => Raises (os_error e filepath) w
    | inr (loc, opened) =>
        match text_encode codec (json_dumps checksums) with
        | None =>
            Raises (Exn UnicodeError (py "codec can't encode characters"))
                   (with_files w opened)
        | Some data => Returns tt (with_files w (os_write opened loc data))
        end
    end.

(** [with open(filepath, "r") as f: return json.load(f)]. *)
Definition load_checksums (fs : node) (filepath : pystr) : result pyval :=
  data <- lift_os filepath (os_open_read fs filepath) ;;
  match text_decode codec data with
  | None => Raise (Exn UnicodeError (py "codec can't decode bytes"))
  | Some text => json_loads (nesting_room codec) text
  end.

Definition scan_directory (h : heap) (fs : node) (directory : pathlike)
  (formats : option (list pystr)) (recursive : bool) : result record :=
  let directory := Path_of directory in
  let formats :=
    match formats with
    | None => deref h SUPPORTED_FORMATS
    | Some l => l
    end in
  for_each formats
    (fun ext checksums =>
       for_each_yielded (glob fs directory recursive ext)
         (fun path checksums =>
            regular <- is_file fs path ;;
            if regular : bool then
              rel_path <- relative_to path directory ;;
              digest <- calculate_checksum fs (AsPath path) default_algorithm ;;
              Ok (dict_set (str rel_path) digest checksums)
            else Ok checksums)
         checksums)
    [].

End Package.

(* ===================================================================== *)
(** ** model_integrity_checker/cli.py *)
(* ===================================================================== *)

(** What [parser.parse_args] returns, by sub-command; an option that was not
    given is [None]. *)
Inductive namespace :=
| NoCommand
| Calculate (model : pystr) (output : option pystr)
| Verify (model : pystr) (checksum checksum_file : option pystr)
| Scan (directory : pystr) (formats : option pystr) (no_recursive : bool)
       (output : option pystr)
| Formats.

(** Truth value of an optional string: [None] and the empty string are false. *)
Definition truthy (o : option pystr) : bool :=
  match o with
  | Some (_ :: _) => true
  | _ => false
  end.

Definition value_of (o : option pystr) : pystr :=
  match o with
  | Some s => s
  | None => []
  end.

Definition val_of_option (o : option pystr) : pyval :=
  match o with
  | Some s => PStr s
  | None => PNone
  end.

(** [type(v).__name__]. *)
Definition type_name (v : pyval) : pystr :=
  match v with
  | PNone => py "NoneType"
  | PBool _ => py "bool"
  | PNum literal =>
      if existsb (fun c => existsb (N.eqb c) [46; 101; 69; 78; 73]%N) literal
      then py "float" else py "int"
  | PStr _ => py "str"
  | PList _ => py "list"
  | PDict _ => py "dict"
  end.

(** [key in obj]. *)
Definition py_contains (key : pystr) (obj : pyval) : result bool :=
  match obj with
  | PDict d => Ok (match dict_get key d with Some _ => true | None => false end)
  | PList l => Ok (existsb (str_eq_val key) l)
  | PStr s => Ok (contains_str key s)
  | _ => Raise (Exn TypeError (py "argument of type '" ++ type_name obj
                               ++ py "' is not iterable"))
  end.

(** [obj[key]] for a string key. *)
Definition py_getitem (key : pystr) (obj : pyval) : result pyval :=
  match obj with
  | PDict d =>
      match dict_get key d with
      | Some v => Ok v
      | None => Raise (Exn KeyError key)
      end
  | PList _ => Raise (Exn TypeError (py "list indices must be integers or slices, not str"))
  | PStr _ => Raise (Exn TypeError (py "string indices must be integers, not 'str'"))
  | _ => Raise (Exn TypeError (py "'" ++ type_name obj
                               ++ py "' object is not subscriptable"))
  end.

Definition check_mark : pystr := 0x2713%N :: py " Checksum verified successfully".
Definition cross_mark : pystr := 0x2717%N :: py " Checksum mismatch!".

(** The text [parser.print_help()] prints (its wording is argparse's). *)
Definition help_text : pystr :=
  py "usage: [-h] {calculate,verify,scan,formats} ...".

Section CLI.

Context (hl : hashlib) (codec : text_codec).

Local Open Scope cli_scope.

Definition cmd_calculate (model : pystr) (output : option pystr) : M nat :=
  try_except
    (checksum <- reading (fun w => calculate_checksum hl (files w) (AsStr model)
                                     default_algorithm) ;;
     (if truthy output then
        save_checksums codec [(model, checksum)] (value_of output) ;;
        print (py "Checksum saved to " ++ value_of output)
      else print checksum) ;;
     ret 0)
    FileNotFoundError
    (fun e => print_err (py "Error: " ++ exn_msg e) ;; ret 1).

(** The last statement of [cmd_verify]. *)
Definition report_verification (model : pystr) (expected : pyval) : M nat :=
  ok <- reading (fun w => verify_checksum hl (files w) (AsStr model) expected) ;;
  if ok : bool then print check_mark ;; ret 0
  else print_err cross_mark ;; ret 1.

(** The [try] block either leaves [expected] bound ([inl]) or returns from
    the function ([inr]). *)
Definition cmd_verify (model : pystr) (checksum checksum_file : option pystr) : M nat :=
  if truthy checksum_file then
    r <- try_except
           (checksums <- reading (fun w => load_checksums codec (files w)
                                             (value_of checksum_file)) ;;
            found <- reading (fun _ => py_contains model checksums) ;;
            if found : bool then
              expected <- reading (fun _ => py_getitem model checksums) ;;
              ret (inl expected)
            else
              print_err (py "Error: Model '" ++ model ++ py "' not found in checksum file") ;;
              ret (inr 1))
           FileNotFoundError
           (fun e => print_err (py "Error: " ++ exn_msg e) ;; ret (inr 1)) ;;
    match r with
    | inl expected => report_verification model expected
    | inr code => ret code
    end
  else report_verification model (val_of_option checksum).

Definition cmd_scan (directory : pystr) (formats : option pystr)
  (no_recursive : bool) (output : option pystr) : M nat :=
  let formats := if truthy formats then Some (split_on 44%N (value_of formats)) else None in
  checksums <- reading (fun w => scan_directory hl (objects w) (files w)
                                   (AsStr directory) formats (negb no_recursive)) ;;
  (if truthy output then
     save_checksums codec checksums (value_of output) ;;
     print (py "Found " ++ str_of_nat (length checksums)
            ++ py " model file(s). Checksums saved to " ++ value_of output)
   else print (json_dumps checksums)) ;;
  ret 0.

Fixpoint print_all (lines : list pystr) : M unit :=
  match lines with
  | [] => ret tt
  | l :: ls => print l ;; print_all ls
  end.

Definition cmd_formats : M nat :=
  fun w =>
    let '(a, h) := get_supported_formats (objects w) in
    (print_all (deref h a) ;; ret 0) (World h (files w) (stdout w) (stderr w)).

(** [main], from the parsed arguments on. *)
Definition main (args : namespace) : M nat :=
  match args with
  | NoCommand => print help_text ;; ret 1
  | Calculate model output => cmd_calculate model output
  | Verify model checksum checksum_file =>
      if negb (truthy checksum) && negb (truthy checksum_file) then
        print_err (py "Error: Either --checksum or --checksum-file required") ;;
        ret 1
      else cmd_verify model checksum checksum_file
  | Scan directory formats no_recursive output =>
      cmd_scan directory formats no_recursive output
  | Formats => cmd_formats
  end.

End CLI.

(* ===================================================================== *)
(** ** Example data *)
(* ===================================================================== *)

(** A stand-in digest for the examples (the theorems are about every
    [hashlib]): four hexadecimal digits of a tagged byte sum. *)
Definition toy_hex (tag : N) (b : bytes) : pystr :=
  hex4 ((tag + fold_left (fun a x => a + Byte.to_N x)%N b 0%N) mod 65536).

Definition toy_hashlib : hashlib := HashLib (toy_hex 1) (toy_hex 2) (toy_hex 3).

Definition ascii_text (s : string) : bytes := ascii_bytes (py s).

(** [models/] holds a model file, a text file and a sub-directory with one
    more model file; [locked/] holds two model files, one of which cannot be
    read; beside them lie a checksum file for [models/a.h5] and a file that
    is not JSON. *)
Definition demo_models : node :=
  Dir [ (py "a.h5", File true (ascii_text "fake model"));
        (py "notes.txt", File true (ascii_text "n"));
        (py "sub", Dir [ (py "c.onnx", File true (ascii_text "deep")) ]) ].

Definition demo_locked : node :=
  Dir [ (py "a.h5", File true (ascii_text "fake model"));
        (py "b.pt", File false (ascii_text "fake model 2")) ].

Definition demo_files : node :=
  Dir [ (py "models", demo_models);
        (py "locked", demo_locked);
        (py "sums.json",
         File true (ascii_bytes (json_dumps
           [(py "models/a.h5", toy_hex 1 (ascii_text "fake model"))])));
        (py "junk.json", File true (ascii_text "not json")) ].

Definition demo_world : world := World imported demo_files [] [].

(** A name of 300 letters [a]: more bytes than a component may have. *)
Definition long_name : pystr := repeat 97%N 300.

(** A directory with a locked file and a sub-directory whose name has 254
    bytes, and a path of 3841 bytes that leads to the directory, so that
    the path of the sub-directory has 4096. *)
Definition long_entry : pystr := repeat 115%N 254.

Definition demo_deep : node :=
  Dir [ (py "d", Dir [ (long_entry, Dir []);
                       (py "b.pt", File false (ascii_text "fake model 2")) ]) ].

Definition winding_path : pystr :=
  flat_map (fun _ => py "d/../") (seq 0 768) ++ py "d".

(* ===================================================================== *)
(** ** Vocabulary of the properties *)
(* ===================================================================== *)

(** The algorithm a selector names, if any. *)
Definition algorithm_named (algorithm : pystr) : option hash_name :=
  if str_eqb (lower algorithm) (py "sha256") then Some SHA256
  else if str_eqb (lower algorithm) (py "md5") then Some MD5
  else if str_eqb (lower algorithm) (py "sha1") then Some SHA1
  else None.



Definition usage_error : pystr :=
  py "Error: Either --checksum or --checksum-file required".

(** The command did not return: an error of class [c] reached its caller. *)
Definition escapes_with {A} (o : outcome A) (c : exn_class) : Prop :=
  match o with
  | Raises e _ => exn_class_of e = c
  | Returns _ _ => False
  end.

(** The errors of [stat] for which [exists()], [is_file()] and [is_dir()]
    answer no. *)
Definition answers_no (e : errno) : bool :=
  match e with
  | ENOENT | ENOTDIR | NOT_ENCODABLE | EMBEDDED_NUL => true
  | _ => false
  end.

(** The formats a scan uses, the paths it looks at in the order it meets
    them, and what it does with one of them. *)
Definition formats_used (h : heap) (formats : option (list pystr)) : list pystr :=
  match formats with
  | None => deref h SUPPORTED_FORMATS
  | Some l => l
  end.

Definition candidates (fs : node) (directory : PurePath) (recursive : bool)
  (formats : list pystr) : list (result PurePath) :=
  flat_map (glob fs directory recursive) formats.


Definition scan_step (hl : hashlib) (fs : node) (directory path : PurePath)
  (checksums : record) : result record :=
  rbind (is_file fs path) (fun regular =>
  if regular : bool then
    rbind (relative_to path directory) (fun rel_path =>
    rbind (calculate_checksum hl fs (AsPath path) default_algorithm) (fun digest =>
    Ok (dict_set (str rel_path) digest checksums)))
  else Ok checksums).

Local Open Scope N_scope.



(** The two halves the encoder makes of a code point above the BMP. *)
Definition high_half (c : N) : N :=
  N.lor 0xd800 (N.land (N.shiftr (c - 0x10000) 10) 0x3ff).
Definition low_half (c : N) : N :=
  N.lor 0xdc00 (N.land (c - 0x10000) 0x3ff).

(** The shapes of [escape_char c]. *)
Inductive escaped (c : N) : pystr -> Prop :=
| esc_short e :
    unescape e = Some c -> e <> 117 -> e < 128 -> escaped c [92; e]
| esc_plain :
    c <> 34 -> c <> 92 -> 32 <= c -> c <= 126 -> escaped c [c]
| esc_u :
    c < 65536 -> escaped c (92 :: 117 :: hex4 c)
| esc_pair :
    0x10000 <= c -> c < 0x110000 ->
    escaped c (92 :: 117 :: hex4 (high_half c) ++ 92 :: 117 :: hex4 (low_half c)).

(** A decoding step leaves less text than [n] characters, or fails with
    another error than that of the model's own bound. *)
Definition consumes {A} (n : nat) (o : result (A * pystr)) : Prop :=
  match o with
  | Ok (_, r) => (length r < n)%nat
  | Raise e => e <> out_of_fuel
  end.



(** A record as the value [json.load] returns for it. *)
Definition as_dict (r : record) : pyval :=
  PDict (map (fun kv => (fst kv, PStr (snd kv))) r).

(** The dumped text after the opening quote of a member's key. *)
Fixpoint members_text (kv : pystr * pystr) (items : record) : pystr :=
  flat_map escape_char (fst kv) ++ 34 :: 58 :: 32 ::
  encode_basestring_ascii (snd kv) ++
  match items with
  | [] => [10; 125]
  | kv' :: items' => 44 :: 10 :: 32 :: 32 :: 34 :: members_text kv' items'
  end.

Definition all_ascii (s : pystr) : bool := forallb (fun c => c <? 128) s.

Local Close Scope N_scope.

(** What is at a location: nothing, a file ([false]) or a directory. *)
Definition kind_at (root : node) (loc : list pystr) : option bool :=
  match node_at root loc with
  | None => None
  | Some (File _ _) => Some false
  | Some (Dir _) => Some true
  end.


Local Open Scope N_scope.

Definition slash_free (s : pystr) : bool := forallb (fun c => negb (c =? slash)) s.

(** A component as [pathlib] keeps them: not empty, no separator. *)
Definition part_ok (s : pystr) : bool := nonempty s && slash_free s.

(** A name a directory can hold: code points the file system encoding
    takes, no NUL, and [NAME_MAX] bytes at most. *)
Definition fs_char (c : N) : bool := encodable c && negb (c =? 0).

Definition fs_name (s : pystr) : bool := forallb fs_char s && negb (name_too_long s).

(** An entry name: a component other than [.] and [..] that a directory can
    hold. *)
Definition plain_name (s : pystr) : bool :=
  part_ok s && negb (str_eqb s dot) && negb (str_eqb s dotdot) && fs_name s.

Definition valid_path (p : PurePath) : Prop :=
  (anchor p = [] \/ anchor p = [slash] \/ anchor p = [slash; slash])
  /\ forallb part_ok (parts p) = true.

Local Close Scope N_scope.

Fixpoint unique (l : list pystr) : bool :=
  match l with
  | [] => true
  | x :: l' => negb (existsb (str_eqb x) l') && unique l'
  end.

(** In a directory the entry names are distinct, hold no separator, are
    neither empty nor [.] nor [..], and are names a directory can hold. *)
Fixpoint wf_tree (n : node) : bool :=
  match n with
  | File _ _ => true
  | Dir es =>
      forallb plain_name (map fst es) && unique (map fst es) &&
      (fix all (l : list (pystr * node)) : bool :=
         match l with
         | [] => true
         | (_, c) :: l' => wf_tree c && all l'
         end) es
  end.

(** Everything under a node, with its location relative to the node. *)
Fixpoint entries (n : node) : list (list pystr * node) :=
  match n with
  | File _ _ => []
  | Dir es =>
      (fix each (l : list (pystr * node)) : list (list pystr * node) :=
         match l with
         | [] => []
         | (name, c) :: l' =>
             ([name], c) :: map (fun e => (name :: fst e, snd e)) (entries c) ++ each l'
         end) es
  end.

(** A name matches the format set when it ends with one of its suffixes. *)
Definition matches (formats : list pystr) (name : pystr) : bool :=
  existsb (fun ext => endswith ext name) formats.



Definition node_induction (P : node -> Prop)
  (Hf : forall p d, P (File p d))
  (Hd : forall es, Forall (fun e => P (snd e)) es -> P (Dir es)) :
  forall n, P n :=
  fix F (n : node) : P n :=
    match n with
    | File p d => Hf p d
    | Dir es =>
        Hd es ((fix G (l : list (pystr * node)) : Forall (fun e => P (snd e)) l :=
                  match l with
                  | [] => Forall_nil _
                  | (name, c) :: l' => Forall_cons (name, c) (F c) (G l')
                  end) es)
    end.

(** What the scan does in an existing directory, told by locations under
    the node of the directory: it lists sub-directories and comes across
    entries whose names match. *)
Inductive visit :=
| Listed (rel : list pystr)
| Matched (rel : list pystr).

Definition rel_of (v : visit) : list pystr :=
  match v with
  | Listed rel => rel
  | Matched rel => rel
  end.

(** The same visit seen from a directory above. *)
Definition under (base : list pystr) (v : visit) : visit :=
  match v with
  | Listed rel => Listed (base ++ rel)
  | Matched rel => Matched (base ++ rel)
  end.

Definition matched (vs : list visit) : list (list pystr) :=
  flat_map (fun v => match v with Matched rel => [rel] | Listed _ => [] end) vs.

(** The visits of [**/*ext] under a node, relative to it: the matches in
    the directory itself, then every sub-directory in turn, listed and
    visited. *)
Fixpoint rvisits (ext : pystr) (n : node) : list visit :=
  match n with
  | File _ _ => []
  | Dir es =>
      map Matched (glob_here ext es) ++
      (fix below (l : list (pystr * node)) : list visit :=
         match l with
         | [] => []
         | (name, child) :: l' =>
             match child with
             | Dir _ => Listed [name] :: map (under [name]) (rvisits ext child)
             | File _ _ => []
             end ++ below l'
         end) es
  end.

(** The locations under a node whose last name ends with [ext], in the
    order of [**/*ext]. *)
Fixpoint rmatches (ext : pystr) (n : node) : list (list pystr) :=
  match n with
  | File _ _ => []
  | Dir es =>
      glob_here ext es ++
      (fix below (l : list (pystr * node)) : list (list pystr) :=
         match l with
         | [] => []
         | (name, child) :: l' => map (cons name) (rmatches ext child) ++ below l'
         end) es
  end.

(** The visits of a scan, the locations of the paths it builds, and the
    locations whose names match among them. *)
Definition scan_visits (formats : list pystr) (recursive : bool)
  (es : list (pystr * node)) : list visit :=
  flat_map (fun ext => if recursive then rvisits ext (Dir es)
                       else map Matched (glob_here ext es))
           formats.

Definition scan_paths (formats : list pystr) (recursive : bool)
  (es : list (pystr * node)) : list (list pystr) :=
  map rel_of (scan_visits formats recursive es).

Definition scan_locations (formats : list pystr) (recursive : bool)
  (es : list (pystr * node)) : list (list pystr) :=
  flat_map (fun ext => if recursive then rmatches ext (Dir es) else glob_here ext es)
           formats.

(** The path names the scan builds for these locations under the directory
    [d] are all shorter than [PATH_MAX]. *)
Definition within_path_max (d : PurePath) (rels : list (list pystr)) : bool :=
  forallb (fun rel => (fs_length (str (joinpath d rel)) <? PATH_MAX)%N) rels.

(** What the scan does at an entry whose name matches, when the path it
    builds for it is short enough: a readable file is hashed and recorded
    under its relative path, a locked file stops the scan, a directory is
    passed over. *)
Definition tree_visit (hl : hashlib) (d : PurePath) (dn : node)
  (rel : list pystr) (s : record) : result record :=
  match node_at dn rel with
  | Some (File true data) => Ok (dict_set (join slash rel) (sha256_hex hl data) s)
  | Some (File false _) => Raise (os_error EACCES (str (joinpath d rel)))
  | _ => Ok s
  end.

(** What the scan does at a visit: a path of [PATH_MAX] bytes or more stops
    it, at a sub-directory before the directory is listed and at a matching
    entry before anything is known of it. *)
Definition tree_step (hl : hashlib) (d : PurePath) (dn : node)
  (v : visit) (s : record) : result record :=
  if (fs_length (str (joinpath d (rel_of v))) <? PATH_MAX)%N
  then match v with
       | Listed _ => Ok s
       | Matched rel => tree_visit hl d dn rel s
       end
  else Raise (os_error ENAMETOOLONG (str (joinpath d (rel_of v)))).

(** [A]-[Z] to [a]-[z], every other code point as it is. *)
Definition ascii_lower (c : N) : N :=
  if (65 <=? c)%N && (c <=? 90)%N then (c + 32)%N else c.

Definition caseless (s : pystr) : pystr := map ascii_lower s.

(** The location a path name resolves to, when its walk succeeds. *)
Definition location (fs : node) (name : pystr) : option (list pystr) :=
  match walk fs [] (components name ++ (if trailing_slash name then [dot] else [])) with
  | inr loc => Some loc
  | inl _ => None
  end.

(** The world after one more line on the output stream, or on the error
    stream. *)
Definition said (w : world) (line : pystr) : world :=
  World (objects w) (files w) (stdout w ++ [line]) (stderr w).

Definition complained (w : world) (line : pystr) : world :=
  World (objects w) (files w) (stdout w) (stderr w ++ [line]).

Definition not_in_checksum_file (model : pystr) : pystr :=
  py "Error: Model '" ++ model ++ py "' not found in checksum file".


(** The world a command leaves, whether it returns or raises. *)
Definition world_after {A} (o : outcome A) : world :=
  match o with
  | Returns _ w => w
  | Raises _ w => w
  end.

(** The invocations that name no output file. *)
Definition names_no_output (args : namespace) : bool :=
  match args with
  | Calculate _ output => negb (truthy output)
  | Scan _ _ _ output => negb (truthy output)
  | _ => true
  end.

Definition comma : N := 44%N.

Definition comma_free (s : pystr) : bool := forallb (fun c => negb (c =? comma)%N) s.

(** The suffixes [Path.glob] takes literally, which are the ones the model
    of [glob] is about: no star, question mark, opening bracket or
    separator in them. *)
Definition literal_suffix (ext : pystr) : bool :=
  forallb (fun c => negb (existsb (N.eqb c) [42; 63; 91; 47]%N)) ext.

Definition literal_formats (l : list pystr) : bool := forallb literal_suffix l.

(** A record of strings of the interpreter. *)
Definition valid_record (r : record) : bool :=
  forallb (fun kv => valid_str (fst kv) && valid_str (snd kv)) r.

(* ===================================================================== *)
(** ** Tactics *)
(* ===================================================================== *)



(** Lists with all concatenations associated to the right. *)
Ltac list_norm := repeat first [rewrite <- app_assoc | progress cbn [app]].

(* ===================================================================== *)
(** * Properties *)
(* ===================================================================== *)

Unset Implicit Arguments.

(** ** Strings *)

Arguments py : simpl never.
Arguments json_dumps : simpl never.

Lemma str_eqb_refl (s : pystr) : str_eqb s s = true.
Proof.
  induction s as [|c s IH]; simpl; [reflexivity|].
  now rewrite N.eqb_refl, IH.
Qed.

Lemma str_eqb_eq (a b : pystr) : str_eqb a b = true <-> a = b.
Proof.
  split; [|intros ->; apply str_eqb_refl].
  revert b; induction a as [|x a IH]; intros [|y b]; simpl; try discriminate; auto.
  rewrite andb_true_iff, N.eqb_eq. intros [-> H]. f_equal. auto.
Qed.


(** ** The hashing loop reads the whole file *)

Lemma update_assoc (h : hasher) (a b : bytes) :
  update (update h a) b = update h (a ++ b).
Proof. unfold update; simpl. now rewrite app_assoc. Qed.

Lemma read_loop_all (n : nat) (h : hasher) (f : bytes) :
  0 < n -> read_loop n h f = update h f.
Proof.
  intros Hn. funelim (read_loop n h f).
  - (* the chunk is empty: nothing is left *)
    destruct n as [|n]; [lia|]. destruct f as [|x f]; [|discriminate].
    unfold update. destruct h; simpl. now rewrite app_nil_r.
  - rewrite H by assumption. rewrite update_assoc.
    rewrite <- e. now rewrite firstn_skipn.
Qed.

Lemma read_chunks_all (h : hasher) (f : bytes) : read_chunks h f = update h f.
Proof. apply read_loop_all. unfold chunk_size. apply Nat.lt_0_succ || lia. Qed.

(** ** The hasher *)

Section HasherProperties.

Context (hl : hashlib).

(** [exists()], [is_file()] and [is_dir()] by the error of [stat]. *)
Lemma stat_answer_cases (fs : node) (p : PurePath) (answer : node -> bool) :
  stat_answer fs p answer =
  match os_stat fs (str p) with
  | inr n => Ok (answer n)
  | inl e => if answers_no e then Ok false else Raise (os_error e (str p))
  end.
Proof.
  unfold stat_answer. destruct (os_stat fs (str p)) as [e|n]; [|reflexivity].
  destruct e; reflexivity.
Qed.

(** [calculate_checksum] by what [stat] finds at the path. *)
Lemma calculate_checksum_cases (fs : node) (path : pathlike) (algorithm : pystr) :
  calculate_checksum hl fs path algorithm =
  match os_stat fs (str (Path_of path)) with
  | inl e =>
      if answers_no e
      then Raise (Exn FileNotFoundError (py "File not found: " ++ str (Path_of path)))
      else Raise (os_error e (str (Path_of path)))
  | inr n =>
      match algorithm_named algorithm with
      | None => Raise (Exn ValueError (py "Unsupported algorithm: " ++ algorithm))
      | Some a =>
          match n with
          | Dir _ => Raise (os_error EISDIR (str (Path_of path)))
          | File false _ => Raise (os_error EACCES (str (Path_of path)))
          | File true data => Ok (hexdigest hl (Hasher a data))
          end
      end
  end.
Proof.
  unfold calculate_checksum, path_exists. rewrite stat_answer_cases.
  unfold algorithm_named, os_open_read.
  destruct (os_stat fs (str (Path_of path))) as [e|n]; cbn [rbind negb].
  { destruct (answers_no e); reflexivity. }
  destruct (str_eqb (lower algorithm) (py "sha256"));
    [|destruct (str_eqb (lower algorithm) (py "md5"));
      [|destruct (str_eqb (lower algorithm) (py "sha1"))]];
    cbn [rbind]; try reflexivity;
    destruct n as [[|] data|es]; cbn [lift_os rbind]; try reflexivity;
    now rewrite read_chunks_all.
Qed.

Lemma path_exists_cases (fs : node) (p : PurePath) (b : bool) :
  path_exists fs p = Ok b <->
  match os_stat fs (str p) with
  | inl e => answers_no e = true /\ b = false
  | inr _ => b = true
  end.
Proof.
  unfold path_exists. rewrite stat_answer_cases.
  destruct (os_stat fs (str p)) as [e|n].
  - destruct (answers_no e); split; try discriminate.
    + intros [= <-]. auto.
    + intros [_ ->]. reflexivity.
    + intros [H _]. discriminate.
  - split; [intros [= <-]|intros ->]; reflexivity.
Qed.



(** C8: the digest is a function of the bytes. Two regular readable files
    with the same bytes, in the same tree or in two trees, at the same path
    or not, get the same result for every algorithm argument, and for the
    default algorithm that result is the digest of the bytes. *)
Theorem calculate_checksum_deterministic
  (fs1 fs2 : node) (p1 p2 : pathlike) (algorithm : pystr) (data : bytes) :
  os_stat fs1 (str (Path_of p1)) = inr (File true data) ->
  os_stat fs2 (str (Path_of p2)) = inr (File true data) ->
  calculate_checksum hl fs1 p1 algorithm = calculate_checksum hl fs2 p2 algorithm
  /\ calculate_checksum hl fs1 p1 default_algorithm = Ok (sha256_hex hl data).
Proof.
  intros H1 H2. rewrite !calculate_checksum_cases, H1, H2. split; reflexivity.
Qed.

End HasherProperties.


(** C10, counterexample: a path that does not exist and whose name has a
    component of more than 255 bytes. [exists()] does not answer: it raises
    the [OSError] of [stat], and so does the call, with a supported
    algorithm as with an unsupported one. *)
Lemma existence_check_raises_on_long_name :
  node_at demo_files [long_name] = None
  /\ calculate_checksum toy_hashlib demo_files (AsStr long_name) (py "crc32") =
     Raise (os_error ENAMETOOLONG long_name)
  /\ calculate_checksum toy_hashlib demo_files (AsStr long_name) (py "sha256") =
     Raise (os_error ENAMETOOLONG long_name)
  /\ isinstance (os_error ENAMETOOLONG long_name) FileNotFoundError = false.
Proof. repeat split; vm_compute; reflexivity. Qed.


Lemma calculate_checksum_deterministic_example :
  calculate_checksum toy_hashlib demo_files (AsStr (py "models/a.h5")) (py "MD5") =
  calculate_checksum toy_hashlib demo_files (AsStr (py "locked/a.h5")) (py "MD5")
  /\ calculate_checksum toy_hashlib demo_files (AsStr (py "models/a.h5")) default_algorithm =
     Ok (toy_hex 1 (ascii_text "fake model")).
Proof.
  apply (calculate_checksum_deterministic toy_hashlib demo_files demo_files
           (AsStr (py "models/a.h5")) (AsStr (py "locked/a.h5")) (py "MD5")
           (ascii_text "fake model")); reflexivity.
Defined.

(** ** The list of supported formats *)

Lemma store_length (h : heap) (a : address) (items : list pystr) :
  length (store h a items) = length h.
Proof.
  revert a; induction h as [|x h IH]; intros [|a]; simpl; auto.
Qed.

Lemma deref_store_other (h : heap) (a b : address) (items : list pystr) :
  a <> b -> deref (store h a items) b = deref h b.
Proof.
  unfold deref. revert a b; induction h as [|x h IH]; intros [|a] [|b] Hab;
    simpl; auto; congruence.
Qed.

Lemma deref_alloc_old (h : heap) (items : list pystr) (b : address) :
  b < length h -> deref (snd (alloc h items)) b = deref h b.
Proof. intros Hb. unfold deref, alloc; simpl. now rewrite app_nth1. Qed.

Lemma deref_alloc_new (h : heap) (items : list pystr) :
  deref (snd (alloc h items)) (fst (alloc h items)) = items.
Proof.
  unfold deref, alloc; simpl. rewrite app_nth2 by lia. now rewrite Nat.sub_diag.
Qed.

Lemma mutations_elsewhere (a b : address) (muts : list (list pystr -> list pystr))
  (h : heap) :
  a <> b ->
  let h' := fold_left (fun h f => mutate h a f) muts h in
  length h' = length h /\ deref h' b = deref h b.
Proof.
  intros Hab. revert h. induction muts as [|f muts IH]; intros h; simpl; [auto|].
  destruct (IH (mutate h a f)) as [Hl Hd]. split.
  - rewrite Hl. apply store_length.
  - rewrite Hd. now apply deref_store_other.
Qed.

(** C9: [get_supported_formats] returns a fresh copy. The list it returns is
    a new object holding the items of [SUPPORTED_FORMATS]; whatever is done
    to that object afterwards, [SUPPORTED_FORMATS] keeps its items, a scan
    with the default formats gives what it gave before, and a later call
    returns one more new object with the same items. *)
Theorem get_supported_formats_returns_copy
  (h : heap) (muts : list (list pystr -> list pystr)) :
  SUPPORTED_FORMATS < length h ->
  let a := fst (get_supported_formats h) in
  let h1 := snd (get_supported_formats h) in
  let h2 := fold_left (fun h f => mutate h a f) muts h1 in
  let b := fst (get_supported_formats h2) in
  let h3 := snd (get_supported_formats h2) in
  a <> SUPPORTED_FORMATS
  /\ deref h1 a = deref h SUPPORTED_FORMATS
  /\ deref h2 SUPPORTED_FORMATS = deref h SUPPORTED_FORMATS
  /\ (forall hl fs directory recursive,
        scan_directory hl h2 fs directory None recursive =
        scan_directory hl h fs directory None recursive)
  /\ b <> a /\ b <> SUPPORTED_FORMATS
  /\ deref h3 b = deref h SUPPORTED_FORMATS.
Proof.
  intros Himp a h1 h2 b h3.
  assert (Ha : a <> SUPPORTED_FORMATS) by (subst a; simpl; lia).
  assert (H1 : deref h1 SUPPORTED_FORMATS = deref h SUPPORTED_FORMATS)
    by (subst h1; unfold get_supported_formats; now apply deref_alloc_old).
  destruct (mutations_elsewhere a SUPPORTED_FORMATS muts h1 Ha) as [Hl Hd]. fold h2 in Hl, Hd.
  assert (H2 : deref h2 SUPPORTED_FORMATS = deref h SUPPORTED_FORMATS) by congruence.
  assert (Hlen1 : length h1 = S (length h))
    by (subst h1; simpl; rewrite length_app; simpl; lia).
  repeat split.
  - exact Ha.
  - subst a h1. unfold get_supported_formats. apply deref_alloc_new.
  - exact H2.
  - intros. unfold scan_directory. now rewrite H2.
  - subst b a. simpl. lia.
  - subst b. simpl. lia.
  - subst b h3. unfold get_supported_formats. rewrite deref_alloc_new. exact H2.
Qed.

Lemma get_supported_formats_copy_example :
  let a := fst (get_supported_formats imported) in
  let h1 := snd (get_supported_formats imported) in
  let h2 := fold_left (fun h f => mutate h a f)
                      [fun l => l ++ [py ".bin"]; fun _ => []] h1 in
  a <> SUPPORTED_FORMATS
  /\ deref h1 a = deref imported SUPPORTED_FORMATS
  /\ deref h2 SUPPORTED_FORMATS = deref imported SUPPORTED_FORMATS
  /\ (forall hl fs directory recursive,
        scan_directory hl h2 fs directory None recursive =
        scan_directory hl imported fs directory None recursive)
  /\ fst (get_supported_formats h2) <> a
  /\ fst (get_supported_formats h2) <> SUPPORTED_FORMATS
  /\ deref (snd (get_supported_formats h2)) (fst (get_supported_formats h2)) =
     deref imported SUPPORTED_FORMATS.
Proof.
  apply (get_supported_formats_returns_copy imported
           [fun l => l ++ [py ".bin"]; fun _ => []]).
  unfold SUPPORTED_FORMATS, imported. simpl. lia.
Defined.

(** ** The command line *)

Section CommandLineProperties.

Context (hl : hashlib) (codec : text_codec).






(** C7 (as amended): [verify] needs at least one of [--checksum] and
    [--checksum-file]. With neither (or only empty values) it is a usage
    error: exit code 1 and one line on the error stream, whatever the files
    are and leaving them alone. With [--checksum-file] given, a [--checksum]
    given as well is accepted and ignored. *)
Theorem verify_needs_a_checksum_source
  (model : pystr) (checksum checksum_file : option pystr) (w : world) :
  (truthy checksum = false -> truthy checksum_file = false ->
   main hl codec (Verify model checksum checksum_file) w =
   Returns 1 (World (objects w) (files w) (stdout w) (stderr w ++ [usage_error])))
  /\
  (truthy checksum_file = true ->
   main hl codec (Verify model checksum checksum_file) w =
   main hl codec (Verify model None checksum_file) w).
Proof.
  split.
  - intros Hc Hf. simpl. rewrite Hc, Hf. reflexivity.
  - intros Hf. simpl. rewrite Hf, !andb_false_r.
    unfold cmd_verify. rewrite Hf. reflexivity.
Qed.

End CommandLineProperties.



(** C7, counterexample: [verify] with both flags is accepted. The checksum
    file decides and the command succeeds although [--checksum] is wrong. *)
Lemma verify_accepts_both_flags :
  main toy_hashlib ascii_codec
       (Verify (py "models/a.h5") (Some (py "bogus")) (Some (py "sums.json")))
       demo_world =
  Returns 0 (World imported demo_files [check_mark] []).
Proof. reflexivity. Qed.

Lemma verify_needs_a_checksum_source_example :
  main toy_hashlib ascii_codec (Verify (py "models/a.h5") None (Some [])) demo_world =
    Returns 1 (World imported demo_files [] [usage_error])
  /\ main toy_hashlib ascii_codec
          (Verify (py "models/a.h5") (Some (py "bogus")) (Some (py "sums.json")))
          demo_world =
     main toy_hashlib ascii_codec
          (Verify (py "models/a.h5") None (Some (py "sums.json"))) demo_world.
Proof.
  split.
  - apply (proj1 (verify_needs_a_checksum_source toy_hashlib ascii_codec
                    (py "models/a.h5") None (Some []) demo_world)); reflexivity.
  - apply (proj2 (verify_needs_a_checksum_source toy_hashlib ascii_codec
                    (py "models/a.h5") (Some (py "bogus")) (Some (py "sums.json"))
                    demo_world)); reflexivity.
Defined.

(** ** The scanner's loops *)

Lemma for_each_app {A S} (body : A -> S -> result S) (l1 l2 : list A) (s : S) :
  for_each (l1 ++ l2) body s = rbind (for_each l1 body s) (for_each l2 body).
Proof.
  revert s; induction l1 as [|x l1 IH]; intros s; simpl; [reflexivity|].
  destruct (body x s); simpl; auto.
Qed.

Lemma for_each_flat_map {A B S} (f : A -> list B) (body : B -> S -> result S)
  (l : list A) (s : S) :
  for_each l (fun x s => for_each (f x) body s) s = for_each (flat_map f l) body s.
Proof.
  revert s; induction l as [|x l IH]; intros s; simpl; [reflexivity|].
  rewrite for_each_app. destruct (for_each (f x) body s); simpl; auto.
Qed.

Lemma for_each_ext {A S} (body body' : A -> S -> result S) (l : list A) (s : S) :
  (forall x s', body x s' = body' x s') -> for_each l body s = for_each l body' s.
Proof.
  intros H. revert s. induction l as [|x l IH]; intros s; [reflexivity|].
  cbn [for_each]. rewrite H. destruct (body' x s); auto.
Qed.

Lemma for_each_yielded_app {A S} (g1 g2 : list (result A)) (body : A -> S -> result S)
  (s : S) :
  for_each_yielded (g1 ++ g2) body s =
  match for_each_yielded g1 body s with
  | Ok s' => for_each_yielded g2 body s'
  | Raise e => Raise e
  end.
Proof.
  revert s. induction g1 as [|[x|e] g1 IH]; intros s; cbn; [reflexivity| |reflexivity].
  destruct (body x s); [apply IH|reflexivity].
Qed.



Lemma strip_prefix_app (pre rel : list pystr) : strip_prefix pre (pre ++ rel) = Some rel.
Proof.
  induction pre as [|x pre IH]; simpl; [reflexivity|]. now rewrite str_eqb_refl.
Qed.

Lemma relative_to_joinpath (d : PurePath) (rel : list pystr) :
  relative_to (joinpath d rel) d = Ok (MkPath [] rel).
Proof.
  unfold relative_to, joinpath; simpl. now rewrite str_eqb_refl, strip_prefix_app.
Qed.

Lemma joinpath_joinpath (d : PurePath) (base rel : list pystr) :
  joinpath (joinpath d base) rel = joinpath d (base ++ rel).
Proof. unfold joinpath. cbn [anchor parts]. now rewrite app_assoc. Qed.

Lemma joinpath_nil (d : PurePath) : joinpath d [] = d.
Proof. destruct d. unfold joinpath. cbn [anchor parts]. now rewrite app_nil_r. Qed.







(** C5, counterexample: a directory with a locked file that matches and a
    sub-directory whose path is too long to be listed. The glob of the
    second format yields the locked file, for which the hasher fails with
    [PermissionError]; but the scan has failed before, in the glob of the
    first format, with the [OSError] of listing the sub-directory: an error
    of no hasher, and the only path the globs yield is the locked file. *)
Lemma scan_directory_fails_before_hashing :
  candidates demo_deep (Path winding_path) true (formats_used imported None) =
    [ Raise (os_error ENAMETOOLONG (winding_path ++ py "/" ++ long_entry));
      Ok (joinpath (Path winding_path) [py "b.pt"]);
      Raise (os_error ENAMETOOLONG (winding_path ++ py "/" ++ long_entry));
      Raise (os_error ENAMETOOLONG (winding_path ++ py "/" ++ long_entry)) ]
  /\ In (Ok (joinpath (Path winding_path) [py "b.pt"]))
        (glob demo_deep (Path winding_path) true (py ".pt"))
  /\ is_file demo_deep (joinpath (Path winding_path) [py "b.pt"]) = Ok true
  /\ calculate_checksum toy_hashlib demo_deep
                        (AsPath (joinpath (Path winding_path) [py "b.pt"]))
                        default_algorithm =
     Raise (os_error EACCES (winding_path ++ py "/b.pt"))
  /\ scan_directory toy_hashlib imported demo_deep (AsStr winding_path) None true =
     Raise (os_error ENAMETOOLONG (winding_path ++ py "/" ++ long_entry))
  /\ os_error ENAMETOOLONG (winding_path ++ py "/" ++ long_entry) <>
     os_error EACCES (winding_path ++ py "/b.pt").
Proof.
  split; [vm_compute; reflexivity|].
  split; [vm_compute; tauto|].
  split; [vm_compute; reflexivity|].
  split; [vm_compute; reflexivity|].
  split; [vm_compute; reflexivity|discriminate].
Qed.


(** ** JSON strings: decoding what the encoder wrote *)

Local Open Scope N_scope.



Lemma hex_digit_ascii (d : N) : d < 16 -> hex_digit d < 128.
Proof. unfold hex_digit. destruct (d <? 10); lia. Qed.






Lemma escape_char_escaped (c : N) : c < 0x110000 -> escaped c (escape_char c).
Proof.
  intros Hc. unfold escape_char.
  destruct (c =? 92) eqn:E1; [apply N.eqb_eq in E1; subst; now apply esc_short|].
  destruct (c =? 34) eqn:E2; [apply N.eqb_eq in E2; subst; now apply esc_short|].
  destruct (c =? 8) eqn:E3; [apply N.eqb_eq in E3; subst; now apply esc_short|].
  destruct (c =? 12) eqn:E4; [apply N.eqb_eq in E4; subst; now apply esc_short|].
  destruct (c =? 10) eqn:E5; [apply N.eqb_eq in E5; subst; now apply esc_short|].
  destruct (c =? 13) eqn:E6; [apply N.eqb_eq in E6; subst; now apply esc_short|].
  destruct (c =? 9) eqn:E7; [apply N.eqb_eq in E7; subst; now apply esc_short|].
  apply N.eqb_neq in E1, E2.
  destruct ((32 <=? c) && (c <=? 126)) eqn:E8.
  - apply andb_true_iff in E8. destruct E8 as [Ha Hb].
    apply N.leb_le in Ha, Hb. now apply esc_plain.
  - destruct (c <? 65536) eqn:E9.
    + apply N.ltb_lt in E9. now apply esc_u.
    + apply N.ltb_ge in E9. now apply esc_pair.
Qed.

Lemma scanstring_quote (rest : pystr) : scanstring (34 :: rest) = Ok ([], rest).
Proof. reflexivity. Qed.







Lemma valid_str_cons (c : N) (s : pystr) :
  valid_str (c :: s) = true -> c < 0x110000 /\ valid_str s = true.
Proof.
  unfold valid_str; simpl. rewrite andb_true_iff, N.ltb_lt. tauto.
Qed.


Lemma escaped_ascii (c : N) (txt : pystr) :
  escaped c txt -> forallb (fun x => x <? 128) txt = true.
Proof.
  assert (Hd : forall n, forallb (fun x => x <? 128) (hex4 n) = true).
  { intros n. unfold hex4. simpl.
    rewrite !(proj2 (N.ltb_lt _ _))
      by (apply hex_digit_ascii; apply N.mod_lt; discriminate).
    reflexivity. }
  intros H. destruct H as [e He Hu Hlt|H1 H2 H3 H4|Hc|H1 H2].
  - simpl. apply N.ltb_lt in Hlt. now rewrite Hlt.
  - simpl. assert (Hx : (c <? 128) = true) by (apply N.ltb_lt; lia). now rewrite Hx.
  - change (92 :: 117 :: hex4 c) with ([92; 117] ++ hex4 c).
    rewrite forallb_app, Hd. reflexivity.
  - change (92 :: 117 :: hex4 (high_half c) ++ 92 :: 117 :: hex4 (low_half c))
      with ([92; 117] ++ hex4 (high_half c) ++ [92; 117] ++ hex4 (low_half c)).
    rewrite !forallb_app, !Hd. reflexivity.
Qed.

Lemma encode_basestring_ascii_is_ascii (s : pystr) :
  valid_str s = true ->
  forallb (fun x => x <? 128) (encode_basestring_ascii s) = true.
Proof.
  intros Hv. unfold encode_basestring_ascii. simpl.
  rewrite forallb_app. simpl. rewrite andb_true_r.
  induction s as [|c s IH]; [reflexivity|].
  apply valid_str_cons in Hv. destruct Hv as [Hc Hv].
  change (flat_map escape_char (c :: s))
    with (escape_char c ++ flat_map escape_char s).
  rewrite forallb_app, IH by assumption.
  now rewrite (escaped_ascii c _ (escape_char_escaped c Hc)).
Qed.

(** ** The decoder never runs out of fuel *)

Ltac other_error :=
  cbn [consumes]; unfold json_error, digits_error, out_of_fuel; discriminate.

Lemma skip_ws_length (s : pystr) : (length (skip_ws s) <= length s)%nat.
Proof.
  induction s as [|c s IH]; simpl; [lia|]. destruct (is_ws c); simpl; lia.
Qed.

Lemma consumes_push (n m : nat) (c : N) (o : result (pystr * pystr)) :
  consumes n o -> (n <= m)%nat -> consumes m (push c o).
Proof.
  destruct o as [[x r]|e]; simpl; [lia|auto].
Qed.

Lemma scanstring_consumes (n : nat) :
  forall s, (length s <= n)%nat -> s <> [] -> consumes (length s) (scanstring s).
Proof.
  induction n as [|n IH]; intros s Hn Hs.
  - destruct s; [congruence|simpl in Hn; lia].
  - assert (Hrec : forall rest c, (length rest < length s)%nat ->
                     consumes (length s) (push c (scanstring rest))).
    { intros rest c Hlt. destruct rest as [|d rest]; [other_error|].
      apply consumes_push with (n := length (d :: rest)); [|lia].
      apply IH; [lia|discriminate]. }
    destruct s as [|c rest]; [congruence|]. cbn [scanstring].
    destruct (c =? 34); [simpl; lia|].
    destruct (c =? 92).
    + destruct rest as [|e rest1]; [other_error|].
      destruct (e =? 117).
      * destruct rest1 as [|h1 [|h2 [|h3 [|h4 rest2]]]]; try other_error.
        destruct (decode_hex4 h1 h2 h3 h4) as [uni|]; [|other_error].
        assert (H2 : consumes (length (c :: e :: h1 :: h2 :: h3 :: h4 :: rest2))
                              (push uni (scanstring rest2)))
          by (apply Hrec; simpl; lia).
        destruct (is_high_surrogate uni); [|exact H2].
        destruct rest2 as [|b [|u [|l1 [|l2 [|l3 [|l4 rest3]]]]]]; try exact H2.
        destruct ((b =? 92) && (u =? 117)); [|exact H2].
        destruct (decode_hex4 l1 l2 l3 l4) as [uni2|]; [|other_error].
        destruct (is_low_surrogate uni2); [|exact H2].
        apply Hrec. simpl. lia.
      * destruct (unescape e); [|other_error]. apply Hrec. simpl. lia.
    + destruct (c <? 32); [other_error|]. apply Hrec. simpl. lia.
Qed.

Lemma startswith_length (p s : pystr) :
  startswith p s = true -> (length p <= length s)%nat.
Proof.
  revert s. induction p as [|x p IH]; intros [|y s]; simpl; try lia; try discriminate.
  rewrite andb_true_iff. intros [_ H]. apply IH in H. lia.
Qed.

Lemma py_length (w : string) : length (py w) = String.length w.
Proof.
  unfold py. rewrite length_map. induction w as [|a w IH]; simpl; congruence.
Qed.

Lemma literal_consumes (word : string) (v : pyval) (s : pystr) :
  (0 < String.length word)%nat ->
  match literal word v s with
  | Some (_, r) => (length r < length s)%nat
  | None => True
  end.
Proof.
  intros Hw. unfold literal. destruct (startswith (py word) s) eqn:E; [|exact I].
  apply startswith_length in E. rewrite py_length in E.
  rewrite length_skipn. lia.
Qed.

Lemma span_digits_length (s : pystr) :
  (length (snd (span_digits s)) <= length s)%nat.
Proof.
  induction s as [|c s IH]; simpl; [lia|].
  destruct (is_digit c); simpl; [|lia].
  destruct (span_digits s) as [d r]. simpl in *. lia.
Qed.

Lemma number_frac_length (lit s : pystr) :
  (length (snd (number_frac lit s)) <= length s)%nat.
Proof.
  unfold number_frac. destruct s as [|c s1]; simpl; [lia|].
  destruct (c =? 46); simpl; [|lia].
  pose proof (span_digits_length s1) as H.
  destruct (span_digits s1) as [[|x d] r]; simpl in *; lia.
Qed.

Lemma number_exp_length (lit s : pystr) :
  (length (snd (number_exp lit s)) <= length s)%nat.
Proof.
  unfold number_exp. destruct s as [|c s1]; [simpl; lia|].
  destruct ((c =? 101) || (c =? 69)); [|simpl; lia].
  assert (H : forall sign s2, (length s2 <= length s1)%nat ->
            (length (snd (match span_digits s2 with
                          | ([], _) => (lit, c :: s1)
                          | (d, r) => (lit ++ c :: sign ++ d, r)
                          end)) <= length (c :: s1))%nat).
  { intros sign s2 H2. pose proof (span_digits_length s2) as H.
    destruct (span_digits s2) as [[|x d] r]; simpl in *; lia. }
  destruct s1 as [|g s2]; [apply H; simpl; lia|].
  destruct ((g =? 43) || (g =? 45)); apply H; simpl; lia.
Qed.

Lemma match_number_consumes (s : pystr) :
  match match_number s with
  | Some (_, r) => (length r < length s)%nat
  | None => True
  end.
Proof.
  unfold match_number.
  assert (H : forall sign s1, (length s1 <= length s)%nat ->
            match
              match s1 with
              | [] => None
              | c :: r =>
                  if c =? 48
                  then let '(l1, r1) := number_frac (sign ++ [c]) r in
                       Some (number_exp l1 r1)
                  else if is_digit c
                       then let '(d, r0) := span_digits r in
                            let '(l1, r1) := number_frac (sign ++ c :: d) r0 in
                            Some (number_exp l1 r1)
                       else None
              end
            with
            | Some (_, r) => (length r < length s)%nat
            | None => True
            end).
  { intros sign s1 H1. destruct s1 as [|c r]; [exact I|]. simpl in H1.
    destruct (c =? 48).
    - pose proof (number_frac_length (sign ++ [c]) r) as Hf.
      destruct (number_frac (sign ++ [c]) r) as [l1 r1]. simpl in Hf.
      pose proof (number_exp_length l1 r1) as He.
      destruct (number_exp l1 r1) as [l2 r2]. simpl in He. lia.
    - destruct (is_digit c); [|exact I].
      pose proof (span_digits_length r) as Hd.
      destruct (span_digits r) as [d r0]. simpl in Hd.
      pose proof (number_frac_length (sign ++ c :: d) r0) as Hf.
      destruct (number_frac (sign ++ c :: d) r0) as [l1 r1]. simpl in Hf.
      pose proof (number_exp_length l1 r1) as He.
      destruct (number_exp l1 r1) as [l2 r2]. simpl in He. lia. }
  destruct s as [|c r]; [exact I|].
  destruct (c =? 45).
  - apply (H [c] r). simpl. lia.
  - apply (H [] (c :: r)). lia.
Qed.

Lemma convert_number_consumes (n : nat) (vr : pyval * pystr) :
  (length (snd vr) < n)%nat -> consumes n (convert_number vr).
Proof.
  intros H. unfold convert_number. destruct vr as [v r]. cbn [fst].
  destruct v; try exact H. destruct (int_too_long _); [other_error|exact H].
Qed.

Lemma scalar_consumes (s : pystr) :
  consumes (length s)
    match first_some
            [literal "null" PNone s; literal "true" (PBool true) s;
             literal "false" (PBool false) s;
             option_map (fun lr => (PNum (fst lr), snd lr)) (match_number s);
             literal "NaN" (PNum (py "NaN")) s;
             literal "Infinity" (PNum (py "Infinity")) s;
             literal "-Infinity" (PNum (py "-Infinity")) s] with
    | Some vr => convert_number vr
    | None => Raise (json_error "Expecting value")
    end.
Proof.
  cbn [first_some fold_right].
  pose proof (literal_consumes "null" PNone s) as H1.
  destruct (literal "null" PNone s) as [[v r]|];
    [apply convert_number_consumes, H1; simpl; lia|].
  pose proof (literal_consumes "true" (PBool true) s) as H2.
  destruct (literal "true" (PBool true) s) as [[v r]|];
    [apply convert_number_consumes, H2; simpl; lia|].
  pose proof (literal_consumes "false" (PBool false) s) as H3.
  destruct (literal "false" (PBool false) s) as [[v r]|];
    [apply convert_number_consumes, H3; simpl; lia|].
  pose proof (match_number_consumes s) as H4.
  destruct (match_number s) as [[l r]|]; [apply convert_number_consumes, H4|].
  cbn [option_map].
  pose proof (literal_consumes "NaN" (PNum (py "NaN")) s) as H5.
  destruct (literal "NaN" (PNum (py "NaN")) s) as [[v r]|];
    [apply convert_number_consumes, H5; simpl; lia|].
  pose proof (literal_consumes "Infinity" (PNum (py "Infinity")) s) as H6.
  destruct (literal "Infinity" (PNum (py "Infinity")) s) as [[v r]|];
    [apply convert_number_consumes, H6; simpl; lia|].
  pose proof (literal_consumes "-Infinity" (PNum (py "-Infinity")) s) as H7.
  destruct (literal "-Infinity" (PNum (py "-Infinity")) s) as [[v r]|];
    [apply convert_number_consumes, H7; simpl; lia|].
  other_error.
Qed.

Lemma scanstring_progress (s : pystr) : consumes (length s) (scanstring s).
Proof.
  destruct s as [|c rest]; [other_error|].
  apply scanstring_consumes with (n := length (c :: rest)); [lia|discriminate].
Qed.

Lemma consumes_le {A} (n m : nat) (o : result (A * pystr)) :
  consumes n o -> (n <= m)%nat -> consumes m o.
Proof.
  destruct o as [[x r]|e]; simpl; [lia|auto].
Qed.

Lemma too_deep_other (what : string) : too_deep what <> out_of_fuel.
Proof.
  unfold too_deep, out_of_fuel. intros H. injection H as H. discriminate H.
Qed.

(** Each of the five functions of the decoder, given three levels of fuel for
    every character it is handed, never fails for want of fuel and hands
    back less text than it took. *)
Lemma decoder_consumes (fuel : nat) :
  (forall depth s, (3 * length s + 1 <= fuel)%nat ->
             consumes (length s) (scan_once fuel depth s)) /\
  (forall depth s, (3 * length s + 3 <= fuel)%nat ->
             consumes (length s) (json_object fuel depth s)) /\
  (forall depth acc s, (3 * length s + 2 <= fuel)%nat ->
                 consumes (length s) (json_members fuel depth acc s)) /\
  (forall depth s, (3 * length s + 3 <= fuel)%nat ->
             consumes (length s) (json_array fuel depth s)) /\
  (forall depth acc s, (3 * length s + 2 <= fuel)%nat ->
                 consumes (length s) (json_elements fuel depth acc s)).
Proof.
  induction fuel as [|fuel (IHs & IHo & IHm & IHa & IHe)].
  { repeat split; intros; lia. }
  split; [|split; [|split; [|split]]].
  - intros depth [|c rest] H; [other_error|]. cbn [scan_once].
    destruct (c =? 34).
    { pose proof (scanstring_progress rest) as Hs.
      destruct (scanstring rest) as [[x r]|e]; simpl in *; [lia|auto]. }
    destruct (c =? 123).
    { destruct depth as [|depth]; [apply too_deep_other|].
      apply consumes_le with (n := length rest); [apply IHo|]; simpl in *; lia. }
    destruct (c =? 91).
    { destruct depth as [|depth]; [apply too_deep_other|].
      apply consumes_le with (n := length rest); [apply IHa|]; simpl in *; lia. }
    apply scalar_consumes.
  - intros depth s H. cbn [json_object].
    pose proof (skip_ws_length s) as Hw.
    destruct (skip_ws s) as [|c r]; [other_error|].
    destruct (c =? 125); [simpl in *; lia|].
    destruct (c =? 34); [|other_error].
    apply consumes_le with (n := length r); [apply IHm|]; simpl in *; lia.
  - intros depth acc s H. cbn [json_members].
    pose proof (scanstring_progress s) as Hk.
    destruct (scanstring s) as [[key r]|e]; [|exact Hk]. simpl in Hk.
    pose proof (skip_ws_length r) as Hw.
    destruct (skip_ws r) as [|c r1]; [other_error|]. simpl in Hw.
    destruct (c =? 58); [|other_error].
    pose proof (skip_ws_length r1) as Hw1.
    assert (Hv : consumes (length (skip_ws r1)) (scan_once fuel depth (skip_ws r1)))
      by (apply IHs; lia).
    destruct (scan_once fuel depth (skip_ws r1)) as [[v r2]|e]; [|exact Hv].
    simpl in Hv. cbv zeta.
    pose proof (skip_ws_length r2) as Hw2.
    destruct (skip_ws r2) as [|c2 r3]; [other_error|]. simpl in Hw2.
    destruct (c2 =? 125); [simpl; lia|].
    destruct (c2 =? 44); [|other_error].
    pose proof (skip_ws_length r3) as Hw3.
    destruct (skip_ws r3) as [|q r4]; [other_error|]. simpl in Hw3.
    destruct (q =? 34); [|other_error].
    apply consumes_le with (n := length r4); [apply IHm|]; lia.
  - intros depth s H. cbn [json_array].
    pose proof (skip_ws_length s) as Hw.
    destruct (skip_ws s) as [|c r] eqn:E.
    { apply consumes_le with (n := length (@nil N)); [apply IHe|]; simpl; lia. }
    destruct (c =? 93); [simpl in *; lia|].
    apply consumes_le with (n := length (c :: r)); [apply IHe|]; lia.
  - intros depth acc s H. cbn [json_elements].
    assert (Hv : consumes (length s) (scan_once fuel depth s)) by (apply IHs; lia).
    destruct (scan_once fuel depth s) as [[v r]|e]; [|exact Hv]. simpl in Hv.
    pose proof (skip_ws_length r) as Hw.
    destruct (skip_ws r) as [|c r1]; [other_error|]. simpl in Hw.
    destruct (c =? 93); [simpl; lia|].
    destruct (c =? 44); [|other_error].
    pose proof (skip_ws_length r1) as Hw1.
    apply consumes_le with (n := length (skip_ws r1)); [apply IHe|]; lia.
Qed.

(** The fuel [json_loads] gives is always enough: whatever the text and the
    room of the stack, the model returns a value or fails with an error of
    the decoder, and the error of an exhausted fuel never shows. *)
Lemma json_loads_total (room : nat) (s : pystr) :
  match json_loads room s with
  | Ok _ => True
  | Raise e => e <> out_of_fuel
  end.
Proof.
  unfold json_loads. cbv zeta.
  destruct (decoder_consumes (S (3 * length (skip_ws s)))) as [Hs _].
  specialize (Hs (S room) (skip_ws s)).
  assert (Hv : consumes (length (skip_ws s))
                 (scan_once (S (3 * length (skip_ws s))) (S room) (skip_ws s)))
    by (apply Hs; lia).
  destruct (scan_once (S (3 * length (skip_ws s))) (S room) (skip_ws s)) as [[v r]|e];
    [|exact Hv].
  destruct (skip_ws r); [exact I|unfold json_error, out_of_fuel; discriminate].
Qed.

(** ** JSON documents: loading what was dumped *)

Lemma concat_sep_members (kv : pystr * pystr) (items : record) :
  concat_sep [44; 10; 32; 32] (map dump_item (kv :: items)) ++ [10; 125] =
  34 :: members_text kv items.
Proof.
  revert kv. induction items as [|kv' items IH]; intros kv.
  - simpl. unfold dump_item, encode_basestring_ascii. list_norm. reflexivity.
  - change (map dump_item (kv :: kv' :: items))
      with (dump_item kv :: map dump_item (kv' :: items)).
    change (concat_sep [44; 10; 32; 32] (dump_item kv :: map dump_item (kv' :: items)))
      with (dump_item kv ++ [44; 10; 32; 32] ++
            concat_sep [44; 10; 32; 32] (map dump_item (kv' :: items))).
    rewrite <- !app_assoc, IH.
    unfold dump_item at 1. cbn [members_text].
    unfold encode_basestring_ascii. list_norm. reflexivity.
Qed.

Lemma json_dumps_members (kv : pystr * pystr) (items : record) :
  json_dumps (kv :: items) = 123 :: 10 :: 32 :: 32 :: 34 :: members_text kv items.
Proof.
  unfold json_dumps. rewrite <- concat_sep_members. reflexivity.
Qed.













(** ** Text files: the dumped text is ASCII *)

Lemma members_text_ascii (items : record) :
  forall kv, forallb (fun x => valid_str (fst x) && valid_str (snd x)) (kv :: items) = true ->
  all_ascii (members_text kv items) = true.
Proof.
  unfold all_ascii.
  induction items as [|kv' items IH]; intros kv Hv;
    cbn [forallb] in Hv; apply andb_true_iff in Hv; destruct Hv as [Hkv Hv];
    apply andb_true_iff in Hkv; destruct Hkv as [Hk Hw];
    pose proof (encode_basestring_ascii_is_ascii (fst kv) Hk) as Ek;
    pose proof (encode_basestring_ascii_is_ascii (snd kv) Hw) as Ew;
    unfold encode_basestring_ascii in Ek; cbn [forallb] in Ek;
    rewrite forallb_app in Ek; apply andb_true_iff in Ek; destruct Ek as [_ Ek];
    apply andb_true_iff in Ek; destruct Ek as [Ek _];
    cbn [members_text]; rewrite forallb_app, Ek; cbn [forallb andb];
    change (58 <? 128) with true; change (32 <? 128) with true;
    change (34 <? 128) with true; cbn [andb]; rewrite forallb_app, Ew.
  - reflexivity.
  - cbn [forallb andb]. rewrite (IH kv' Hv). reflexivity.
Qed.



Lemma ascii_bytes_decode (s : pystr) :
  all_ascii s = true ->
  forallb (fun x => Byte.to_N x <? 128) (ascii_bytes s) = true
  /\ map Byte.to_N (ascii_bytes s) = s.
Proof.
  unfold all_ascii, ascii_bytes. induction s as [|c s IH]; intros H; [now split|].
  cbn [forallb] in H. apply andb_true_iff in H. destruct H as [Hc Hs].
  destruct (IH Hs) as [IH1 IH2]. cbn [map forallb].
  destruct (Byte.of_N c) as [b|] eqn:E.
  - apply Byte.to_of_N in E. rewrite E, Hc, IH1, IH2. now split.
  - apply Byte.of_N_None_iff in E. apply N.ltb_lt in Hc. lia.
Qed.

Lemma text_round_trip (codec : text_codec) (s : pystr) :
  all_ascii s = true ->
  text_encode codec s = Some (ascii_bytes s)
  /\ text_decode codec (ascii_bytes s) = Some s.
Proof.
  intros H. unfold text_encode, text_decode. fold (all_ascii s). rewrite H.
  destruct (ascii_bytes_decode s H) as [H1 H2]. now rewrite H1, H2.
Qed.

Local Close Scope N_scope.

(** ** The file system: reading back what was written *)

Lemma dict_get_set {V} (d c : pystr) (m : V) (es : list (pystr * V)) :
  dict_get d (dict_set c m es) = if str_eqb d c then Some m else dict_get d es.
Proof.
  induction es as [|[c' m'] es IH]; simpl; [reflexivity|].
  destruct (str_eqb c c') eqn:Ecc; simpl.
  - apply str_eqb_eq in Ecc. subst c'. now destruct (str_eqb d c).
  - rewrite IH. destruct (str_eqb d c') eqn:Edc'; [|reflexivity].
    apply str_eqb_eq in Edc'. subst c'.
    destruct (str_eqb d c) eqn:Edc; [|reflexivity].
    apply str_eqb_eq in Edc. subst. rewrite str_eqb_refl in Ecc. discriminate.
Qed.

Lemma node_at_app (root : node) (l q : list pystr) :
  node_at root (l ++ q) =
  match node_at root l with
  | Some n => node_at n q
  | None => None
  end.
Proof.
  revert root. induction l as [|x l IH]; intros root; simpl; [reflexivity|].
  destruct root as [p data|es]; [reflexivity|].
  destruct (dict_get x es); [apply IH|reflexivity].
Qed.

Lemma kind_at_parent (root : node) (l : list pystr) (c : pystr) :
  kind_at root (l ++ [c]) <> None -> kind_at root l = Some true.
Proof.
  unfold kind_at. rewrite node_at_app.
  destruct (node_at root l) as [[p data|es]|]; simpl; congruence.
Qed.

Lemma kind_at_removelast (root : node) (loc : list pystr) :
  kind_at root loc = Some true -> kind_at root (removelast loc) = Some true.
Proof.
  intros H. destruct loc as [|x l] using rev_ind; [exact H|].
  rewrite removelast_last. apply (kind_at_parent root l x). congruence.
Qed.

Lemma node_at_put_same (loc : list pystr) :
  forall root f,
    loc = [] \/ kind_at root (removelast loc) = Some true ->
    node_at (put root loc f) loc = Some f.
Proof.
  induction loc as [|c loc IH]; intros root f H; [reflexivity|].
  destruct H as [H|H]; [discriminate|].
  destruct loc as [|c2 loc].
  - simpl in H. unfold kind_at in H. simpl in H.
    destruct root as [p data|es]; [discriminate|].
    simpl. now rewrite dict_get_set, str_eqb_refl.
  - change (removelast (c :: c2 :: loc)) with (c :: removelast (c2 :: loc)) in H.
    unfold kind_at in H. cbn [node_at] in H.
    destruct root as [p data|es]; [discriminate|].
    cbn [put node_at].
    destruct (dict_get c es) as [m|] eqn:Em; [|discriminate].
    cbn [node_at]. rewrite dict_get_set, str_eqb_refl.
    apply IH. right. exact H.
Qed.

Lemma kind_at_put_other (loc : list pystr) :
  forall root p data q,
    q <> loc -> kind_at root loc <> Some true ->
    kind_at (put root loc (File p data)) q = kind_at root q.
Proof.
  unfold kind_at.
  induction loc as [|c loc IH]; intros root p data q Hq Hk.
  - simpl in *. destruct root as [p' data'|es]; [|congruence].
    destruct q as [|x q]; [congruence|reflexivity].
  - destruct root as [p' data'|es]; [reflexivity|].
    cbn [node_at] in Hk. destruct loc as [|c2 loc].
    + cbn [put]. destruct q as [|x q]; [reflexivity|].
      cbn [node_at]. rewrite dict_get_set.
      destruct (str_eqb x c) eqn:E; [|reflexivity].
      apply str_eqb_eq in E. subst x.
      destruct q as [|y q]; [congruence|]. cbn [node_at].
      destruct (dict_get c es) as [[p2 d2|es2]|]; try reflexivity.
      simpl in Hk. congruence.
    + cbn [put]. destruct (dict_get c es) as [m|] eqn:Em; [|reflexivity].
      destruct q as [|x q]; [reflexivity|].
      cbn [node_at]. rewrite dict_get_set.
      destruct (str_eqb x c) eqn:E; [|reflexivity].
      apply str_eqb_eq in E. subst x. rewrite Em.
      apply IH; [congruence|exact Hk].
Qed.

Lemma walk_put (root : node) (loc : list pystr) (p : bool) (data : bytes)
  (comps : list pystr) :
  kind_at root loc <> Some true ->
  forall acc r, walk root acc comps = inr r ->
                walk (put root loc (File p data)) acc comps = inr r.
Proof.
  intros Hk. induction comps as [|c comps IH]; intros acc r H; [exact H|].
  cbn [walk] in *.
  destruct (node_at root acc) as [[p' d'|es]|] eqn:En; try discriminate.
  assert (Hacc : acc <> loc).
  { intros ->. apply Hk. unfold kind_at. now rewrite En. }
  pose proof (kind_at_put_other loc root p data acc Hacc Hk) as Hkind.
  unfold kind_at in Hkind. rewrite En in Hkind.
  destruct (node_at (put root loc (File p data)) acc) as [[p2 d2|es2]|];
    try discriminate.
  destruct (str_eqb c dot); [now apply IH|].
  destruct (str_eqb c dotdot); [now apply IH|].
  destruct (name_too_long c); [discriminate|now apply IH].
Qed.

(** Where a walk ends: at its start, in a directory, or at an entry (present
    or not) of a directory. *)
Lemma walk_parent (root : node) (comps : list pystr) :
  forall acc loc,
    walk root acc comps = inr loc ->
    acc = [] \/ kind_at root acc = Some true \/
      kind_at root (removelast acc) = Some true ->
    loc = [] \/ kind_at root loc = Some true \/
      kind_at root (removelast loc) = Some true.
Proof.
  induction comps as [|c comps IH]; intros acc loc H Hacc.
  - simpl in H. injection H as <-. exact Hacc.
  - cbn [walk] in H.
    destruct (node_at root acc) as [[p d|es]|] eqn:En; try discriminate.
    assert (Hk : kind_at root acc = Some true) by (unfold kind_at; now rewrite En).
    destruct (str_eqb c dot); [apply (IH acc); auto|].
    destruct (str_eqb c dotdot).
    + apply (IH (removelast acc)); [exact H|].
      right. left. now apply kind_at_removelast.
    + destruct (name_too_long c); [discriminate|].
      apply (IH (acc ++ [c])); [exact H|].
      right. right. now rewrite removelast_last.
Qed.



(** What opening for writing did when it succeeded. *)
Lemma os_open_write_walk (root : node) (name : pystr) (loc : list pystr)
  (opened : node) :
  os_open_write root name = inr (loc, opened) ->
  name_error name = None /\
  name <> [] /\ trailing_slash name = false /\
  walk root [] (components name) = inr loc /\
  kind_at root loc <> Some true /\
  opened = put root loc (File true []).
Proof.
  unfold os_open_write. destruct (name_error name); [discriminate|].
  destruct name as [|ch name]; [discriminate|].
  remember (ch :: name) as nm.
  destruct (walk root [] (components nm)) as [e|loc'] eqn:Ew; [discriminate|].
  destruct (trailing_slash nm); [discriminate|].
  unfold kind_at.
  destruct (node_at root loc') as [[[|] d|es]|] eqn:En; try discriminate;
    intros [= <- <-]; rewrite En; repeat split; congruence.
Qed.


(** ** The checksum store *)




(** ** Path names and their components *)

Local Open Scope N_scope.

Lemma split_on_nonempty (sep : N) (s : pystr) : split_on sep s <> [].
Proof.
  destruct s as [|c s]; simpl; [discriminate|].
  destruct (c =? sep); [discriminate|]. destruct (split_on sep s); discriminate.
Qed.

Lemma split_on_slash_free (w : pystr) :
  slash_free w = true -> split_on slash w = [w].
Proof.
  induction w as [|c w IH]; simpl; [reflexivity|].
  rewrite andb_true_iff, negb_true_iff. intros [Hc Hw].
  rewrite Hc, IH by assumption. reflexivity.
Qed.

Lemma split_on_app (w s : pystr) :
  slash_free w = true ->
  split_on slash (w ++ slash :: s) = w :: split_on slash s.
Proof.
  induction w as [|c w IH]; simpl.
  - intros _. reflexivity.
  - rewrite andb_true_iff, negb_true_iff. intros [Hc Hw].
    rewrite Hc, IH by assumption. reflexivity.
Qed.

Lemma split_on_join (ps : list pystr) :
  ps <> [] -> forallb slash_free ps = true ->
  split_on slash (join slash ps) = ps.
Proof.
  induction ps as [|w ps IH]; intros Hne Hsf; [congruence|].
  simpl in Hsf. apply andb_true_iff in Hsf. destruct Hsf as [Hw Hps].
  destruct ps as [|w2 ps].
  - simpl. now apply split_on_slash_free.
  - change (join slash (w :: w2 :: ps)) with (w ++ slash :: join slash (w2 :: ps)).
    rewrite split_on_app by assumption. f_equal. apply IH; [discriminate|assumption].
Qed.

Lemma part_ok_slash_free (ps : list pystr) :
  forallb part_ok ps = true -> forallb slash_free ps = true.
Proof.
  rewrite !forallb_forall. intros H x Hx. specialize (H x Hx).
  unfold part_ok in H. apply andb_true_iff in H. tauto.
Qed.

Lemma filter_nonempty_parts (ps : list pystr) :
  forallb part_ok ps = true -> filter nonempty ps = ps.
Proof.
  induction ps as [|w ps IH]; simpl; [reflexivity|].
  rewrite andb_true_iff. intros [Hw Hps]. unfold part_ok in Hw.
  apply andb_true_iff in Hw. destruct Hw as [Hw _]. rewrite Hw, IH by assumption.
  reflexivity.
Qed.

Lemma components_join (ps : list pystr) :
  ps <> [] -> forallb part_ok ps = true -> components (join slash ps) = ps.
Proof.
  intros Hne Hok. unfold components.
  rewrite split_on_join; [|assumption|now apply part_ok_slash_free].
  now apply filter_nonempty_parts.
Qed.

Lemma components_slash (s : pystr) : components (slash :: s) = components s.
Proof. unfold components. simpl. reflexivity. Qed.

Lemma components_anchor (a s : pystr) :
  a = [] \/ a = [slash] \/ a = [slash; slash] ->
  components (a ++ s) = components s.
Proof.
  intros [-> | [-> | ->]]; simpl app; now rewrite ?components_slash.
Qed.

Lemma trailing_slash_app (t w : pystr) :
  w <> [] -> trailing_slash (t ++ w) = trailing_slash w.
Proof.
  intros Hw. unfold trailing_slash. rewrite rev_app_distr.
  destruct (rev w) as [|c r] eqn:E; [|reflexivity].
  apply (f_equal (@rev N)) in E. rewrite rev_involutive in E. simpl in E. congruence.
Qed.

Lemma trailing_slash_part (w : pystr) : part_ok w = true -> trailing_slash w = false.
Proof.
  unfold part_ok, trailing_slash, slash_free. rewrite andb_true_iff. intros [Hne Hsf].
  destruct (rev w) as [|c r] eqn:E; [reflexivity|].
  rewrite forallb_forall in Hsf.
  assert (Hin : In c w) by (apply in_rev; rewrite E; now left).
  specialize (Hsf c Hin). now apply negb_true_iff in Hsf.
Qed.

Lemma join_ends_with_last (ps : list pystr) (w : pystr) :
  exists t, join slash (ps ++ [w]) = t ++ w.
Proof.
  induction ps as [|x ps [t IH]].
  - now exists [].
  - destruct ps as [|y ps].
    + exists (x ++ [slash]). simpl. now rewrite <- app_assoc.
    + exists (x ++ slash :: t).
      change (join slash ((x :: y :: ps) ++ [w]))
        with (x ++ slash :: join slash ((y :: ps) ++ [w])).
      rewrite IH. now rewrite <- app_assoc.
Qed.

Lemma join_nonempty (ps : list pystr) :
  ps <> [] -> forallb part_ok ps = true -> join slash ps <> [].
Proof.
  intros Hne Hok E. pose proof (components_join ps Hne Hok) as H.
  rewrite E in H. unfold components in H. simpl in H. congruence.
Qed.

Lemma trailing_slash_join (a : pystr) (ps : list pystr) :
  ps <> [] -> forallb part_ok ps = true ->
  trailing_slash (a ++ join slash ps) = false.
Proof.
  intros Hne Hok.
  destruct ps as [|x l] using rev_ind; [congruence|].
  rewrite forallb_app in Hok. apply andb_true_iff in Hok. destruct Hok as [_ Hx].
  simpl in Hx. rewrite andb_true_r in Hx.
  destruct (join_ends_with_last l x) as [t ->].
  assert (Hx' : x <> []) by (intros ->; discriminate).
  rewrite app_assoc, trailing_slash_app by assumption.
  now apply trailing_slash_part.
Qed.

Lemma plain_name_not_special (c : pystr) :
  plain_name c = true ->
  part_ok c = true /\ str_eqb c dot = false /\ str_eqb c dotdot = false.
Proof.
  unfold plain_name. rewrite !andb_true_iff, !negb_true_iff. tauto.
Qed.

Lemma plain_name_fs_name (c : pystr) :
  plain_name c = true -> forallb fs_char c = true /\ name_too_long c = false.
Proof.
  unfold plain_name, fs_name. rewrite !andb_true_iff, !negb_true_iff. tauto.
Qed.

(** A name without a fault of its own: code points the file system takes
    and fewer than [PATH_MAX] bytes. *)
Lemma name_error_none (name : pystr) :
  name_error name = None <->
  forallb fs_char name = true /\ (fs_length name <? PATH_MAX)%N = true.
Proof.
  unfold name_error, fs_char.
  assert (E : forallb (fun c => encodable c && negb (c =? 0)) name =
              forallb encodable name && negb (existsb (N.eqb 0) name)).
  { induction name as [|c name IH]; [reflexivity|]. cbn [forallb existsb].
    rewrite IH, (N.eqb_sym 0 c).
    destruct (encodable c), (c =? 0), (forallb encodable name),
      (existsb (N.eqb 0) name); reflexivity. }
  rewrite E, N.ltb_antisym.
  destruct (forallb encodable name), (existsb (N.eqb 0) name),
    (PATH_MAX <=? fs_length name)%N; cbn; intuition discriminate.
Qed.

Lemma os_stat_name_ok (fs : node) (name : pystr) (n : node) :
  os_stat fs name = inr n -> name_error name = None.
Proof.
  unfold os_stat. destruct (name_error name); [discriminate|reflexivity].
Qed.

Lemma forallb_join (P : N -> bool) (ps : list pystr) :
  P slash = true -> forallb P (join slash ps) = forallb (forallb P) ps.
Proof.
  intros Hs. induction ps as [|x ps IH]; [reflexivity|].
  destruct ps as [|y ps].
  - simpl. now rewrite andb_true_r.
  - change (join slash (x :: y :: ps)) with (x ++ slash :: join slash (y :: ps)).
    rewrite forallb_app. cbn [forallb]. rewrite Hs, IH. reflexivity.
Qed.

(** The code points of [str(path)] are those of its components, separators
    and, for the empty path, a dot. *)
Lemma forallb_str (P : N -> bool) (p : PurePath) :
  anchor p = [] \/ anchor p = [slash] \/ anchor p = [slash; slash] ->
  P slash = true -> P 46%N = true ->
  forallb P (str p) = forallb (forallb P) (parts p).
Proof.
  intros Ha Hs Hd. unfold str.
  destruct (parts p) as [|x ps] eqn:E.
  - destruct Ha as [-> | [-> | ->]]; change dot with [46%N];
      cbn [app forallb join]; now rewrite ?Hs, ?Hd.
  - rewrite <- (forallb_join P (x :: ps) Hs).
    destruct Ha as [-> | [-> | ->]]; cbn [app forallb]; now rewrite ?Hs.
Qed.

(** The path of a location under a directory, made of entry names, has no
    fault of its own when the path of the directory has none and the whole
    is shorter than [PATH_MAX]. *)
Lemma name_error_joinpath (d : PurePath) (rel : list pystr) :
  valid_path d -> name_error (str d) = None ->
  forallb plain_name rel = true ->
  (fs_length (str (joinpath d rel)) <? PATH_MAX)%N = true ->
  name_error (str (joinpath d rel)) = None.
Proof.
  intros [Ha _] Hd Hrel Hlen. apply name_error_none. split; [|exact Hlen].
  apply name_error_none in Hd. destruct Hd as [Hd _].
  rewrite forallb_str in Hd by (auto; reflexivity).
  rewrite forallb_str by (auto; reflexivity).
  change (parts (joinpath d rel)) with (parts d ++ rel).
  rewrite forallb_app. apply andb_true_iff. split; [exact Hd|].
  rewrite forallb_forall in *. intros x Hx.
  now destruct (plain_name_fs_name x (Hrel x Hx)).
Qed.

Lemma name_error_too_long (d : PurePath) (rel : list pystr) :
  valid_path d -> name_error (str d) = None ->
  forallb plain_name rel = true ->
  (fs_length (str (joinpath d rel)) <? PATH_MAX)%N = false ->
  name_error (str (joinpath d rel)) = Some ENAMETOOLONG.
Proof.
  intros [Ha _] Hd Hrel Hlen.
  assert (Hc : forallb fs_char (str (joinpath d rel)) = true).
  { apply name_error_none in Hd. destruct Hd as [Hd _].
    rewrite forallb_str in Hd by (auto; reflexivity).
    rewrite forallb_str by (auto; reflexivity).
    change (parts (joinpath d rel)) with (parts d ++ rel).
    rewrite forallb_app. apply andb_true_iff. split; [exact Hd|].
    rewrite forallb_forall in *. intros x Hx.
    now destruct (plain_name_fs_name x (Hrel x Hx)). }
  unfold name_error. rewrite N.ltb_antisym, negb_false_iff in Hlen. rewrite Hlen.
  assert (E : forallb encodable (str (joinpath d rel)) = true
              /\ existsb (N.eqb 0) (str (joinpath d rel)) = false).
  { clear Hlen. induction (str (joinpath d rel)) as [|c l IH]; [now split|].
    cbn [forallb existsb] in *. unfold fs_char in Hc at 1.
    rewrite !andb_true_iff, negb_true_iff in Hc. destruct Hc as [[H1 H2] H3].
    destruct (IH H3) as [-> ->]. rewrite H1, (N.eqb_sym 0 c), H2. now split. }
  destruct E as [-> ->]. reflexivity.
Qed.

(** [stat] of a path with at least one component walks its components. *)
Lemma os_stat_str (fs : node) (p : PurePath) :
  valid_path p -> parts p <> [] -> name_error (str p) = None ->
  os_stat fs (str p) =
  match walk fs [] (parts p) with
  | inl e => inl e
  | inr loc =>
      match node_at fs loc with
      | Some n => inr n
      | None => inl ENOENT
      end
  end.
Proof.
  intros [Ha Hok] Hne He. unfold os_stat. rewrite He. unfold str.
  assert (Hs : match anchor p, parts p with
               | [], [] => dot
               | a, ps => a ++ join slash ps
               end = anchor p ++ join slash (parts p)).
  { destruct (anchor p); destruct (parts p); congruence. }
  rewrite Hs.
  rewrite trailing_slash_join, app_nil_r, components_anchor, components_join
    by assumption.
  destruct (anchor p ++ join slash (parts p)) eqn:E; [|reflexivity].
  apply app_eq_nil in E. destruct E as [_ E].
  now apply join_nonempty in E.
Qed.

Lemma split_on_all_slash_free (s : pystr) :
  forallb slash_free (split_on slash s) = true.
Proof.
  induction s as [|c s IH]; [reflexivity|].
  simpl. destruct (c =? slash) eqn:E; [exact IH|].
  destruct (split_on slash s) as [|w ws]; simpl in *; rewrite E; simpl;
    [reflexivity|exact IH].
Qed.

Lemma Path_valid (s : pystr) : valid_path (Path s).
Proof.
  split.
  - simpl. destruct (leading_slashes s) as [|[|[|n]]]; auto.
  - simpl. pose proof (split_on_all_slash_free s) as H.
    induction (split_on slash s) as [|w ws IH]; [reflexivity|].
    simpl in H. apply andb_true_iff in H. destruct H as [Hw Hws].
    simpl. destruct (nonempty w && negb (str_eqb w dot)) eqn:E; [|now apply IH].
    simpl. rewrite IH by assumption. unfold part_ok.
    apply andb_true_iff in E. destruct E as [E _]. now rewrite E, Hw.
Qed.

Lemma walk_app (root : node) (l1 l2 : list pystr) :
  forall acc,
    walk root acc (l1 ++ l2) =
    match walk root acc l1 with
    | inl e => inl e
    | inr loc => walk root loc l2
    end.
Proof.
  induction l1 as [|c l1 IH]; intros acc; [reflexivity|].
  cbn [app walk]. destruct (node_at root acc) as [[p d|es]|]; try reflexivity.
  destruct (str_eqb c dot); [apply IH|].
  destruct (str_eqb c dotdot); [apply IH|].
  destruct (name_too_long c); [reflexivity|apply IH].
Qed.

(** Entry names are walked one directory at a time. *)
Lemma walk_plain (root : node) (rel : list pystr) :
  forallb plain_name rel = true ->
  forall acc, node_at root (acc ++ rel) <> None ->
              walk root acc rel = inr (acc ++ rel).
Proof.
  induction rel as [|c rel IH]; intros Hp acc Hn.
  - now rewrite app_nil_r.
  - simpl in Hp. apply andb_true_iff in Hp. destruct Hp as [Hc Hp].
    destruct (plain_name_not_special c Hc) as (_ & Hd & Hdd).
    cbn [walk]. destruct (node_at root acc) as [[p d|es]|] eqn:En.
    + rewrite node_at_app, En in Hn. simpl in Hn. congruence.
    + rewrite Hd, Hdd. destruct (plain_name_fs_name c Hc) as [_ ->].
      replace (acc ++ c :: rel) with ((acc ++ [c]) ++ rel)
        by now rewrite <- app_assoc.
      apply IH; [assumption|]. now rewrite <- app_assoc.
    + rewrite node_at_app, En in Hn. congruence.
Qed.

Lemma os_stat_directory (fs : node) (d : PurePath) (dn : node) :
  valid_path d -> os_stat fs (str d) = inr dn ->
  exists locd, walk fs [] (parts d) = inr locd /\ node_at fs locd = Some dn.
Proof.
  intros Hv Hs. destruct (parts d) as [|x l] eqn:Ep.
  - exists []. split; [reflexivity|].
    destruct Hv as [Ha _]. unfold str in Hs. rewrite Ep in Hs.
    assert (H : forall name,
               name = dot \/ name = [slash] \/ name = [slash; slash] ->
               os_stat fs name = inr dn -> node_at fs [] = Some dn).
    { intros name Hname. 
      assert (E : os_stat fs name =
                  match fs with
                  | File _ _ => inl ENOTDIR
                  | Dir _ => inr fs
                  end)
        by (destruct Hname as [-> | [-> | ->]]; destruct fs; reflexivity).
      rewrite E. destruct fs; [discriminate|]. now intros [= <-]. }
    apply H with (name := match anchor d with [] => dot | a => a ++ [] end);
      [|exact Hs].
    destruct Ha as [-> | [-> | ->]]; auto.
  - rewrite <- Ep. pose proof (os_stat_name_ok _ _ _ Hs) as He.
    rewrite os_stat_str in Hs by (rewrite ?Ep; auto; discriminate).
    destruct (walk fs [] (parts d)) as [e|loc]; [discriminate|].
    exists loc. split; [reflexivity|].
    destruct (node_at fs loc); [|discriminate]. now injection Hs as ->.
Qed.

Lemma plain_names_part_ok (rel : list pystr) :
  forallb plain_name rel = true -> forallb part_ok rel = true.
Proof.
  rewrite !forallb_forall. intros H x Hx.
  now destruct (plain_name_not_special x (H x Hx)).
Qed.

(** [stat] of [directory / rel] finds the node at [rel] under the node of
    the directory. *)
Lemma os_stat_joinpath (fs : node) (d : PurePath) (locd rel : list pystr)
  (dn n : node) :
  valid_path d -> rel <> [] -> forallb plain_name rel = true ->
  name_error (str (joinpath d rel)) = None ->
  walk fs [] (parts d) = inr locd -> node_at fs locd = Some dn ->
  node_at dn rel = Some n ->
  os_stat fs (str (joinpath d rel)) = inr n.
Proof.
  intros [Ha Hok] Hne Hp He Hw Hd Hn.
  assert (Hat : node_at fs (locd ++ rel) = Some n) by now rewrite node_at_app, Hd.
  rewrite os_stat_str.
  - cbn [joinpath parts]. rewrite walk_app, Hw, walk_plain, Hat; congruence.
  - split; [exact Ha|]. cbn [joinpath parts].
    rewrite forallb_app, Hok. now apply plain_names_part_ok.
  - cbn [joinpath parts]. intros E. apply app_eq_nil in E. tauto.
  - exact He.
Qed.

Local Close Scope N_scope.

(** ** Well-formed trees and what lies in them *)

Lemma unique_NoDup (l : list pystr) : unique l = true -> NoDup l.
Proof.
  induction l as [|x l IH]; simpl; [constructor|].
  rewrite andb_true_iff, negb_true_iff. intros [Hx Hl].
  constructor; [|now apply IH].
  intros Hin. assert (E : existsb (str_eqb x) l = true)
    by (apply existsb_exists; exists x; split; [assumption|apply str_eqb_refl]).
  congruence.
Qed.

Lemma dict_get_In {V} (k : pystr) (v : V) (d : list (pystr * V)) :
  dict_get k d = Some v -> In (k, v) d.
Proof.
  induction d as [|[k' v'] d IH]; simpl; [discriminate|].
  destruct (str_eqb k k') eqn:E.
  - apply str_eqb_eq in E. subst. intros [= ->]. now left.
  - intros H. right. now apply IH.
Qed.

Lemma In_dict_get {V} (k : pystr) (v : V) (d : list (pystr * V)) :
  NoDup (keys d) -> In (k, v) d -> dict_get k d = Some v.
Proof.
  induction d as [|[k' v'] d IH]; simpl; [contradiction|].
  intros Hnd [[= -> ->]|Hin].
  - now rewrite str_eqb_refl.
  - inversion Hnd as [|? ? Hk Hd]; subst.
    destruct (str_eqb k k') eqn:E; [|now apply IH].
    apply str_eqb_eq in E. subst. exfalso. apply Hk.
    unfold keys. apply in_map_iff. now exists (k', v).
Qed.

(** What well-formedness says about one entry of a directory. *)
Lemma wf_tree_entry (es : list (pystr * node)) (name : pystr) (c : node) :
  wf_tree (Dir es) = true -> In (name, c) es ->
  plain_name name = true /\ dict_get name es = Some c /\ wf_tree c = true.
Proof.
  intros Hwf Hin. cbn [wf_tree] in Hwf.
  apply andb_true_iff in Hwf. destruct Hwf as [Hwf Hall].
  apply andb_true_iff in Hwf. destruct Hwf as [Hplain Huniq].
  repeat split.
  - rewrite forallb_forall in Hplain. apply Hplain.
    apply in_map_iff. now exists (name, c).
  - apply In_dict_get; [|assumption]. now apply unique_NoDup.
  - clear Hplain Huniq. induction es as [|[n' c'] es IH]; [contradiction|].
    apply andb_true_iff in Hall. destruct Hall as [Hc Hall].
    destruct Hin as [[= -> ->]|Hin]; [assumption|now apply IH].
Qed.

(** In a well-formed tree every location that exists is made of entry
    names. *)
Lemma node_at_plain (rel : list pystr) :
  forall n m, wf_tree n = true -> node_at n rel = Some m ->
              forallb plain_name rel = true /\ wf_tree m = true.
Proof.
  induction rel as [|name rel IH]; intros n m Hwf Hn.
  - simpl in Hn. injection Hn as <-. now split.
  - cbn [node_at] in Hn. destruct n as [p d|es]; [discriminate|].
    destruct (dict_get name es) as [c|] eqn:E; [|discriminate].
    apply dict_get_In in E.
    destruct (wf_tree_entry es name c Hwf E) as (Hp & _ & Hc).
    destruct (IH c m Hc Hn) as [Hrel Hm]. simpl. now rewrite Hp, Hrel.
Qed.

Lemma in_rmatches_dir (ext : pystr) (es : list (pystr * node)) (rel : list pystr) :
  In rel (rmatches ext (Dir es)) <->
  exists name c, In (name, c) es /\
    ((rel = [name] /\ endswith ext name = true) \/
     exists rel', rel = name :: rel' /\ In rel' (rmatches ext c)).
Proof.
  cbn [rmatches]. rewrite in_app_iff. unfold glob_here.
  rewrite in_map_iff.
  set (below := fix below (l : list (pystr * node)) : list (list pystr) :=
                  match l with
                  | [] => []
                  | (name, child) :: l' => map (cons name) (rmatches ext child) ++ below l'
                  end).
  assert (Hb : forall l, In rel (below l) <->
                 exists name c rel', In (name, c) l /\ rel = name :: rel' /\
                                     In rel' (rmatches ext c)).
  { induction l as [|[name c] l IH]; simpl.
    - split; [contradiction|]. intros (? & ? & ? & [] & _).
    - rewrite in_app_iff, in_map_iff, IH. split.
      + intros [(rel' & <- & Hin)|(n2 & c2 & rel' & Hin & -> & Hr)].
        * exists name, c, rel'. auto.
        * exists n2, c2, rel'. auto.
      + intros (n2 & c2 & rel' & [[= -> ->]|Hin] & -> & Hr).
        * left. now exists rel'.
        * right. now exists n2, c2, rel'. }
  rewrite Hb. split.
  - intros [([name c] & <- & Hf)|(name & c & rel' & Hin & -> & Hr)].
    + apply filter_In in Hf. destruct Hf as [Hin He]. exists name, c. auto.
    + exists name, c. split; [assumption|]. right. now exists rel'.
  - intros (name & c & Hin & [[-> He]|(rel' & -> & Hr)]).
    + left. exists (name, c). split; [reflexivity|]. apply filter_In. auto.
    + right. now exists name, c, rel'.
Qed.

(** [**/*ext] yields exactly the locations that exist under the directory
    and whose last name ends with [ext]. *)
Lemma rmatches_spec (ext : pystr) (rel : list pystr) :
  forall n, wf_tree n = true ->
    (In rel (rmatches ext n) <->
     rel <> [] /\ node_at n rel <> None /\ endswith ext (last rel []) = true).
Proof.
  induction rel as [|x rel IH]; intros n Hwf.
  - split; [|intros [H _]; congruence].
    destruct n as [p d|es]; [contradiction|].
    rewrite in_rmatches_dir. intros (name & c & _ & [[H _]|(r & H & _)]); discriminate.
  - destruct n as [p d|es].
    + split; [contradiction|]. intros (_ & H & _). simpl in H. congruence.
    + rewrite in_rmatches_dir. split.
      * intros (name & c & Hin & H).
        destruct (wf_tree_entry es name c Hwf Hin) as (_ & Hget & Hc).
        destruct H as [[[= -> ->] He]|(r & [= -> ->] & Hr)].
        -- repeat split; [discriminate| |exact He].
           cbn [node_at]. rewrite Hget. discriminate.
        -- apply (IH c Hc) in Hr. destruct Hr as (Hne & Hn & He).
           repeat split; [discriminate| |].
           ++ cbn [node_at]. now rewrite Hget.
           ++ destruct r; [congruence|exact He].
      * intros (_ & Hn & He). cbn [node_at] in Hn.
        destruct (dict_get x es) as [c|] eqn:Hget; [|congruence].
        pose proof (dict_get_In x c es Hget) as Hin.
        destruct (wf_tree_entry es x c Hwf Hin) as (_ & _ & Hc).
        exists x, c. split; [assumption|].
        destruct rel as [|y rel]; [left; auto|].
        right. exists (y :: rel). split; [reflexivity|].
        apply (IH c Hc). repeat split; [discriminate|exact Hn|exact He].
Qed.










(** ** Dictionaries *)

Lemma keys_dict_set {V} (k k' : pystr) (v : V) (d : list (pystr * V)) :
  In k' (keys (dict_set k v d)) <-> k' = k \/ In k' (keys d).
Proof.
  induction d as [|[k0 v0] d IH]; simpl.
  - split; [intros [<-|[]]; auto|intros [->|[]]; auto].
  - destruct (str_eqb k k0) eqn:E; simpl.
    + apply str_eqb_eq in E. subst. intuition congruence.
    + rewrite IH. intuition congruence.
Qed.

Lemma NoDup_dict_set {V} (k : pystr) (v : V) (d : list (pystr * V)) :
  NoDup (keys d) -> NoDup (keys (dict_set k v d)).
Proof.
  induction d as [|[k0 v0] d IH]; simpl; intros Hnd.
  - constructor; [intros []|constructor].
  - inversion Hnd as [|? ? Hk Hd]; subst.
    destruct (str_eqb k k0) eqn:E; simpl.
    + now constructor.
    + constructor; [|now apply IH].
      fold (keys (dict_set k v d)). rewrite keys_dict_set. intros [->|Hin].
      * rewrite str_eqb_refl in E. discriminate.
      * contradiction.
Qed.

Lemma dict_get_keys {V} (k : pystr) (d : list (pystr * V)) :
  In k (keys d) <-> exists v, dict_get k d = Some v.
Proof.
  induction d as [|[k0 v0] d IH]; simpl.
  - split; [contradiction|intros [v H]; discriminate].
  - destruct (str_eqb k k0) eqn:E.
    + apply str_eqb_eq in E. subst. split; eauto.
    + rewrite <- IH. split; [intros [->|H]; auto|auto].
      rewrite str_eqb_refl in E. discriminate.
Qed.

(** ** Keys of the scan: relative paths *)

Lemma join_injective (l1 l2 : list pystr) :
  forallb part_ok l1 = true -> forallb part_ok l2 = true ->
  join slash l1 = join slash l2 -> l1 = l2.
Proof.
  intros H1 H2 E.
  destruct l1 as [|a l1], l2 as [|b l2]; [reflexivity| | |].
  - symmetry in E. apply join_nonempty in E; [contradiction|discriminate|assumption].
  - apply join_nonempty in E; [contradiction|discriminate|assumption].
  - rewrite <- (components_join (a :: l1)), <- (components_join (b :: l2));
      try assumption; try discriminate. now rewrite E.
Qed.



(** ** The scan, read off the tree *)

Lemma for_each_map_ext {A B S} (f : A -> B) (body : B -> S -> result S)
  (body' : A -> S -> result S) (l : list A) :
  (forall x, In x l -> forall s, body (f x) s = body' x s) ->
  forall s, for_each (map f l) body s = for_each l body' s.
Proof.
  induction l as [|x l IH]; intros H s; [reflexivity|].
  simpl. rewrite (H x (or_introl eq_refl)).
  destruct (body' x s); [|reflexivity]. apply IH. intros y Hy. apply H. now right.
Qed.

Lemma flat_map_map {A B C} (f : B -> C) (g : A -> list B) (l : list A) :
  flat_map (fun x => map f (g x)) l = map f (flat_map g l).
Proof.
  induction l as [|x l IH]; simpl; [reflexivity|]. now rewrite map_app, IH.
Qed.

Section ScanOnTree.

Context (hl : hashlib) (fs : node) (d : PurePath) (dn : node) (locd : list pystr).
Hypothesis d_valid : valid_path d.
Hypothesis d_name : name_error (str d) = None.
Hypothesis d_walk : walk fs [] (parts d) = inr locd.
Hypothesis d_node : node_at fs locd = Some dn.
Hypothesis dn_wf : wf_tree dn = true.

Lemma scan_step_tree (rel : list pystr) (s : record) :
  rel <> [] -> node_at dn rel <> None ->
  scan_step hl fs d (joinpath d rel) s = tree_step hl d dn (Matched rel) s.
Proof.
  intros Hne Hn. destruct (node_at dn rel) as [m|] eqn:Em; [|congruence].
  destruct (node_at_plain rel dn m dn_wf Em) as [Hp _].
  unfold tree_step. cbn [rel_of].
  destruct (fs_length (str (joinpath d rel)) <? PATH_MAX)%N eqn:Hlen.
  - pose proof (os_stat_joinpath fs d locd rel dn m d_valid Hne Hp
                  (name_error_joinpath d rel d_valid d_name Hp Hlen) d_walk d_node Em)
      as Hs.
    unfold scan_step, tree_visit, is_file, stat_answer. rewrite Hs, Em.
    destruct m as [p data|es]; [|reflexivity]. cbn [rbind].
    rewrite relative_to_joinpath. cbn [rbind].
    rewrite calculate_checksum_cases. cbn [Path_of]. rewrite Hs.
    change (algorithm_named default_algorithm) with (Some SHA256).
    destruct p; [|reflexivity].
    cbn [rbind hexdigest hash_of fed]. unfold str. cbn [anchor parts].
    destruct rel; [congruence|reflexivity].
  - unfold scan_step, is_file. rewrite stat_answer_cases.
    unfold os_stat. rewrite (name_error_too_long d rel d_valid d_name Hp Hlen).
    reflexivity.
Qed.

(** The matches of one directory, at the location [base]. *)
Lemma for_each_matches (base : list pystr) (rels : list (list pystr)) :
  (forall rel, In rel rels -> rel <> [] /\ node_at dn (base ++ rel) <> None) ->
  forall s,
    for_each_yielded (map (fun rel => Ok (joinpath (joinpath d base) rel)) rels)
                     (scan_step hl fs d) s =
    for_each (map (under base) (map Matched rels)) (tree_step hl d dn) s.
Proof.
  induction rels as [|rel rels IH]; intros Hl s; [reflexivity|].
  cbn [map for_each_yielded for_each under].
  destruct (Hl rel (or_introl eq_refl)) as [Hne Hn].
  rewrite joinpath_joinpath, scan_step_tree; [|destruct base; [exact Hne|discriminate]|exact Hn].
  destruct (tree_step hl d dn (Matched (base ++ rel)) s); [|reflexivity].
  apply IH. intros r Hr. apply Hl. now right.
Qed.

Lemma glob_here_exists ext (es : list (pystr * node)) (base rel : list pystr) :
  wf_tree (Dir es) = true -> node_at dn base = Some (Dir es) ->
  In rel (glob_here ext es) -> rel <> [] /\ node_at dn (base ++ rel) <> None.
Proof.
  intros Hwf Hb Hin. unfold glob_here in Hin. apply in_map_iff in Hin.
  destruct Hin as ([name c] & <- & Hf). apply filter_In in Hf. destruct Hf as [Hin _].
  destruct (wf_tree_entry es name c Hwf Hin) as (_ & Hget & _).
  split; [discriminate|]. rewrite node_at_app, Hb. cbn [fst node_at].
  rewrite Hget. discriminate.
Qed.

Lemma under_under (b1 b2 : list pystr) (v : visit) :
  under b1 (under b2 v) = under (b1 ++ b2) v.
Proof. destruct v; cbn; now rewrite app_assoc. Qed.

(** Listing the directory at a location fails exactly when its path is too
    long. *)
Lemma listing (rel : list pystr) (m : node) :
  node_at dn rel = Some m ->
  name_error (str (joinpath d rel)) =
  if (fs_length (str (joinpath d rel)) <? PATH_MAX)%N then None else Some ENAMETOOLONG.
Proof.
  intros Hm. destruct (node_at_plain rel dn m dn_wf Hm) as [Hp _].
  destruct (fs_length (str (joinpath d rel)) <? PATH_MAX)%N eqn:Hlen.
  - now apply name_error_joinpath.
  - now apply name_error_too_long.
Qed.

(** [**/*ext] from the directory at the location [base], as visits. *)
Lemma rglob_visits (ext : pystr) (n : node) :
  forall base s,
    wf_tree n = true -> node_at dn base = Some n ->
    for_each_yielded (rglob ext (joinpath d base) n) (scan_step hl fs d) s =
    match n with
    | File _ _ => Ok s
    | Dir _ =>
        match name_error (str (joinpath d base)) with
        | Some e => Raise (os_error e (str (joinpath d base)))
        | None => for_each (map (under base) (rvisits ext n)) (tree_step hl d dn) s
        end
    end.
Proof.
  induction n as [p data|es IH] using node_induction; intros base s Hwf Hb;
    [reflexivity|].
  cbn [rglob rvisits]. destruct (name_error (str (joinpath d base))); [reflexivity|].
  rewrite for_each_yielded_app, map_app, for_each_app.
  rewrite (for_each_matches base (glob_here ext es))
    by (intros rel Hin; now apply (glob_here_exists ext es)).
  destruct (for_each (map (under base) (map Matched (glob_here ext es)))
                     (tree_step hl d dn) s) as [s1|e1]; cbn [rbind]; [|reflexivity].
  assert (Hsub : forall name c, In (name, c) es ->
                   node_at dn (base ++ [name]) = Some c /\ wf_tree c = true).
  { intros name c Hin. destruct (wf_tree_entry es name c Hwf Hin) as (_ & Hget & Hc).
    split; [|exact Hc]. rewrite node_at_app, Hb. cbn [node_at]. now rewrite Hget. }
  clear Hwf Hb. revert s1. induction es as [|[name c] es IHes]; intros s1;
    [reflexivity|].
  inversion IH as [|? ? Hc Hes]; subst. cbn [snd] in Hc.
  destruct (Hsub name c (or_introl eq_refl)) as [Hat Hwfc].
  rewrite for_each_yielded_app, map_app, for_each_app, joinpath_joinpath.
  rewrite (Hc (base ++ [name]) s1 Hwfc Hat).
  destruct c as [p data|es'].
  - cbn [map for_each rbind]. apply IHes; [exact Hes|].
    intros n2 c2 H2. apply Hsub. now right.
  - rewrite (listing (base ++ [name]) (Dir es') Hat).
    cbn [map for_each under]. unfold tree_step at 2. cbn [rel_of].
    destruct (fs_length (str (joinpath d (base ++ [name]))) <? PATH_MAX)%N;
      [|reflexivity].
    rewrite map_map.
    rewrite (map_ext (fun v => under base (under [name] v)) (under (base ++ [name])))
      by (intros v; apply under_under).
    destruct (for_each (map (under (base ++ [name])) (rvisits ext (Dir es')))
                       (tree_step hl d dn) s1) as [s2|e2]; cbn [rbind]; [|reflexivity].
    apply IHes; [exact Hes|]. intros n2 c2 H2. apply Hsub. now right.
Qed.

Lemma under_nil (vs : list visit) : map (under []) vs = vs.
Proof.
  rewrite (map_ext (under []) (fun v => v)) by (intros [rel|rel]; reflexivity).
  apply map_id.
Qed.

Lemma rglob_visits_top (ext : pystr) (es : list (pystr * node)) (s : record) :
  dn = Dir es ->
  for_each_yielded (rglob ext d dn) (scan_step hl fs d) s =
  for_each (rvisits ext dn) (tree_step hl d dn) s.
Proof.
  intros E. pose proof (rglob_visits ext dn [] s dn_wf eq_refl) as H.
  rewrite joinpath_nil, d_name, under_nil in H. rewrite H, E. reflexivity.
Qed.

Lemma for_each_matches_top (ext : pystr) (es : list (pystr * node)) (s : record) :
  dn = Dir es ->
  for_each_yielded (map (fun rel => Ok (joinpath d rel)) (glob_here ext es))
                   (scan_step hl fs d) s =
  for_each (map Matched (glob_here ext es)) (tree_step hl d dn) s.
Proof.
  intros E.
  pose proof (for_each_matches [] (glob_here ext es)) as H.
  rewrite joinpath_nil, under_nil in H. apply H.
  intros rel Hin. apply (glob_here_exists ext es [] rel); [now rewrite <- E|now subst|exact Hin].
Qed.

(** The loop returns only when every path was short enough, and it is then
    the loop of the visits of the matches. *)
Lemma tree_loop_short (vs : list visit) :
  forall s r, for_each vs (tree_step hl d dn) s = Ok r ->
              within_path_max d (map rel_of vs) = true.
Proof.
  induction vs as [|v vs IH]; intros s r H; [reflexivity|].
  cbn [for_each] in H. unfold tree_step at 1 in H.
  unfold within_path_max. cbn [map forallb].
  destruct (fs_length (str (joinpath d (rel_of v))) <? PATH_MAX)%N; [|discriminate].
  destruct v as [rel|rel]; [exact (IH s r H)|].
  destruct (tree_visit hl d dn rel s) as [s'|e]; [|discriminate].
  exact (IH s' r H).
Qed.

Lemma tree_loop_visits (vs : list visit) :
  within_path_max d (map rel_of vs) = true ->
  forall s, for_each vs (tree_step hl d dn) s =
            for_each (matched vs) (tree_visit hl d dn) s.
Proof.
  unfold within_path_max. induction vs as [|v vs IH]; intros Hlen s; [reflexivity|].
  cbn [map forallb] in Hlen. apply andb_true_iff in Hlen. destruct Hlen as [Hrel Hlen].
  cbn [for_each]. unfold tree_step at 1. rewrite Hrel.
  destruct v as [rel|rel]; [now apply IH|].
  change (matched (Matched rel :: vs)) with (rel :: matched vs). cbn [for_each].
  destruct (tree_visit hl d dn rel s); [now apply IH|reflexivity].
Qed.

(** When the loop returns, the record holds the entries it started with
    and one entry for each readable file among the locations, and no
    location was a locked file. *)
Lemma visit_loop_returns (rels : list (list pystr)) :
  forall s r,
    for_each rels (tree_visit hl d dn) s = Ok r ->
    (NoDup (keys s) -> NoDup (keys r))
    /\ (forall key, In key (keys r) <->
          In key (keys s) \/
          exists rel data, In rel rels /\ node_at dn rel = Some (File true data) /\
                           key = join slash rel)
    /\ (forall key v, dict_get key r = Some v ->
          dict_get key s = Some v \/
          exists rel data, In rel rels /\ node_at dn rel = Some (File true data) /\
                           key = join slash rel /\ v = sha256_hex hl data)
    /\ (forall rel p data, In rel rels -> node_at dn rel = Some (File p data) ->
                           p = true).
Proof.
  induction rels as [|rel rels IH]; intros s r H.
  - simpl in H. injection H as <-. split; [|split; [|split]].
    + auto.
    + intros key. split; [auto|]. intros [H|(rel & data & [] & _)]. exact H.
    + auto.
    + intros rel p data [].
  - cbn [for_each] in H. unfold tree_visit at 1 in H.
    assert (Hskip : forall m, node_at dn rel = m ->
                      (forall data, m <> Some (File true data)) ->
                      for_each rels (tree_visit hl d dn) s = Ok r ->
                      (NoDup (keys s) -> NoDup (keys r))
                      /\ (forall key, In key (keys r) <->
                            In key (keys s) \/
                            exists rel0 data, In rel0 (rel :: rels) /\
                              node_at dn rel0 = Some (File true data) /\
                              key = join slash rel0)
                      /\ (forall key v, dict_get key r = Some v ->
                            dict_get key s = Some v \/
                            exists rel0 data, In rel0 (rel :: rels) /\
                              node_at dn rel0 = Some (File true data) /\
                              key = join slash rel0 /\ v = sha256_hex hl data)
                      /\ (forall rel0 p data, In rel0 rels ->
                            node_at dn rel0 = Some (File p data) -> p = true)).
    { intros m Em Hm Hr. apply IH in Hr. destruct Hr as (Hnd & Hkeys & Hvals & Hperm).
      split; [exact Hnd|]. split; [|split; [|exact Hperm]].
      - intros key. rewrite Hkeys. split.
        + intros [Hin|(rel' & data' & Hin & Hn & ->)]; [now left|].
          right. exists rel', data'. split; [now right|auto].
        + intros [Hin|(rel' & data' & [<-|Hin] & Hn & ->)]; [now left| |].
          * exfalso. apply (Hm data'). congruence.
          * right. exists rel', data'. auto.
      - intros key v Hget.
        destruct (Hvals key v Hget) as [Hs|(rel' & data' & Hin & Hn & -> & ->)];
          [now left|].
        right. exists rel', data'. split; [now right|auto]. }
    destruct (node_at dn rel) as [[[|] data|es]|] eqn:En; try discriminate.
    + apply IH in H. destruct H as (Hnd & Hkeys & Hvals & Hperm).
      split; [|split; [|split]].
      * intros Hs. apply Hnd. now apply NoDup_dict_set.
      * intros key. rewrite Hkeys, keys_dict_set. split.
        -- intros [[->|Hin]|(rel' & data' & Hin & Hn & ->)].
           ++ right. exists rel, data. split; [now left|auto].
           ++ now left.
           ++ right. exists rel', data'. split; [now right|auto].
        -- intros [Hin|(rel' & data' & [<-|Hin] & Hn & ->)].
           ++ left. now right.
           ++ left. now left.
           ++ right. exists rel', data'. auto.
      * intros key v Hget.
        destruct (Hvals key v Hget) as [Hs|(rel' & data' & Hin & Hn & -> & ->)].
        -- rewrite dict_get_set in Hs.
           destruct (str_eqb key (join slash rel)) eqn:E; [|now left].
           apply str_eqb_eq in E. injection Hs as <-. right.
           exists rel, data. split; [now left|auto].
        -- right. exists rel', data'. split; [now right|auto].
      * intros rel' p data' [<-|Hin] Hn; [congruence|eauto].
    + destruct (Hskip _ eq_refl) as (H1 & H2 & H3 & H4); [discriminate|exact H|].
      split; [exact H1|]. split; [exact H2|]. split; [exact H3|].
      intros rel' p data' [<-|Hin] Hn; [congruence|eauto].
    + destruct (Hskip _ eq_refl) as (H1 & H2 & H3 & H4); [discriminate|exact H|].
      split; [exact H1|]. split; [exact H2|]. split; [exact H3|].
      intros rel' p data' [<-|Hin] Hn; [congruence|eauto].
Qed.

(** The loop returns when no location is a locked file. *)
Lemma visit_loop_total (rels : list (list pystr)) :
  (forall rel p data, In rel rels -> node_at dn rel = Some (File p data) -> p = true) ->
  forall s, exists r, for_each rels (tree_visit hl d dn) s = Ok r.
Proof.
  induction rels as [|rel rels IH]; intros Hp s; [now exists s|].
  cbn [for_each]. unfold tree_visit at 1.
  assert (Hp' : forall rel' p data, In rel' rels ->
                  node_at dn rel' = Some (File p data) -> p = true)
    by (intros; eapply Hp; [right|]; eauto).
  destruct (node_at dn rel) as [[[|] data|es]|] eqn:En; try now apply IH.
  specialize (Hp rel false data (or_introl eq_refl) En). discriminate.
Qed.


(** When the scan's loop returns, the record holds the entries it started
    with and one entry for each readable file among the matches, and no
    match was a locked file. *)
Lemma tree_loop_returns (vs : list visit) :
  forall s r,
    for_each vs (tree_step hl d dn) s = Ok r ->
    (NoDup (keys s) -> NoDup (keys r))
    /\ (forall key, In key (keys r) <->
          In key (keys s) \/
          exists rel data, In rel (matched vs) /\
                           node_at dn rel = Some (File true data) /\
                           key = join slash rel)
    /\ (forall key v, dict_get key r = Some v ->
          dict_get key s = Some v \/
          exists rel data, In rel (matched vs) /\
                           node_at dn rel = Some (File true data) /\
                           key = join slash rel /\ v = sha256_hex hl data)
    /\ (forall rel p data, In rel (matched vs) ->
                           node_at dn rel = Some (File p data) -> p = true).
Proof.
  intros s r H. apply visit_loop_returns.
  now rewrite <- (tree_loop_visits vs (tree_loop_short vs s r H)).
Qed.

(** The scan's loop returns when every path is short enough and no match
    is a locked file. *)
Lemma tree_loop_total (vs : list visit) :
  within_path_max d (map rel_of vs) = true ->
  (forall rel p data, In rel (matched vs) ->
                      node_at dn rel = Some (File p data) -> p = true) ->
  forall s, exists r, for_each vs (tree_step hl d dn) s = Ok r.
Proof.
  intros Hlen Hp s. rewrite (tree_loop_visits vs Hlen). now apply visit_loop_total.
Qed.

End ScanOnTree.

Lemma in_glob_here (ext : pystr) (es : list (pystr * node)) (rel : list pystr) :
  In rel (glob_here ext es) <->
  exists name c, rel = [name] /\ In (name, c) es /\ endswith ext name = true.
Proof.
  unfold glob_here. rewrite in_map_iff. split.
  - intros ([name c] & <- & Hf). apply filter_In in Hf. destruct Hf. now exists name, c.
  - intros (name & c & -> & Hin & He). exists (name, c). split; [reflexivity|].
    now apply filter_In.
Qed.

Lemma in_scan_locations formats recursive es rel :
  wf_tree (Dir es) = true ->
  (In rel (scan_locations formats recursive es) <->
   rel <> [] /\ node_at (Dir es) rel <> None /\
   matches formats (last rel []) = true /\
   (recursive = false -> length rel = 1)).
Proof.
  intros Hwf. unfold scan_locations, matches. rewrite in_flat_map, existsb_exists.
  destruct recursive.
  - split.
    + intros (ext & Hext & Hin). apply (rmatches_spec ext rel (Dir es) Hwf) in Hin.
      destruct Hin as (H1 & H2 & H3). repeat split; eauto. discriminate.
    + intros (H1 & H2 & (ext & Hext & H3) & _). exists ext. split; [assumption|].
      now apply (rmatches_spec ext rel (Dir es) Hwf).
  - split.
    + intros (ext & Hext & Hin). apply in_glob_here in Hin.
      destruct Hin as (name & c & -> & Hin & He).
      destruct (wf_tree_entry es name c Hwf Hin) as (_ & Hget & _).
      repeat split; eauto; [discriminate|]. cbn [node_at]. rewrite Hget. discriminate.
    + intros (H1 & H2 & (ext & Hext & H3) & H4). specialize (H4 eq_refl).
      destruct rel as [|name [|y rel]]; try discriminate.
      exists ext. split; [assumption|]. apply in_glob_here.
      cbn [node_at] in H2. destruct (dict_get name es) as [c|] eqn:E; [|congruence].
      exists name, c. repeat split; [now apply dict_get_In|exact H3].
Qed.

(** The matches among the visits of a scan are its locations. *)
Lemma matched_app (v1 v2 : list visit) : matched (v1 ++ v2) = matched v1 ++ matched v2.
Proof. unfold matched. apply flat_map_app. Qed.

Lemma matched_Matched (rels : list (list pystr)) : matched (map Matched rels) = rels.
Proof.
  induction rels as [|rel rels IH]; [reflexivity|].
  change (matched (map Matched (rel :: rels))) with (rel :: matched (map Matched rels)).
  now rewrite IH.
Qed.

Lemma matched_under (name : pystr) (vs : list visit) :
  matched (map (under [name]) vs) = map (cons name) (matched vs).
Proof.
  induction vs as [|[rel|rel] vs IH]; [reflexivity|exact IH|].
  change (matched (map (under [name]) (Matched rel :: vs)))
    with ((name :: rel) :: matched (map (under [name]) vs)).
  now rewrite IH.
Qed.

Lemma matched_rvisits (ext : pystr) (n : node) :
  matched (rvisits ext n) = rmatches ext n.
Proof.
  induction n as [p data|es IH] using node_induction; [reflexivity|].
  cbn [rvisits rmatches]. rewrite matched_app, matched_Matched. f_equal.
  induction es as [|[name c] es IHes]; [reflexivity|].
  inversion IH as [|? ? Hc Hes]; subst. cbn [snd] in Hc.
  rewrite matched_app, (IHes Hes). f_equal.
  destruct c as [p data|es']; [reflexivity|].
  change (matched (Listed [name] :: map (under [name]) (rvisits ext (Dir es'))))
    with (matched (map (under [name]) (rvisits ext (Dir es')))).
  now rewrite matched_under, Hc.
Qed.

Lemma in_matched (rel : list pystr) (vs : list visit) :
  In rel (matched vs) <-> In (Matched rel) vs.
Proof.
  unfold matched. rewrite in_flat_map. split.
  - intros ([r|r] & Hin & H); [contradiction|]. destruct H as [<-|[]]. exact Hin.
  - intros H. exists (Matched rel). split; [exact H|now left].
Qed.

Lemma matched_scan_visits formats recursive es :
  matched (scan_visits formats recursive es) = scan_locations formats recursive es.
Proof.
  unfold scan_visits, scan_locations.
  induction formats as [|ext formats IH]; [reflexivity|].
  cbn [flat_map]. rewrite matched_app, IH. f_equal.
  destruct recursive; [apply matched_rvisits|apply matched_Matched].
Qed.

Lemma scan_paths_flat formats es :
  scan_paths formats false es = scan_locations formats false es.
Proof.
  unfold scan_paths. rewrite <- matched_scan_visits. unfold scan_visits.
  induction formats as [|ext formats IH]; [reflexivity|].
  cbn [flat_map]. rewrite map_app, matched_app, IH, matched_Matched, map_map.
  f_equal. apply map_id.
Qed.


(** The sub-directories [**/*ext] lists under a node. *)
Lemma in_rvisits_listed (ext : pystr) (rel : list pystr) :
  forall n, wf_tree n = true ->
    (In (Listed rel) (rvisits ext n) <->
     rel <> [] /\ exists es', node_at n rel = Some (Dir es')).
Proof.
  induction rel as [|x rel IH]; intros n Hwf.
  - split; [|intros [H _]; congruence].
    destruct n as [p d|es]; [contradiction|]. intros H. exfalso.
    cbn [rvisits] in H. apply in_app_or in H. destruct H as [H|H].
    + apply in_map_iff in H. destruct H as (r & H & _). discriminate.
    + clear Hwf. induction es as [|[name c] es IHes]; [contradiction|].
      apply in_app_or in H. destruct H as [H|H]; [|now apply IHes].
      destruct c as [p d|es']; [contradiction|].
      destruct H as [H|H]; [discriminate|].
      apply in_map_iff in H. destruct H as ([r|r] & H & _); discriminate.
  - destruct n as [p d|es].
    { split; [contradiction|]. intros (_ & es' & H). discriminate. }
    assert (Hb : forall l,
               (forall name c, In (name, c) l -> In (name, c) es) ->
               (In (Listed (x :: rel))
                   ((fix below (l : list (pystr * node)) : list visit :=
                       match l with
                       | [] => []
                       | (name, child) :: l' =>
                           match child with
                           | Dir _ =>
                               Listed [name] :: map (under [name]) (rvisits ext child)
                           | File _ _ => []
                           end ++ below l'
                       end) l) <->
                exists c, In (x, c) l /\ exists es', node_at c rel = Some (Dir es'))).
    { induction l as [|[name c] l IHl]; intros Hsub.
      - split; [contradiction|]. intros (c & [] & _).
      - rewrite in_app_iff, IHl by (intros n2 c2 H2; apply Hsub; now right).
        destruct (wf_tree_entry es name c Hwf (Hsub name c (or_introl eq_refl)))
          as (_ & _ & Hwfc).
        split.
        + intros [H|(c2 & Hin & H)]; [|exists c2; split; [now right|exact H]].
          destruct c as [p d|es']; [contradiction|].
          destruct H as [[= <- <-]|H].
          * exists (Dir es'). split; [now left|]. now exists es'.
          * apply in_map_iff in H. destruct H as ([r|r] & Heq & Hr); [|discriminate].
            cbn in Heq. injection Heq as <- <-.
            exists (Dir es'). split; [now left|].
            apply (IH (Dir es') Hwfc) in Hr. tauto.
        + intros (c2 & [Heq|Hin] & es2 & H); [|right; exists c2; eauto].
          injection Heq as -> ->.
          left. destruct c2 as [p d|es'].
          * destruct rel; discriminate.
          * destruct rel as [|y rel]; [now left|]. right.
            apply in_map_iff. exists (Listed (y :: rel)). split; [reflexivity|].
            apply (IH (Dir es') Hwfc). split; [discriminate|now exists es2]. }
    cbn [rvisits]. rewrite in_app_iff, Hb by auto. split.
    + intros [H|(c & Hin & es' & H)].
      * apply in_map_iff in H. destruct H as (r & H & _). discriminate.
      * destruct (wf_tree_entry es x c Hwf Hin) as (_ & Hget & _).
        split; [discriminate|]. exists es'. cbn [node_at]. now rewrite Hget.
    + intros (_ & es' & H). right. cbn [node_at] in H.
      destruct (dict_get x es) as [c|] eqn:Hget; [|discriminate].
      exists c. split; [now apply dict_get_In|]. now exists es'.
Qed.

Lemma in_rvisits_matched (ext : pystr) (rel : list pystr) (n : node) :
  In (Matched rel) (rvisits ext n) <-> In rel (rmatches ext n).
Proof. now rewrite <- in_matched, matched_rvisits. Qed.

(** The locations of the paths a scan builds: those whose names match and,
    with recursion and a format at least, the sub-directories. *)
Lemma in_scan_paths formats recursive es rel :
  wf_tree (Dir es) = true ->
  (In rel (scan_paths formats recursive es) <->
   (rel <> [] /\ node_at (Dir es) rel <> None /\
    matches formats (last rel []) = true /\
    (recursive = false -> length rel = 1))
   \/ (recursive = true /\ formats <> [] /\ rel <> [] /\
       exists es', node_at (Dir es) rel = Some (Dir es'))).
Proof.
  intros Hwf. rewrite <- (in_scan_locations formats recursive es rel Hwf).
  rewrite <- matched_scan_visits, in_matched. unfold scan_paths.
  rewrite in_map_iff. split.
  - intros ([r|r] & <- & Hin); [|now left]. right. cbn [rel_of].
    unfold scan_visits in Hin. apply in_flat_map in Hin.
    destruct Hin as (ext & Hext & Hin). destruct recursive.
    + apply (in_rvisits_listed ext r (Dir es) Hwf) in Hin.
      destruct Hin as [Hne Hd]. repeat split; auto.
      intros ->. contradiction.
    + apply in_map_iff in Hin. destruct Hin as (r' & H & _). discriminate.
  - intros [H|(-> & Hne & Hrel & Hd)]; [now exists (Matched rel)|].
    exists (Listed rel). split; [reflexivity|].
    destruct formats as [|ext formats]; [congruence|].
    unfold scan_visits. cbn [flat_map]. apply in_or_app. left.
    now apply (in_rvisits_listed ext rel (Dir es) Hwf).
Qed.

(** The loop of a scan, by the locations whose names match. *)
Lemma scan_loop_returns hl d es formats recursive (s r : record) :
  for_each (scan_visits formats recursive es) (tree_step hl d (Dir es)) s = Ok r ->
  (NoDup (keys s) -> NoDup (keys r))
  /\ (forall key, In key (keys r) <->
        In key (keys s) \/
        exists rel data, In rel (scan_locations formats recursive es) /\
                         node_at (Dir es) rel = Some (File true data) /\
                         key = join slash rel)
  /\ (forall key v, dict_get key r = Some v ->
        dict_get key s = Some v \/
        exists rel data, In rel (scan_locations formats recursive es) /\
                         node_at (Dir es) rel = Some (File true data) /\
                         key = join slash rel /\ v = sha256_hex hl data)
  /\ (forall rel p data, In rel (scan_locations formats recursive es) ->
                         node_at (Dir es) rel = Some (File p data) -> p = true).
Proof.
  intros H. rewrite <- matched_scan_visits.
  now apply (tree_loop_returns hl d (Dir es)).
Qed.

Lemma scan_loop_total hl d es formats recursive :
  within_path_max d (scan_paths formats recursive es) = true ->
  (forall rel p data, In rel (scan_locations formats recursive es) ->
                      node_at (Dir es) rel = Some (File p data) -> p = true) ->
  forall s, exists r,
    for_each (scan_visits formats recursive es) (tree_step hl d (Dir es)) s = Ok r.
Proof.
  intros Hlen Hp. apply (tree_loop_total hl d (Dir es)); [exact Hlen|].
  now rewrite matched_scan_visits.
Qed.

Lemma scan_loop_short hl d es formats recursive (s r : record) :
  for_each (scan_visits formats recursive es) (tree_step hl d (Dir es)) s = Ok r ->
  within_path_max d (scan_paths formats recursive es) = true.
Proof. apply (tree_loop_short hl d (Dir es)). Qed.

(** A scan of an existing, well-formed directory is the loop over its
    visits. *)
Lemma scan_directory_tree hl h fs dir formats recursive es :
  wf_tree (Dir es) = true ->
  os_stat fs (str (Path dir)) = inr (Dir es) ->
  scan_directory hl h fs (AsStr dir) formats recursive =
  for_each (scan_visits (formats_used h formats) recursive es)
           (tree_step hl (Path dir) (Dir es)) [].
Proof.
  intros Hwf Hs.
  destruct (os_stat_directory fs (Path dir) (Dir es) (Path_valid dir) Hs)
    as (locd & Hw & Hn).
  pose proof (os_stat_name_ok _ _ _ Hs) as He.
  assert (Hd : is_dir fs (Path dir) = Ok true)
    by (unfold is_dir, stat_answer; now rewrite Hs).
  unfold scan_directory, scan_visits. fold (formats_used h formats).
  cbn [Path_of]. rewrite <- for_each_flat_map. apply for_each_ext. intros ext s.
  unfold glob. rewrite Hd, Hs.
  destruct recursive.
  - apply (rglob_visits_top hl fs (Path dir) (Dir es) locd (Path_valid dir) He Hw Hn
             Hwf ext es s eq_refl).
  - apply (for_each_matches_top hl fs (Path dir) (Dir es) locd (Path_valid dir) He Hw
             Hn Hwf ext es s eq_refl).
Qed.








(* ===================================================================== *)
(** * Further properties of the package and of its command line *)
(* ===================================================================== *)

(** ** The algorithm selector *)

Local Open Scope N_scope.

(** A word of ASCII characters other than [i] and [k] is the lower case of
    exactly the strings that differ from it in the case of ASCII letters:
    the two code points outside ASCII whose lower case reaches into ASCII
    give an [i] and a [k]. *)
Lemma lower_caseless (word a : pystr) :
  forallb (fun x => (x <? 128) && negb (x =? 105) && negb (x =? 107)) word = true ->
  (lower a = word <-> caseless a = word).
Proof.
  revert word. induction a as [|c a IH]; intros word Hw; [reflexivity|].
  unfold lower, caseless in *. cbn [flat_map map].
  unfold lower_char, ascii_lower.
  destruct ((65 <=? c) && (c <=? 90)) eqn:Eup.
  { cbn [app]. destruct word as [|x word]; [split; discriminate|].
    cbn [forallb] in Hw. apply andb_true_iff in Hw. destruct Hw as [_ Hw].
    specialize (IH word Hw).
    split; intros [= -> H]; f_equal; now apply IH. }
  destruct word as [|x word].
  { split; [|discriminate].
    destruct (c =? 0x130); [discriminate|]. destruct (c =? 0x212A); discriminate. }
  cbn [forallb] in Hw. apply andb_true_iff in Hw. destruct Hw as [Hx Hw].
  rewrite !andb_true_iff, !negb_true_iff, N.ltb_lt, !N.eqb_neq in Hx.
  destruct Hx as [[Hx Hi] Hk]. specialize (IH word Hw).
  destruct (c =? 0x130) eqn:E1.
  { apply N.eqb_eq in E1. subst c. cbn [app].
    split; intros H; injection H as Hx' _; lia. }
  destruct (c =? 0x212A) eqn:E2.
  { apply N.eqb_eq in E2. subst c. cbn [app].
    split; intros H; injection H as Hx' _; lia. }
  cbn [app]. split; intros [= -> H]; f_equal; now apply IH.
Qed.

Lemma str_eqb_lower_caseless (word : string) (a : pystr) :
  forallb (fun x => (x <? 128) && negb (x =? 105) && negb (x =? 107)) (py word) = true ->
  str_eqb (lower a) (py word) = str_eqb (caseless a) (py word).
Proof.
  intros Hw. pose proof (lower_caseless (py word) a Hw) as H.
  destruct (str_eqb (lower a) (py word)) eqn:E1;
    destruct (str_eqb (caseless a) (py word)) eqn:E2; try reflexivity.
  - apply str_eqb_eq in E1. apply H in E1. apply str_eqb_eq in E1. congruence.
  - apply str_eqb_eq in E2. apply H in E2. apply str_eqb_eq in E2. congruence.
Qed.

Local Close Scope N_scope.

(** X1: The selector of [calculate_checksum]. For a readable regular file, the
    algorithm argument is matched against [sha256], [md5] and [sha1]
    ignoring the case of ASCII letters and nothing else; the result is the
    digest of the whole content under the algorithm named, and any other
    argument raises [ValueError] with the argument as it was given. *)
Theorem algorithm_selector_ignores_ascii_case
  (hl : hashlib) (fs : node) (path : pathlike) (algorithm : pystr) (data : bytes) :
  os_stat fs (str (Path_of path)) = inr (File true data) ->
  calculate_checksum hl fs path algorithm =
  if str_eqb (caseless algorithm) (py "sha256") then Ok (sha256_hex hl data)
  else if str_eqb (caseless algorithm) (py "md5") then Ok (md5_hex hl data)
  else if str_eqb (caseless algorithm) (py "sha1") then Ok (sha1_hex hl data)
  else Raise (Exn ValueError (py "Unsupported algorithm: " ++ algorithm)).
Proof.
  intros Hs. rewrite calculate_checksum_cases, Hs. unfold algorithm_named.
  rewrite !str_eqb_lower_caseless by reflexivity.
  destruct (str_eqb (caseless algorithm) (py "sha256")); [reflexivity|].
  destruct (str_eqb (caseless algorithm) (py "md5")); [reflexivity|].
  destruct (str_eqb (caseless algorithm) (py "sha1")); reflexivity.
Qed.

Lemma algorithm_selector_example :
  calculate_checksum toy_hashlib demo_files (AsStr (py "models/a.h5")) (py "Sha1") =
    Ok (toy_hex 3 (ascii_text "fake model"))
  /\ calculate_checksum toy_hashlib demo_files (AsStr (py "models/a.h5"))
                        (py "SHA-1") =
     Raise (Exn ValueError (py "Unsupported algorithm: SHA-1")).
Proof.
  split.
  - apply (algorithm_selector_ignores_ascii_case toy_hashlib demo_files
             (AsStr (py "models/a.h5")) (py "Sha1") (ascii_text "fake model")).
    reflexivity.
  - apply (algorithm_selector_ignores_ascii_case toy_hashlib demo_files
             (AsStr (py "models/a.h5")) (py "SHA-1") (ascii_text "fake model")).
    reflexivity.
Defined.

(** ** The commands: what is printed and what is returned *)

Lemma print_all_spec (lines : list pystr) (w : world) :
  print_all lines w =
  Returns tt (World (objects w) (files w) (stdout w ++ lines) (stderr w)).
Proof.
  revert w. induction lines as [|l ls IH]; intros w.
  - simpl. unfold ret. rewrite app_nil_r. now destruct w.
  - cbn [print_all]. unfold bind, print. rewrite IH. cbn [objects files stdout stderr].
    now rewrite <- app_assoc.
Qed.

(** X2: [formats] prints the items of [SUPPORTED_FORMATS], one line each and in
    their order, and returns 0. It reads them from a copy it allocates;
    the files and the error stream are as they were. *)
Theorem formats_prints_each_format
  (hl : hashlib) (codec : text_codec) (w : world) :
  main hl codec Formats w =
  Returns 0 (World (objects w ++ [deref (objects w) SUPPORTED_FORMATS]) (files w)
                   (stdout w ++ deref (objects w) SUPPORTED_FORMATS) (stderr w)).
Proof.
  cbn [main]. unfold cmd_formats, get_supported_formats, alloc, bind, ret.
  rewrite print_all_spec. cbn [objects files stdout stderr].
  do 2 f_equal. unfold deref at 1. rewrite app_nth2 by lia.
  now rewrite Nat.sub_diag.
Qed.

Section VerifyProperties.

Context (hl : hashlib) (codec : text_codec).

(** [verify_checksum] answers [True] only for a readable regular file whose
    SHA-256 digest is the expected value, a string. *)
Lemma verify_checksum_true (fs : node) (path : pathlike) (expected : pyval) :
  verify_checksum hl fs path expected = Ok true <->
  exists data, os_stat fs (str (Path_of path)) = inr (File true data)
               /\ expected = PStr (sha256_hex hl data).
Proof.
  unfold verify_checksum. rewrite calculate_checksum_cases.
  change (algorithm_named default_algorithm) with (Some SHA256).
  destruct (os_stat fs (str (Path_of path))) as [e|[[|] data|es]];
    [destruct e|..]; cbn;
    try (split; [discriminate|intros (data' & H & _); discriminate]).
  - split.
    + intros [= H]. exists data. split; [reflexivity|].
      destruct expected; try discriminate. apply str_eqb_eq in H. now subst.
    + intros (data' & [= <-] & ->). cbn. now rewrite str_eqb_refl.
Qed.

Lemma report_verification_zero (model : pystr) (expected : pyval) (w w' : world) :
  report_verification hl model expected w = Returns 0 w' <->
  verify_checksum hl (files w) (AsStr model) expected = Ok true
  /\ w' = said w check_mark.
Proof.
  unfold report_verification, bind, reading, print, print_err, ret, said.
  destruct (verify_checksum hl (files w) (AsStr model) expected) as [[|]|e].
  - split; [intros [= <-]; auto|]. intros [_ ->]. reflexivity.
  - split; [discriminate|]. intros [H _]. discriminate.
  - split; [discriminate|]. intros [H _]. discriminate.
Qed.

(** X3: [verify] returns 0 exactly when the model is a readable regular file
    and the expected value is its SHA-256 digest, compared as text: the
    value under the model's key in the checksum file, a JSON object, when a
    checksum file is given, and the value of [--checksum] otherwise. It has
    then printed the success line and nothing else. *)
Theorem verify_succeeds_exactly_on_a_match
  (model : pystr) (checksum checksum_file : option pystr) (w w' : world) :
  main hl codec (Verify model checksum checksum_file) w = Returns 0 w' <->
  exists data,
    os_stat (files w) (str (Path model)) = inr (File true data)
    /\ (if truthy checksum_file
        then exists d,
               load_checksums codec (files w) (value_of checksum_file) = Ok (PDict d)
               /\ dict_get model d = Some (PStr (sha256_hex hl data))
        else checksum = Some (sha256_hex hl data) /\ sha256_hex hl data <> [])
    /\ w' = said w check_mark.
Proof.
  cbn [main]. unfold cmd_verify.
  destruct (truthy checksum_file) eqn:Ef.
  - rewrite andb_false_r. unfold try_except, bind, reading, ret.
    destruct (load_checksums codec (files w) (value_of checksum_file)) as [v|e].
    + destruct v as [| b | lit | t | l | d];
        try (cbn; split; [discriminate|];
             intros (data & _ & (d & H & _) & _); discriminate).
      * (* a string: a substring test, then an index error *)
        cbn. destruct (contains_str model t); cbn;
          (split; [discriminate|]; intros (data & _ & (d & H & _) & _); discriminate).
      * (* an array *)
        cbn. destruct (existsb (str_eq_val model) l); cbn;
          (split; [discriminate|]; intros (data & _ & (d & H & _) & _); discriminate).
      * (* an object *)
        cbn. destruct (dict_get model d) as [expected|] eqn:Eg; cbn.
        -- rewrite report_verification_zero, verify_checksum_true. cbn [Path_of].
           split.
           ++ intros [(data & Hs & ->) ->]. exists data. repeat split; auto.
              exists d. auto.
           ++ intros (data & Hs & (d' & [= <-] & Hg) & ->). split; [|reflexivity].
              exists data. split; [exact Hs|congruence].
        -- split; [discriminate|].
           intros (data & _ & (d' & [= <-] & Hg) & _). congruence.
    + destruct (isinstance e FileNotFoundError); cbn;
        (split; [discriminate|]; intros (data & _ & (d & H & _) & _); discriminate).
  - rewrite andb_true_r. destruct (truthy checksum) eqn:Ec; cbn [negb].
    + rewrite report_verification_zero, verify_checksum_true. cbn [Path_of].
      destruct checksum as [c|]; [|discriminate]. cbn [val_of_option].
      split.
      * intros [(data & Hs & [= ->]) ->]. exists data. repeat split; auto.
        intros E. rewrite E in Ec. discriminate.
      * intros (data & Hs & ([= ->] & _) & ->). split; [|reflexivity].
        exists data. auto.
    + unfold bind, print_err, ret. split; [discriminate|].
      intros (data & _ & (-> & Hne) & _). cbn in Ec.
      destruct (sha256_hex hl data); [congruence|discriminate].
Qed.

(** X4: [calculate] without an output file prints the SHA-256 digest of a
    readable model file on one line and returns 0, leaving everything else
    as it was; [verify] with that digest as [--checksum] then succeeds. *)
Theorem calculate_then_verify_by_checksum
  (model : pystr) (output : option pystr) (w : world) (data : bytes) :
  os_stat (files w) (str (Path model)) = inr (File true data) ->
  truthy output = false ->
  sha256_hex hl data <> [] ->
  main hl codec (Calculate model output) w = Returns 0 (said w (sha256_hex hl data))
  /\ main hl codec (Verify model (Some (sha256_hex hl data)) None)
          (said w (sha256_hex hl data)) =
     Returns 0 (said (said w (sha256_hex hl data)) check_mark).
Proof.
  intros Hs Ho Hne. split.
  - cbn [main]. unfold cmd_calculate, try_except, bind, reading.
    rewrite calculate_checksum_cases. cbn [Path_of]. rewrite Hs, Ho.
    reflexivity.
  - cbn [main]. destruct (sha256_hex hl data) as [|x digest] eqn:E; [congruence|].
    cbn [truthy negb andb]. unfold cmd_verify. cbn [truthy val_of_option].
    unfold report_verification, bind, reading, verify_checksum.
    rewrite calculate_checksum_cases. cbn [Path_of files said]. rewrite Hs.
    change (algorithm_named default_algorithm) with (Some SHA256).
    cbn [hexdigest hash_of fed]. rewrite E. cbn [str_eq_val].
    rewrite str_eqb_refl. reflexivity.
Qed.

(** X5: [verify] with a checksum file it cannot open. When the file does not
    exist the command writes the error's message, which shows the name as
    [repr] writes it, to the error stream and returns 1; every other
    failure to open it (a directory, a file without permission, a path
    through a regular file, a name that is too long) reaches the caller.
    Nothing is hashed and nothing is printed on the output stream. *)
Theorem verify_with_unreadable_checksum_file
  (model f : pystr) (checksum : option pystr) (w : world) (e : errno) :
  f <> [] ->
  os_open_read (files w) f = inl e ->
  main hl codec (Verify model checksum (Some f)) w =
  match e with
  | ENOENT =>
      Returns 1 (complained w (py "Error: [Errno 2] No such file or directory: "
                               ++ repr f))
  | _ => Raises (os_error e f) w
  end.
Proof.
  intros Hf He. cbn [main]. destruct f as [|x f]; [congruence|].
  cbn [truthy negb]. rewrite andb_false_r. unfold cmd_verify. cbn [truthy value_of].
  unfold try_except, bind, reading, load_checksums. rewrite He. cbn [lift_os rbind].
  destruct e; reflexivity.
Qed.

(** X6: [verify] with a checksum file that holds no entry for the model. When
    the file is a JSON object without the model's key the command returns 1
    with a message naming the model, whether the model file exists or not.
    When the file holds another JSON value the command never succeeds: it
    returns 1 with that message or a [TypeError] reaches the caller. *)
Theorem verify_without_an_entry
  (model f : pystr) (checksum : option pystr) (w : world) (v : pyval) :
  f <> [] ->
  load_checksums codec (files w) f = Ok v ->
  (forall d, v = PDict d -> dict_get model d = None) ->
  (main hl codec (Verify model checksum (Some f)) w =
     Returns 1 (complained w (not_in_checksum_file model))
   \/ escapes_with (main hl codec (Verify model checksum (Some f)) w) TypeError)
  /\ ((exists d, v = PDict d) ->
      main hl codec (Verify model checksum (Some f)) w =
      Returns 1 (complained w (not_in_checksum_file model))).
Proof.
  intros Hf Hl Hv. cbn [main]. destruct f as [|x f]; [congruence|].
  cbn [truthy negb]. rewrite andb_false_r. unfold cmd_verify. cbn [truthy value_of].
  unfold try_except, bind, reading. rewrite Hl.
  destruct v as [| b | lit | t | l | d]; cbn.
  - split; [now right|]. intros [d H]. discriminate.
  - split; [now right|]. intros [d H]. discriminate.
  - split; [now right|]. intros [d H]. discriminate.
  - split; [|intros [d H]; discriminate].
    destruct (contains_str model t); cbn; [now right|now left].
  - split; [|intros [d H]; discriminate].
    destruct (existsb (str_eq_val model) l); cbn; [now right|now left].
  - rewrite (Hv d eq_refl). cbn. split; [now left|reflexivity].
Qed.

(** X7: [calculate] with an output file it cannot open. The digest is computed
    first and is not printed. When the path of the output file leads
    through a directory that does not exist, the error is taken for a
    missing model: its message, which shows the name as [repr] writes it,
    goes to the error stream and the command returns 1. A directory or a
    file without permission in the place of the output file, a path
    through a regular file, or a name that is too long makes the error
    reach the caller. *)
Theorem calculate_with_unwritable_output
  (model o : pystr) (w : world) (data : bytes) (e : errno) :
  os_stat (files w) (str (Path model)) = inr (File true data) ->
  o <> [] ->
  os_open_write (files w) o = inl e ->
  main hl codec (Calculate model (Some o)) w =
  match e with
  | ENOENT =>
      Returns 1 (complained w (py "Error: [Errno 2] No such file or directory: "
                               ++ repr o))
  | _ => Raises (os_error e o) w
  end.
Proof.
  intros Hs Ho He. cbn [main]. destruct o as [|x o]; [congruence|].
  unfold cmd_calculate, try_except, bind, reading.
  rewrite calculate_checksum_cases. cbn [Path_of]. rewrite Hs.
  change (algorithm_named default_algorithm) with (Some SHA256).
  cbn [truthy value_of]. unfold save_checksums. rewrite He.
  destruct e; reflexivity.
Qed.

End VerifyProperties.

Lemma calculate_then_verify_by_checksum_example :
  main toy_hashlib ascii_codec (Calculate (py "models/a.h5") None) demo_world =
    Returns 0 (said demo_world (toy_hex 1 (ascii_text "fake model")))
  /\ main toy_hashlib ascii_codec
          (Verify (py "models/a.h5") (Some (toy_hex 1 (ascii_text "fake model"))) None)
          (said demo_world (toy_hex 1 (ascii_text "fake model"))) =
     Returns 0 (said (said demo_world (toy_hex 1 (ascii_text "fake model"))) check_mark).
Proof.
  apply (calculate_then_verify_by_checksum toy_hashlib ascii_codec (py "models/a.h5")
           None demo_world (ascii_text "fake model")).
  - reflexivity.
  - reflexivity.
  - discriminate.
Defined.

Lemma verify_with_unreadable_checksum_file_example :
  main toy_hashlib ascii_codec
       (Verify (py "models/a.h5") None (Some (py "it's missing.json"))) demo_world =
  Returns 1 (complained demo_world
               (py "Error: [Errno 2] No such file or directory: "
                ++ [34%N] ++ py "it's missing.json" ++ [34%N])).
Proof.
  apply (verify_with_unreadable_checksum_file toy_hashlib ascii_codec (py "models/a.h5")
           (py "it's missing.json") None demo_world ENOENT).
  - discriminate.
  - reflexivity.
Defined.

Lemma verify_without_an_entry_example :
  main toy_hashlib ascii_codec
       (Verify (py "models/sub/c.onnx") None (Some (py "sums.json"))) demo_world =
  Returns 1 (complained demo_world (not_in_checksum_file (py "models/sub/c.onnx"))).
Proof.
  apply (verify_without_an_entry toy_hashlib ascii_codec (py "models/sub/c.onnx")
           (py "sums.json") None demo_world
           (as_dict [(py "models/a.h5", toy_hex 1 (ascii_text "fake model"))])).
  - discriminate.
  - reflexivity.
  - intros d [= <-]. reflexivity.
  - eexists. reflexivity.
Defined.

Lemma calculate_with_unwritable_output_example :
  main toy_hashlib ascii_codec
       (Calculate (py "models/a.h5") (Some (py "nowhere/out.json"))) demo_world =
  Returns 1 (complained demo_world
               (py "Error: [Errno 2] No such file or directory: 'nowhere/out.json'")).
Proof.
  apply (calculate_with_unwritable_output toy_hashlib ascii_codec (py "models/a.h5")
           (py "nowhere/out.json") demo_world (ascii_text "fake model") ENOENT).
  - reflexivity.
  - discriminate.
  - reflexivity.
Defined.

(** ** The file system: what a write leaves alone *)

Lemma node_at_put_file_other (loc : list pystr) :
  forall root p data q pq dq,
    node_at root q = Some (File pq dq) -> q <> loc ->
    kind_at root loc <> Some true ->
    node_at (put root loc (File p data)) q = Some (File pq dq).
Proof.
  unfold kind_at.
  induction loc as [|c loc IH]; intros root p data q pq dq Hq Hne Hk.
  - destruct root as [p' d'|es]; [|simpl in Hk; congruence].
    destruct q as [|x q]; [congruence|discriminate].
  - destruct root as [p' d'|es]; [exact Hq|].
    destruct q as [|x q]; [discriminate|].
    cbn [node_at] in Hq, Hk. destruct loc as [|c2 loc].
    + cbn [put node_at]. rewrite dict_get_set.
      destruct (str_eqb x c) eqn:E; [|exact Hq].
      apply str_eqb_eq in E. subst x. exfalso.
      destruct (dict_get c es) as [[p2 d2|es2]|]; try discriminate.
      * destruct q as [|y q]; [congruence|discriminate].
      * simpl in Hk. congruence.
    + cbn [put]. destruct (dict_get c es) as [m|] eqn:Em; [|exact Hq].
      cbn [node_at]. rewrite dict_get_set.
      destruct (str_eqb x c) eqn:E; [|exact Hq].
      apply str_eqb_eq in E. subst x. rewrite Em in Hq.
      apply IH; [exact Hq|congruence|exact Hk].
Qed.

(** What [open(name, "w")] found when it succeeded. *)
Lemma os_open_write_inv (root : node) (name : pystr) (loc : list pystr) (opened : node) :
  os_open_write root name = inr (loc, opened) ->
  name <> []
  /\ walk root [] (components name) = inr loc
  /\ trailing_slash name = false
  /\ kind_at root loc <> Some true
  /\ (loc = [] \/ kind_at root (removelast loc) = Some true)
  /\ opened = put root loc (File true [])
  /\ name_error name = None.
Proof.
  intros H. apply os_open_write_walk in H.
  destruct H as (He & Hne & Ht & Ew & Hk & ->).
  repeat split; auto.
  destruct (walk_parent root (components name) [] loc Ew (or_introl eq_refl))
    as [H|[H|H]]; auto. contradiction.
Qed.


(** A regular file at another location than the one written is as it was. *)
Lemma os_stat_after_write (root : node) (name other : pystr) (loc : list pystr)
  (opened : node) (data : bytes) (p : bool) (d : bytes) :
  os_open_write root name = inr (loc, opened) ->
  os_stat root other = inr (File p d) ->
  location root other <> Some loc ->
  os_stat (os_write opened loc data) other = inr (File p d).
Proof.
  intros Ho Hs Hl. apply os_open_write_inv in Ho.
  destruct Ho as (_ & _ & _ & Hk & Hp & -> & _).
  unfold os_stat, location, os_write in *.
  destruct (name_error other); [discriminate|].
  destruct other as [|ch other]; [discriminate|].
  remember (ch :: other) as nm.
  set (comps := components nm ++ (if trailing_slash nm then [dot] else [])) in *.
  destruct (walk root [] comps) as [e|q] eqn:Ew; [discriminate|].
  destruct (node_at root q) as [n|] eqn:En; [|discriminate].
  injection Hs as ->.
  assert (Hq : q <> loc) by congruence.
  pose proof (node_at_put_same loc root (File true []) Hp) as Hn1.
  set (root1 := put root loc (File true [])) in *.
  assert (Hk1 : kind_at root1 loc <> Some true)
    by (unfold kind_at; rewrite Hn1; discriminate).
  rewrite (walk_put root1 loc true data comps Hk1 [] q
             (walk_put root loc true [] comps Hk [] q Ew)).
  rewrite (node_at_put_file_other loc root1 true data q p d); auto.
  apply node_at_put_file_other; auto.
Qed.

(** ** The checksum store: saving *)

Lemma json_dumps_valid_ascii (r : record) :
  valid_record r = true -> all_ascii (json_dumps r) = true.
Proof.
  intros Hok. destruct r as [|kv items]; [reflexivity|].
  rewrite json_dumps_members. unfold all_ascii. cbn [forallb].
  fold (all_ascii (members_text kv items)).
  rewrite members_text_ascii by exact Hok. reflexivity.
Qed.

Lemma save_checksums_returns (codec : text_codec) (r : record) (p : pystr) (w : world)
  (loc : list pystr) (opened : node) :
  valid_record r = true ->
  os_open_write (files w) p = inr (loc, opened) ->
  save_checksums codec r p w =
  Returns tt (with_files w (os_write opened loc (ascii_bytes (json_dumps r)))).
Proof.
  intros Hv Ho. unfold save_checksums. rewrite Ho.
  destruct (text_round_trip codec (json_dumps r) (json_dumps_valid_ascii r Hv))
    as [He _].
  now rewrite He.
Qed.




(** X9: Saving a record changes no other regular file: a file at another place
    than the one the destination names has the permission and the bytes it
    had. *)
Theorem save_checksums_leaves_other_files
  (codec : text_codec) (r : record) (p other : pystr) (w : world)
  (loc : list pystr) (opened : node) (perm : bool) (d : bytes) :
  valid_record r = true ->
  os_open_write (files w) p = inr (loc, opened) ->
  os_stat (files w) other = inr (File perm d) ->
  location (files w) other <> Some loc ->
  exists w',
    save_checksums codec r p w = Returns tt w'
    /\ os_stat (files w') other = inr (File perm d).
Proof.
  intros Hv Ho Hs Hl. eexists. split; [eapply save_checksums_returns; eassumption|].
  cbn [files with_files]. now apply (os_stat_after_write (files w) p).
Qed.

Lemma save_checksums_leaves_other_files_example :
  exists w',
    save_checksums ascii_codec [(py "m", py "0")] (py "models/../sums.json") demo_world =
      Returns tt w'
    /\ os_stat (files w') (py "locked/b.pt") =
       inr (File false (ascii_text "fake model 2")).
Proof.
  apply (save_checksums_leaves_other_files ascii_codec [(py "m", py "0")]
           (py "models/../sums.json") (py "locked/b.pt") demo_world
           [py "sums.json"] (put demo_files [py "sums.json"] (File true []))).
  - reflexivity.
  - reflexivity.
  - reflexivity.
  - discriminate.
Defined.



(** ** Calculating to a file, then verifying from it *)



(** ** Scanning: more on what a scan returns and on how it fails *)










(** What a record returned for a list of locations holds: the digest of each
    readable file among them, under its relative path, and nothing else. *)
Lemma scan_record_lookup hl d es formats recursive (r : record) :
  wf_tree (Dir es) = true ->
  for_each (scan_visits formats recursive es) (tree_step hl d (Dir es)) [] = Ok r ->
  forall key v,
    dict_get key r = Some v <->
    exists rel data, In rel (scan_locations formats recursive es) /\
                     node_at (Dir es) rel = Some (File true data) /\
                     key = join slash rel /\ v = sha256_hex hl data.
Proof.
  intros Hwf Hr key v.
  destruct (scan_loop_returns hl d es formats recursive [] r Hr)
    as (_ & Hkeys & Hvals & _).
  split.
  - intros Hget. destruct (Hvals key v Hget) as [H|H]; [discriminate|exact H].
  - intros (rel & data & Hin & Hat & -> & ->).
    assert (Hk : In (join slash rel) (keys r))
      by (apply Hkeys; right; now exists rel, data).
    apply dict_get_keys in Hk. destruct Hk as [v' Hv']. rewrite Hv'. f_equal.
    destruct (Hvals _ _ Hv') as [H|(rel' & data' & Hin' & Hat' & E & ->)];
      [discriminate|].
    destruct (node_at_plain rel (Dir es) _ Hwf Hat) as [Hp1 _].
    destruct (node_at_plain rel' (Dir es) _ Hwf Hat') as [Hp2 _].
    apply join_injective in E; try now apply plain_names_part_ok.
    subst rel'. congruence.
Qed.

Lemma matches_same_set (l1 l2 : list pystr) (name : pystr) :
  (forall ext, In ext l1 <-> In ext l2) -> matches l1 name = matches l2 name.
Proof.
  intros H. unfold matches.
  destruct (existsb (fun ext => endswith ext name) l1) eqn:E1;
    destruct (existsb (fun ext => endswith ext name) l2) eqn:E2; try reflexivity.
  - apply existsb_exists in E1. destruct E1 as (ext & Hin & He).
    assert (E : existsb (fun ext => endswith ext name) l2 = true)
      by (apply existsb_exists; exists ext; split; [now apply H|exact He]).
    congruence.
  - apply existsb_exists in E2. destruct E2 as (ext & Hin & He).
    assert (E : existsb (fun ext => endswith ext name) l1 = true)
      by (apply existsb_exists; exists ext; split; [now apply H|exact He]).
    congruence.
Qed.



(** X16: The format list counts as a set. Two lists with the same literal
    suffixes, in any order and with any repetitions, make a scan of a directory return
    in the same cases, and the two records then hold the same digest under
    the same keys. *)
Theorem scan_directory_formats_as_a_set
  (hl : hashlib) (h : heap) (fs : node) (dir : pystr) (l1 l2 : list pystr)
  (recursive : bool) (es : list (pystr * node)) :
  wf_tree (Dir es) = true ->
  os_stat fs (str (Path dir)) = inr (Dir es) ->
  literal_formats l1 = true -> literal_formats l2 = true ->
  (forall ext, In ext l1 <-> In ext l2) ->
  match scan_directory hl h fs (AsStr dir) (Some l1) recursive,
        scan_directory hl h fs (AsStr dir) (Some l2) recursive with
  | Ok r1, Ok r2 => forall key, dict_get key r1 = dict_get key r2
  | Raise _, Raise _ => True
  | _, _ => False
  end.
Proof.
  intros Hwf Hs _ _ Hset.
  rewrite !(scan_directory_tree hl h fs dir _ recursive es Hwf Hs).
  cbn [formats_used].
  set (rels1 := scan_locations l1 recursive es).
  set (rels2 := scan_locations l2 recursive es).
  assert (Hsame : forall rel, In rel rels1 <-> In rel rels2).
  { intros rel. unfold rels1, rels2.
    rewrite !(in_scan_locations _ recursive es rel Hwf).
    now rewrite (matches_same_set l1 l2 _ Hset). }
  assert (Hpaths : forall rel, In rel (scan_paths l1 recursive es) <->
                               In rel (scan_paths l2 recursive es)).
  { intros rel. rewrite !(in_scan_paths _ recursive es rel Hwf).
    rewrite (matches_same_set l1 l2 _ Hset).
    assert (Hne : l1 <> [] <-> l2 <> []).
    { destruct l1 as [|a l1], l2 as [|b l2]; try tauto.
      - exfalso. apply (proj2 (Hset b)). now left.
      - exfalso. apply (proj1 (Hset a)). now left.
      - split; discriminate. }
    tauto. }
  assert (Htotal : forall la lb r,
             (forall rel, In rel (scan_locations la recursive es) <->
                          In rel (scan_locations lb recursive es)) ->
             (forall rel, In rel (scan_paths la recursive es) <->
                          In rel (scan_paths lb recursive es)) ->
             for_each (scan_visits la recursive es)
                      (tree_step hl (Path dir) (Dir es)) [] = Ok r ->
             exists r', for_each (scan_visits lb recursive es)
                                 (tree_step hl (Path dir) (Dir es)) [] = Ok r').
  { intros la lb r Hab Hpab Hr.
    destruct (scan_loop_returns hl (Path dir) es la recursive [] r Hr)
      as (_ & _ & _ & Hp).
    pose proof (scan_loop_short hl (Path dir) es la recursive [] r Hr) as Hshort.
    apply scan_loop_total.
    - unfold within_path_max in *. rewrite forallb_forall in *.
      intros rel Hin. apply Hshort. now apply Hpab.
    - intros rel p data Hin. apply (Hp rel p data). now apply Hab. }
  destruct (for_each (scan_visits l1 recursive es) (tree_step hl (Path dir) (Dir es)) [])
    as [r1|e1] eqn:E1;
    destruct (for_each (scan_visits l2 recursive es)
                       (tree_step hl (Path dir) (Dir es)) []) as [r2|e2] eqn:E2.
  - intros key.
    pose proof (scan_record_lookup hl (Path dir) es l1 recursive r1 Hwf E1 key) as H1.
    pose proof (scan_record_lookup hl (Path dir) es l2 recursive r2 Hwf E2 key) as H2.
    assert (H12 : forall v, dict_get key r1 = Some v <-> dict_get key r2 = Some v).
    { intros v. rewrite H1, H2. split;
        intros (rel & data & Hin & H); exists rel, data; (split; [now apply Hsame|exact H]). }
    destruct (dict_get key r1) as [v1|].
    + symmetry. now apply H12.
    + destruct (dict_get key r2) as [v2|]; [|reflexivity].
      now apply H12.
  - destruct (Htotal l1 l2 r1 Hsame Hpaths E1) as [r' H]. congruence.
  - destruct (Htotal l2 l1 r2 (fun rel => iff_sym (Hsame rel))
                     (fun rel => iff_sym (Hpaths rel)) E2) as [r' H].
    congruence.
  - exact I.
Qed.

Lemma scan_directory_formats_as_a_set_example :
  dict_get (py "sub/c.onnx")
           [(py "a.h5", toy_hex 1 (ascii_text "fake model"));
            (py "sub/c.onnx", toy_hex 1 (ascii_text "deep"))] =
  dict_get (py "sub/c.onnx")
           [(py "sub/c.onnx", toy_hex 1 (ascii_text "deep"));
            (py "a.h5", toy_hex 1 (ascii_text "fake model"))].
Proof.
  assert (Hset : forall ext, In ext [py ".h5"; py ".onnx"] <->
                             In ext [py ".onnx"; py ".h5"; py ".onnx"])
    by (intros ext; simpl; tauto).
  exact (scan_directory_formats_as_a_set toy_hashlib imported demo_files (py "models")
           [py ".h5"; py ".onnx"] [py ".onnx"; py ".h5"; py ".onnx"] true
           [ (py "a.h5", File true (ascii_text "fake model"));
             (py "notes.txt", File true (ascii_text "n"));
             (py "sub", Dir [ (py "c.onnx", File true (ascii_text "deep")) ]) ]
           eq_refl eq_refl eq_refl eq_refl Hset (py "sub/c.onnx")).
Defined.

(** ** The [--formats] argument *)

Local Open Scope N_scope.

Lemma split_on_comma_free (w : pystr) :
  comma_free w = true -> split_on comma w = [w].
Proof.
  induction w as [|c w IH]; simpl; [reflexivity|].
  rewrite andb_true_iff, negb_true_iff. intros [Hc Hw].
  rewrite Hc, IH by assumption. reflexivity.
Qed.

Lemma split_on_comma_app (w s : pystr) :
  comma_free w = true ->
  split_on comma (w ++ comma :: s) = w :: split_on comma s.
Proof.
  induction w as [|c w IH]; simpl.
  - intros _. reflexivity.
  - rewrite andb_true_iff, negb_true_iff. intros [Hc Hw].
    rewrite Hc, IH by assumption. reflexivity.
Qed.

Lemma split_on_comma_join (l : list pystr) :
  l <> [] -> forallb comma_free l = true -> split_on comma (join comma l) = l.
Proof.
  induction l as [|w l IH]; intros Hne Hf; [congruence|].
  simpl in Hf. apply andb_true_iff in Hf. destruct Hf as [Hw Hl].
  destruct l as [|w2 l].
  - simpl. now apply split_on_comma_free.
  - change (join comma (w :: w2 :: l)) with (w ++ comma :: join comma (w2 :: l)).
    rewrite split_on_comma_app by assumption. f_equal. apply IH; [discriminate|assumption].
Qed.

Local Close Scope N_scope.

(** X17: [scan --formats]: a value made of suffixes joined by commas scans with
    exactly these suffixes, in their order, and without an output file the
    command prints the JSON text of the record and returns 0, or lets the
    error of the scan through; an empty value counts as no value, and the
    supported formats are used. *)
Theorem scan_formats_argument
  (hl : hashlib) (codec : text_codec) (directory : pystr) (l : list pystr)
  (no_recursive : bool) (w : world) :
  l <> [] -> forallb comma_free l = true -> join comma l <> [] ->
  main hl codec (Scan directory (Some (join comma l)) no_recursive None) w =
    match scan_directory hl (objects w) (files w) (AsStr directory) (Some l)
                         (negb no_recursive) with
    | Ok record => Returns 0 (said w (json_dumps record))
    | Raise e => Raises e w
    end
  /\ main hl codec (Scan directory (Some []) no_recursive None) w =
     main hl codec (Scan directory None no_recursive None) w.
Proof.
  intros Hne Hf Hj. split; [|reflexivity].
  cbn [main]. unfold cmd_scan, bind, reading.
  destruct (join comma l) as [|c t] eqn:E; [congruence|].
  cbn [truthy value_of]. rewrite <- E.
  change 44%N with comma. rewrite split_on_comma_join by assumption.
  destruct (scan_directory hl (objects w) (files w) (AsStr directory) (Some l)
              (negb no_recursive)); reflexivity.
Qed.

Lemma scan_formats_argument_example :
  main toy_hashlib ascii_codec (Scan (py "models") (Some (py ".onnx,.h5")) true None)
       demo_world =
  Returns 0 (said demo_world
               (json_dumps [(py "a.h5", toy_hex 1 (ascii_text "fake model"))])).
Proof.
  apply (proj1 (scan_formats_argument toy_hashlib ascii_codec (py "models")
                  [py ".onnx"; py ".h5"] true demo_world
                  ltac:(discriminate) eq_refl ltac:(discriminate))).
Defined.

(** ** Commands that name no output file write no file *)

(** X18: Only [-o] writes: [verify], [formats], an invocation without a command,
    and [calculate] and [scan] without an output file leave every file as it
    was, whether the command returns or an error escapes it. *)
Theorem commands_without_output_write_no_file
  (hl : hashlib) (codec : text_codec) (args : namespace) (w : world) :
  names_no_output args = true ->
  files (world_after (main hl codec args w)) = files w.
Proof.
  destruct args as [| model output | model checksum checksum_file
                    | directory formats no_recursive output |];
    cbn [names_no_output main]; intros Hno.
  - reflexivity.
  - apply negb_true_iff in Hno.
    unfold cmd_calculate, try_except, bind, reading. rewrite Hno.
    destruct (calculate_checksum hl (files w) (AsStr model) default_algorithm) as [c|e];
      [reflexivity|].
    destruct (isinstance e FileNotFoundError); reflexivity.
  - destruct (negb (truthy checksum) && negb (truthy checksum_file)); [reflexivity|].
    assert (Hreport : forall expected w0,
               files (world_after (report_verification hl model expected w0)) = files w0).
    { intros expected w0. unfold report_verification, bind, reading.
      destruct (verify_checksum hl (files w0) (AsStr model) expected) as [[|]|e];
        reflexivity. }
    unfold cmd_verify. destruct (truthy checksum_file); [|apply Hreport].
    unfold try_except, bind, reading.
    destruct (load_checksums codec (files w) (value_of checksum_file)) as [v|e].
    + destruct (py_contains model v) as [[|]|e];
        [|reflexivity|destruct (isinstance e FileNotFoundError); reflexivity].
      destruct (py_getitem model v) as [expected|e];
        [|destruct (isinstance e FileNotFoundError); reflexivity].
      cbn [ret]. apply Hreport.
    + destruct (isinstance e FileNotFoundError); reflexivity.
  - apply negb_true_iff in Hno. unfold cmd_scan, bind, reading. rewrite Hno.
    destruct (scan_directory hl (objects w) (files w) (AsStr directory) _ _);
      reflexivity.
  - unfold cmd_formats, get_supported_formats, alloc, bind, ret.
    rewrite print_all_spec. reflexivity.
Qed.

Lemma commands_without_output_write_no_file_example :
  files (world_after (main toy_hashlib ascii_codec
                           (Verify (py "models/a.h5") None (Some (py "junk.json")))
                           demo_world)) = demo_files.
Proof.
  apply (commands_without_output_write_no_file toy_hashlib ascii_codec
           (Verify (py "models/a.h5") None (Some (py "junk.json"))) demo_world).
  reflexivity.
Defined.

(** ** Scanning the current directory, then verifying from the saved file *)







(** ** The default formats are read from the list itself *)

Lemma deref_store_same (h : heap) (a : address) (items : list pystr) :
  a < length h -> deref (store h a items) a = items.
Proof.
  unfold deref. revert a. induction h as [|x h IH]; intros [|a] Ha; simpl in *;
    try lia; [reflexivity|].
  apply IH. lia.
Qed.

(** X20: [scan_directory] without a format list reads [SUPPORTED_FORMATS] itself,
    not a copy made earlier: after a change made in place to that list, a
    scan with the default formats is the scan with the changed items. *)
Theorem scan_directory_reads_the_live_formats
  (hl : hashlib) (h : heap) (fs : node) (directory : pathlike) (recursive : bool)
  (f : list pystr -> list pystr) :
  SUPPORTED_FORMATS < length h ->
  scan_directory hl (mutate h SUPPORTED_FORMATS f) fs directory None recursive =
  scan_directory hl h fs directory (Some (f (deref h SUPPORTED_FORMATS))) recursive.
Proof.
  intros Hh. unfold scan_directory, mutate. now rewrite deref_store_same.
Qed.

Lemma scan_directory_reads_the_live_formats_example :
  scan_directory toy_hashlib (mutate imported SUPPORTED_FORMATS (fun l => l ++ [py ".txt"]))
                 demo_files (AsStr (py "models")) None false =
  Ok [(py "a.h5", toy_hex 1 (ascii_text "fake model"));
      (py "notes.txt", toy_hex 1 (ascii_text "n"))].
Proof.
  rewrite (scan_directory_reads_the_live_formats toy_hashlib imported demo_files
             (AsStr (py "models")) false (fun l => l ++ [py ".txt"])).
  - reflexivity.
  - unfold SUPPORTED_FORMATS, imported. simpl. lia.
Defined.

(** ** Exit codes and the error stream *)

Section ExitCodes.

Context (hl : hashlib) (codec : text_codec).

Lemma report_verification_codes (model : pystr) (expected : pyval) (w w' : world)
  (code : nat) :
  report_verification hl model expected w = Returns code w' ->
  (code = 0 /\ stderr w' = stderr w)
  \/ (code = 1 /\ exists line, stderr w' = stderr w ++ [line]).
Proof.
  unfold report_verification, bind, reading.
  destruct (verify_checksum hl (files w) (AsStr model) expected) as [[|]|e];
    [| |discriminate]; intros [= <- <-]; [now left|right].
  split; [reflexivity|]. now exists cross_mark.
Qed.

(** X21: When [main] returns, it returns 0 or 1. It returns 0 only with the error
    stream as it was, and 1 only after writing one line to the error
    stream, or the help text when no command was given. *)
Theorem exit_code_tells_of_the_error_stream
  (args : namespace) (w w' : world) (code : nat) :
  main hl codec args w = Returns code w' ->
  (code = 0 /\ stderr w' = stderr w)
  \/ (code = 1 /\ (args = NoCommand \/ exists line, stderr w' = stderr w ++ [line])).
Proof.
  destruct args as [| model output | model checksum checksum_file
                    | directory formats no_recursive output |];
    cbn [main].
  - intros [= <- <-]. right. auto.
  - unfold cmd_calculate, try_except, bind, reading.
    destruct (calculate_checksum hl (files w) (AsStr model) default_algorithm) as [c|e].
    + destruct (truthy output).
      * unfold save_checksums.
        destruct (os_open_write (files w) (value_of output)) as [er|[loc opened]].
        -- destruct (isinstance (os_error er (value_of output)) FileNotFoundError);
             [|discriminate].
           intros [= <- <-]. right. split; [reflexivity|right]. eexists. reflexivity.
        -- destruct (text_encode codec _).
           ++ intros [= <- <-]. now left.
           ++ cbn. discriminate.
      * intros [= <- <-]. now left.
    + destruct (isinstance e FileNotFoundError); [|discriminate].
      intros [= <- <-]. right. split; [reflexivity|right]. eexists. reflexivity.
  - destruct (negb (truthy checksum) && negb (truthy checksum_file)).
    { intros [= <- <-]. right. split; [reflexivity|right]. eexists. reflexivity. }
    unfold cmd_verify. destruct (truthy checksum_file).
    + unfold try_except, bind, reading.
      destruct (load_checksums codec (files w) (value_of checksum_file)) as [v|e].
      * destruct (py_contains model v) as [[|]|e].
        -- destruct (py_getitem model v) as [expected|e].
           ++ cbn [ret]. intros H.
              destruct (report_verification_codes _ _ _ _ _ H) as [H0|[H1 Hl]]; auto.
           ++ destruct (isinstance e FileNotFoundError); [|discriminate].
              intros [= <- <-]. right. split; [reflexivity|right]. eexists. reflexivity.
        -- intros [= <- <-]. right. split; [reflexivity|right]. eexists. reflexivity.
        -- destruct (isinstance e FileNotFoundError); [|discriminate].
           intros [= <- <-]. right. split; [reflexivity|right]. eexists. reflexivity.
      * destruct (isinstance e FileNotFoundError); [|discriminate].
        intros [= <- <-]. right. split; [reflexivity|right]. eexists. reflexivity.
    + intros H. destruct (report_verification_codes _ _ _ _ _ H) as [H0|[H1 Hl]]; auto.
  - unfold cmd_scan, bind, reading.
    destruct (scan_directory hl (objects w) (files w) (AsStr directory) _ _) as [r|e];
      [|discriminate].
    destruct (truthy output).
    + unfold save_checksums.
      destruct (os_open_write (files w) (value_of output)) as [er|[loc opened]];
        [discriminate|].
      destruct (text_encode codec _); [|discriminate].
      intros [= <- <-]. now left.
    + intros [= <- <-]. now left.
  - unfold cmd_formats, get_supported_formats, alloc, bind, ret.
    rewrite print_all_spec. intros [= <- <-]. now left.
Qed.


End ExitCodes.

Lemma exit_code_tells_of_the_error_stream_example :
  (1 = 0 /\ [cross_mark] = @nil pystr)
  \/ (1 = 1 /\
      (Verify (py "models/a.h5") (Some (py "bogus")) None = NoCommand
       \/ exists line, [cross_mark] = [] ++ [line])).
Proof.
  apply (exit_code_tells_of_the_error_stream toy_hashlib ascii_codec
           (Verify (py "models/a.h5") (Some (py "bogus")) None) demo_world
           (complained demo_world cross_mark) 1).
  reflexivity.
Defined.

